(** * brat tools: standoff annotations and CoNLL token lines

    A shallow embedding of [tools/anntoconll.py] and
    [tools/conllpos_to_standoff.py], with the properties of the offset and
    label bookkeeping stated and proved over it.

    Conventions of the embedding.
    - Python [int] is [Z]; a [str] is a [string], its characters being the
      code points 0..255.
    - A [dict] consulted by key is a [gmap] or a [gset]; a [dict] whose
      iteration order is observed is an association list.
    - [print(..., file=sys.stderr)] appends a [warning] to a log that the
      functions return next to their result.
    - A raised exception is the [Raise] result carrying the exception class. *)

From Stdlib Require Import ZArith Ascii String.
From stdpp Require Import base decidable option list gmap strings sorting.

Local Open Scope Z_scope.

(** ** Data model *)

(** [Textbound = namedtuple('Textbound', 'start end type text')]. *)
Record Textbound : Type := mkTextbound {
  tb_start : Z;
  tb_end : Z;
  tb_type : string;
  tb_text : string
}.

Global Instance Textbound_eq_dec : EqDecision Textbound.
Proof. solve_decision. Defined.

Definition Textbound_to_tuple (t : Textbound) : Z * Z * string * string :=
  (tb_start t, tb_end t, tb_type t, tb_text t).

Definition Textbound_of_tuple (p : Z * Z * string * string) : Textbound :=
  let '(s, e, ty, tx) := p in mkTextbound s e ty tx.

Global Instance Textbound_countable : Countable Textbound.
Proof.
  apply (inj_countable' Textbound_to_tuple Textbound_of_tuple).
  by intros [].
Defined.

(** Exception classes that the modelled functions raise. *)
Inductive exn : Type :=
  | FormatError
  | ValueError
  | KeyError
  | IndexError
  | AssertionError.

Global Instance exn_eq_dec : EqDecision exn.
Proof. solve_decision. Defined.

Inductive result (A : Type) : Type :=
  | Return (a : A)
  | Raise (e : exn).
Arguments Return {A} a.
Arguments Raise {A} e.

Global Instance result_ret : MRet result := fun A a => Return a.

Global Instance result_bind : MBind result := fun A B k r =>
  match r with
  | Return a => k a
  | Raise e => Raise e
  end.

(** Lines written to the diagnostic stream. *)
Inductive warning : Type :=
  | Eliminated (victim winner : Textbound)
  | OverlappingAnnotations (fname : string)
  | BoundaryMismatch (fname token span_text : string).

Global Instance warning_eq_dec : EqDecision warning.
Proof. solve_decision. Defined.

(** ** Overlap resolution: [eliminate_overlaps] *)

(** The test of the source is the negation of
    [t2.start >= t1.end or t2.end <= t1.start]. *)
Definition overlaps (t1 t2 : Textbound) : bool :=
  negb ((tb_end t1 <=? tb_start t2) || (tb_end t2 <=? tb_start t1)).

Definition span_len (t : Textbound) : Z := tb_end t - tb_start t.

Section WithHeap.

(** The list handed to the resolver holds references.  [t1 is t2] compares
    references, whereas the [eliminate] dictionary hashes and compares the
    tuples they point to.  [heap] gives the tuple behind each reference. *)
Variable heap : nat -> Textbound.

Definition elim_state : Type := gset Textbound * list warning.

(** Body of the inner loop, for one pair [(t1, t2)]. *)
Definition examine (t1 : nat) (st : elim_state) (t2 : nat) : elim_state :=
  if decide (t1 = t2) then st
  else if negb (overlaps (heap t1) (heap t2)) then st
  else if span_len (heap t2) <? span_len (heap t1)
       then ({[ heap t2 ]} ∪ st.1, st.2 ++ [Eliminated (heap t2) (heap t1)])
       else ({[ heap t1 ]} ∪ st.1, st.2 ++ [Eliminated (heap t1) (heap t2)]).

Definition inner_loop (textbounds : list nat) (st : elim_state) (t1 : nat)
  : elim_state :=
  foldl (examine t1) st textbounds.

Definition eliminated (textbounds : list nat) : elim_state :=
  foldl (inner_loop textbounds) (∅, []) textbounds.

Definition eliminate_overlaps (textbounds : list nat) : list nat * list warning :=
  let st := eliminated textbounds in
  (filter (fun t => heap t ∉ st.1) textbounds, st.2).

(** The span that a pair of overlapping references marks. *)
Definition victim (t1 t2 : nat) : Textbound :=
  if span_len (heap t2) <? span_len (heap t1) then heap t2 else heap t1.

Definition winner (t1 t2 : nat) : Textbound :=
  if span_len (heap t2) <? span_len (heap t1) then heap t1 else heap t2.

Definition clash (t1 t2 : nat) : Prop :=
  t1 ≠ t2 ∧ overlaps (heap t1) (heap t2) = true.

End WithHeap.

(** ** Label projection: [relabel] *)

(** The fields of the global [options] that the modelled functions read. *)
Inductive preprocessing : Type :=
  | PreRegex
  | PreSyntok
  | PreNone.

Record options : Type := mkOptions {
  singleclass : option string;
  attributes : bool;
  preprocess : preprocessing
}.

(** A record of the token list: [[]] at the end of a sentence, else
    [[tag, start, end, token]]. *)
Inductive line : Type :=
  | Blank
  | Tok (tag : string) (start end_ : Z) (token : string).

Global Instance line_eq_dec : EqDecision line.
Proof. solve_decision. Defined.

(** [range(a, b)]. *)
Definition range (a b : Z) : list Z := seqZ a (b - a).

Section Relabel.

Variable fname : string.

(** Body of [for i in range(tb.start, tb.end)]. *)
Definition claim (tb : Textbound) (st : gmap Z Textbound * list warning) (i : Z)
  : gmap Z Textbound * list warning :=
  (<[i := tb]> st.1,
   if decide (is_Some (st.1 !! i))
   then st.2 ++ [OverlappingAnnotations fname]
   else st.2).

Definition claim_span (st : gmap Z Textbound * list warning) (tb : Textbound)
  : gmap Z Textbound * list warning :=
  foldl (claim tb) st (range (tb_start tb) (tb_end tb)).

Definition build_offset_label (annotations : list Textbound)
  : gmap Z Textbound * list warning :=
  foldl claim_span (∅, []) annotations.

(** [for o in range(start, end)]: the label of the first claimed offset,
    with the warning printed when that offset is not [start]. *)
Fixpoint find_label (offset_label : gmap Z Textbound) (start : Z)
    (token : string) (os : list Z) : option string * list warning :=
  match os with
  | [] => (None, [])
  | o :: os' =>
      match offset_label !! o with
      | Some tb =>
          (Some (tb_type tb),
           if decide (o = start) then []
           else [BoundaryMismatch fname token (tb_text tb)])
      | None => find_label offset_label start token os'
      end
  end.

(** The tag written back at line 224. *)
Definition bio_tag (prev_label label : option string) (tag : string) : string :=
  match label with
  | Some lab => if decide (Some lab = prev_label) then "I-" +:+ lab else "B-" +:+ lab
  | None => tag
  end.

(** [for i, l in enumerate(lines)], threading [prev_label]. *)
Fixpoint relabel_lines (offset_label : gmap Z Textbound)
    (prev_label : option string) (lines : list line)
  : list line * list warning :=
  match lines with
  | [] => ([], [])
  | Blank :: rest =>
      let r := relabel_lines offset_label None rest in
      (Blank :: r.1, r.2)
  | Tok tag start end_ token :: rest =>
      let found := find_label offset_label start token (range start end_) in
      let r := relabel_lines offset_label found.1 rest in
      (Tok (bio_tag prev_label found.1 tag) start end_ token :: r.1,
       found.2 ++ r.2)
  end.

(** [l[0] = l[0][:2] + options.singleclass] for the records that carry a tag
    other than ['O']. *)
Definition collapse_tag (c tag : string) : string :=
  if String.eqb tag "O" then tag else String.substring 0 2 tag +:+ c.

Definition collapse (c : string) (l : line) : line :=
  match l with
  | Blank => Blank
  | Tok tag start end_ token => Tok (collapse_tag c tag) start end_ token
  end.

(** [if options.singleclass:] holds for a string that is not empty. *)
Definition single_classing (opts : options) (lines : list line) : list line :=
  match singleclass opts with
  | Some c => if decide (c = "") then lines else collapse c <$> lines
  | None => lines
  end.

Definition relabel (opts : options) (lines : list line)
    (annotations : list Textbound) : list line * list warning :=
  let ol := build_offset_label annotations in
  let r := relabel_lines ol.1 None lines in
  (single_classing opts r.1, ol.2 ++ r.2).

End Relabel.

(** The tag that the optional pass leaves on a token whose tag was [tag]. *)
Definition final_tag (opts : options) (tag : string) : string :=
  match singleclass opts with
  | Some c => if decide (c = "") then tag else collapse_tag c tag
  | None => tag
  end.

(** The type written in the tag of a token that the span [tb] labels: the
    single class when one is configured, the type of the span otherwise. *)
Definition assigned_type (opts : options) (tb : Textbound) : string :=
  match singleclass opts with
  | Some c => if decide (c = "") then tb_type tb else c
  | None => tb_type tb
  end.

(** *** Vocabulary of the claims on [relabel] *)

(** A span claims the offsets of [range(start, end)]. *)
Definition covers (o : Z) (tb : Textbound) : Prop :=
  tb_start tb ≤ o < tb_end tb.

Global Instance covers_dec (o : Z) (tb : Textbound) : Decision (covers o tb).
Proof. unfold covers. apply _. Defined.

(** The span that owns offset [o] once every span has claimed its range:
    the last one of the list to cover [o] (the only one when the spans do
    not overlap). *)
Definition claimant (annotations : list Textbound) (o : Z) : option Textbound :=
  last (filter (covers o) annotations).

(** Reading of a tag of the BIO scheme. *)
Inductive bio : Type :=
  | TagO
  | TagB (ty : string)
  | TagI (ty : string)
  | TagOther.

Definition decode_tag (tag : string) : bio :=
  match tag with
  | String "O" EmptyString => TagO
  | String "B" (String "-" ty) => TagB ty
  | String "I" (String "-" ty) => TagI ty
  | _ => TagOther
  end.

(** BIO consistency of a token list.  [prev] is the type of the token just
    before in the same sentence, when there is one and it is not ['O'].  An
    [I-ty] needs [prev = ty]; a [B-ty] needs [prev <> ty], so that a run of
    one type holds a single [B-]. *)
Fixpoint bio_consistent_from (prev : option string) (lines : list line) : bool :=
  match lines with
  | [] => true
  | Blank :: rest => bio_consistent_from None rest
  | Tok tag _ _ _ :: rest =>
      match decode_tag tag with
      | TagO => bio_consistent_from None rest
      | TagB ty =>
          negb (bool_decide (prev = Some ty)) && bio_consistent_from (Some ty) rest
      | TagI ty =>
          bool_decide (prev = Some ty) && bio_consistent_from (Some ty) rest
      | TagOther => false
      end
  end.

Definition bio_consistent (lines : list line) : bool :=
  bio_consistent_from None lines.

(** The type that a record carries: none for a sentence boundary and for
    ['O']. *)
Definition tag_type (l : line) : option string :=
  match l with
  | Blank => None
  | Tok tag _ _ _ =>
      match decode_tag tag with
      | TagB ty | TagI ty => Some ty
      | _ => None
      end
  end.

(** The type carried just before index [i]: that of the record at [i - 1],
    and [first] at the start of the list. *)
Definition type_before (first : option string) (lines : list line) (i : nat)
  : option string :=
  match i with
  | O => first
  | S j => lines !! j ≫= tag_type
  end.

(** The weaker reading: every run begins with a [B-], further [B-] of the
    same type may follow. *)
Fixpoint bio_begins_from (prev : option string) (lines : list line) : bool :=
  match lines with
  | [] => true
  | Blank :: rest => bio_begins_from None rest
  | Tok tag _ _ _ :: rest =>
      match decode_tag tag with
      | TagO => bio_begins_from None rest
      | TagB ty => bio_begins_from (Some ty) rest
      | TagI ty =>
          bool_decide (prev = Some ty) && bio_begins_from (Some ty) rest
      | TagOther => false
      end
  end.

Definition bio_begins (lines : list line) : bool :=
  bio_begins_from None lines.

(** The placeholders that [text_to_conll] hands to [relabel] carry ['O']. *)
Definition placeholder (l : line) : Prop :=
  match l with
  | Blank => True
  | Tok tag _ _ _ => tag = "O"
  end.

(** Whether the single-class pass runs. *)
Definition single_class_on (opts : options) : bool :=
  match singleclass opts with
  | Some c => negb (bool_decide (c = ""))
  | None => false
  end.

(** Two records that differ at most in their tag. *)
Definition same_frame (l l' : line) : Prop :=
  match l, l' with
  | Blank, Blank => True
  | Tok _ s e t, Tok _ s' e' t' => s = s' ∧ e = e' ∧ t = t'
  | _, _ => False
  end.

(** ** Strings *)

Definition tab : ascii := "009"%char.
Definition newline : ascii := "010"%char.
Definition space : ascii := " "%char.

(** [str.isspace] on one character, which is also the class [\s] of [re]
    on [str] patterns: for the code points below 256 these are 9..13,
    28..32, 133 and 160. *)
Definition is_space (c : ascii) : bool :=
  let n := nat_of_ascii c in
  ((9 <=? n) && (n <=? 13) || (28 <=? n) && (n <=? 32) ||
   (n =? 133) || (n =? 160))%nat.

Fixpoint all_space (s : string) : bool :=
  match s with
  | EmptyString => true
  | String c s' => is_space c && all_space s'
  end.

(** [EMPTY_LINE_RE = re.compile(r'^\s*$')], as used with [match]: the
    pattern matches exactly the strings made of white space only. *)
Definition EMPTY_LINE (l : string) : bool := all_space l.

(** [s.split(sep)] for a separator of one character. *)
Fixpoint split_on (sep : ascii) (s : string) : list string :=
  match s with
  | EmptyString => [EmptyString]
  | String c s' =>
      if decide (c = sep) then EmptyString :: split_on sep s'
      else match split_on sep s' with
           | f :: fs => String c f :: fs
           | [] => [String c EmptyString]
           end
  end.

(** [sep.join(fields)]. *)
Definition join (sep : ascii) (fields : list string) : string :=
  String.concat (String sep EmptyString) fields.

(** ** Labels of CoNLL lines: [strip_labels] and [attach_labels] *)

(** What [strip_labels] keeps of a line that is not empty:
    ['\t'.join(fields[1:])]. *)
Definition remainder (l : string) : string :=
  join tab (tail (split_on tab l)).

Definition strip_label (l : string) : option string * string :=
  if EMPTY_LINE l then (None, l)
  else (head (split_on tab l), remainder l).

Definition strip_labels (lines : list string) : list (option string) * list string :=
  (fst <$> (strip_label <$> lines), snd <$> (strip_label <$> lines)).

(** The loop of [attach_labels] over [zip(labels, lines)], with its
    assertion. *)
Fixpoint attach_loop (labels : list (option string)) (lines : list string)
  : result (list string) :=
  match labels, lines with
  | label :: labels', line :: lines' =>
      let empty := EMPTY_LINE line in
      match label with
      | None =>
          if empty then attached ← attach_loop labels' lines'; mret (line :: attached)
          else Raise AssertionError
      | Some lab =>
          if empty then Raise AssertionError
          else attached ← attach_loop labels' lines';
               mret ((lab +:+ String tab line) :: attached)
      end
  | _, _ => Return []
  end.

Definition attach_labels (labels : list (option string)) (lines : list string)
  : result (list string) :=
  if decide (length labels = length lines) then attach_loop labels lines
  else Raise AssertionError.

(** A line has a TAB.  *)
Definition has_tab (l : string) : bool :=
  bool_decide (2 ≤ length (split_on tab l))%nat.

(** ** Standoff annotations: [parse_textbounds] *)

Definition is_digit (c : ascii) : bool :=
  let n := nat_of_ascii c in ((48 <=? n) && (n <=? 57))%nat.

Definition digit_value (c : ascii) : Z := Z.of_nat (nat_of_ascii c) - 48.

(** [s.rstrip(chars)] and [s.lstrip(chars)], for a class of characters. *)
Fixpoint rstrip_by (p : ascii → bool) (s : string) : string :=
  match s with
  | EmptyString => EmptyString
  | String c s' =>
      match rstrip_by p s' with
      | EmptyString => if p c then EmptyString else String c EmptyString
      | r => String c r
      end
  end.

Fixpoint lstrip_by (p : ascii → bool) (s : string) : string :=
  match s with
  | EmptyString => EmptyString
  | String c s' => if p c then lstrip_by p s' else s
  end.

(** [s.strip()]. *)
Definition strip (s : string) : string := lstrip_by is_space (rstrip_by is_space s).

(** [s.split()]: the maximal runs of characters that are not white space. *)
Fixpoint split_ws (s : string) : list string :=
  match s with
  | EmptyString => []
  | String c s' =>
      if is_space c then split_ws s'
      else match s' with
           | EmptyString => [String c EmptyString]
           | String c' _ =>
               if is_space c' then String c EmptyString :: split_ws s'
               else match split_ws s' with
                    | f :: fs => String c f :: fs
                    | [] => [String c EmptyString]
                    end
           end
  end.

(** Digits of an [int] literal: decimal digits, with single underscores
    between digits.  [seen] tells whether the last character was a digit. *)
Fixpoint int_digits (acc : Z) (seen : bool) (s : string) : option Z :=
  match s with
  | EmptyString => if seen then Some acc else None
  | String c s' =>
      if is_digit c then int_digits (10 * acc + digit_value c) true s'
      else if decide (c = "_"%char)
           then (if seen then int_digits acc false s' else None)
           else None
  end.

(** [int(s)] for a [str]: [None] stands for the [ValueError]. *)
Definition py_int (s : string) : option Z :=
  match strip s with
  | String "+" r => int_digits 0 false r
  | String "-" r => Z.opp <$> int_digits 0 false r
  | r => int_digits 0 false r
  end.

(** The text after a run of digits. *)
Fixpoint skip_digits (s : string) : string :=
  match s with
  | String c s' => if is_digit c then skip_digits s' else s
  | EmptyString => EmptyString
  end.

(** A given letter, one digit or more, a TAB: [^T\d+\t] and [^A\d+\t]. *)
Definition id_prefix (letter : ascii) (l : string) : bool :=
  match l with
  | String c (String d r) =>
      bool_decide (c = letter) && is_digit d &&
      match skip_digits r with
      | String t _ => bool_decide (t = tab)
      | EmptyString => false
      end
  | _ => false
  end.

Definition TEXTBOUND_LINE (l : string) : bool := id_prefix "T" l.
Definition ATTRIBUTE_LINE (l : string) : bool := id_prefix "A" l.

(** A [dict] in insertion order: assigning to a key that is present keeps
    its place. *)
Fixpoint dict_set {V : Type} (k : string) (v : V) (d : list (string * V))
  : list (string * V) :=
  match d with
  | [] => [(k, v)]
  | (k', v') :: d' =>
      if decide (k = k') then (k, v) :: d' else (k', v') :: dict_set k v d'
  end.

Fixpoint dict_get {V : Type} (k : string) (d : list (string * V)) : option V :=
  match d with
  | [] => None
  | (k', v') :: d' => if decide (k = k') then Some v' else dict_get k d'
  end.

(** A value of [mapping]: [(start, end, [type_, ...], text)]. *)
Definition entity : Type := Z * Z * list string * string.

Definition parse_state : Type := list (string * entity) * list (string * string).

(** [l.rstrip('\n')]. *)
Definition rstrip_newline (l : string) : string :=
  rstrip_by (fun c => bool_decide (c = newline)) l.

(** One turn of [for l in f]. *)
Definition parse_line (st : parse_state) (l0 : string) : result parse_state :=
  let l := rstrip_newline l0 in
  if negb (TEXTBOUND_LINE l) then
    if ATTRIBUTE_LINE l then
      match split_on tab l with
      | [_; att_tid] =>
          match split_on space att_tid with
          | [att; tid] => Return (st.1, st.2 ++ [(tid, att)])
          | _ => Raise ValueError
          end
      | _ => Raise ValueError
      end
    else Return st
  else
    match split_on tab l with
    | [id_; type_offsets; text] =>
        match split_ws type_offsets with
        | [type_; start; end_] =>
            match py_int start with
            | Some s =>
                match py_int end_ with
                | Some e => Return (dict_set id_ (s, e, [type_], text) st.1, st.2)
                | None => Raise ValueError
                end
            | None => Raise ValueError
            end
        | _ => Raise ValueError
        end
    | _ => Raise ValueError
    end.

Fixpoint parse_lines (st : parse_state) (f : list string) : result parse_state :=
  match f with
  | [] => Return st
  | l :: f' => st' ← parse_line st l; parse_lines st' f'
  end.

(** Order of the tuples [(tid, att)]: by [tid], then by [att]. *)
Definition attribute_le (x y : string * string) : Prop :=
  match String.compare x.1 y.1 with
  | Lt => True
  | Eq => String.leb x.2 y.2 = true
  | Gt => False
  end.

Global Instance attribute_le_dec (x y : string * string) :
  Decision (attribute_le x y).
Proof. unfold attribute_le. destruct (String.compare x.1 y.1); apply _. Defined.

(** [mapping[tid][2].append(att)]. *)
Definition append_attribute (mapping : list (string * entity))
    (a : string * string) : result (list (string * entity)) :=
  match dict_get a.1 mapping with
  | Some (s, e, types, text) => Return (dict_set a.1 (s, e, types ++ [a.2], text) mapping)
  | None => Raise KeyError
  end.

Fixpoint append_attributes (mapping : list (string * entity))
    (sorted : list (string * string)) : result (list (string * entity)) :=
  match sorted with
  | [] => Return mapping
  | a :: rest => m ← append_attribute mapping a; append_attributes m rest
  end.

Definition to_textbound (v : string * entity) : Textbound :=
  let '(_, (s, e, types, text)) := v in
  mkTextbound s e (String.concat "-" types) text.

(** [if options.attributes: for tid, att in sorted(attributes): ...]. *)
Definition fold_attributes (opts : options) (st : parse_state)
  : result (list (string * entity)) :=
  if attributes opts
  then append_attributes st.1 (merge_sort attribute_le st.2)
  else Return st.1.

Definition parse_textbounds (opts : options) (f : list string)
  : result (list Textbound) :=
  match parse_lines ([], []) f with
  | Return st =>
      match fold_attributes opts st with
      | Return mapping => Return (to_textbound <$> mapping)
      | Raise e => Raise e
      end
  | Raise e => Raise e
  end.

(** A textbound line that does not split into three fields at the TABs, or
    whose second field is not a type and two [int] literals. *)
Definition malformed (l : string) : Prop :=
  match split_on tab l with
  | [_; type_offsets; _] =>
      match split_ws type_offsets with
      | [_; start; end_] => py_int start = None ∨ py_int end_ = None
      | _ => True
      end
  | _ => True
  end.

(** The attribute that an attribute line records. *)
Definition attribute_of (l : string) : option (string * string) :=
  match split_on tab l with
  | [_; att_tid] =>
      match split_on space att_tid with
      | [att; tid] => Some (tid, att)
      | _ => None
      end
  | _ => None
  end.

(** ** Tokenization: the first part of [text_to_conll] *)

Definition is_alnum (c : ascii) : bool :=
  let n := nat_of_ascii c in
  ((48 <=? n) && (n <=? 57) || (65 <=? n) && (n <=? 90) ||
   (97 <=? n) && (n <=? 122))%nat.

(** The longest prefix made of characters of a class, and what follows. *)
Fixpoint span (p : ascii → bool) (s : string) : string * string :=
  match s with
  | EmptyString => (EmptyString, EmptyString)
  | String c s' =>
      if p c then (String c (span p s').1, (span p s').2)
      else (EmptyString, s)
  end.

(** A pattern, seen from one position of the text: the text it matches
    there and the text that follows, when it matches. *)
Definition matcher : Type := string → option (string * string).

(** [([0-9a-zA-Z]+|[^0-9a-zA-Z])]. *)
Definition TOKENIZATION_REGEX : matcher := fun s =>
  match s with
  | EmptyString => None
  | String c s' =>
      if is_alnum c then Some (span is_alnum s)
      else Some (String c EmptyString, s')
  end.

(** [\S+|\s+]. *)
Definition PRETOKENIZED_REGEX : matcher := fun s =>
  match s with
  | EmptyString => None
  | String c _ =>
      if is_space c then Some (span is_space s)
      else Some (span (fun c => negb (is_space c)) s)
  end.

(** [(.*?\n)]: up to the next newline and with it, when there is one. *)
Fixpoint NEWLINE_TERM_REGEX (s : string) : option (string * string) :=
  match s with
  | EmptyString => None
  | String c s' =>
      if decide (c = newline) then Some (String c EmptyString, s')
      else match NEWLINE_TERM_REGEX s' with
           | Some (m, rest) => Some (String c m, rest)
           | None => None
           end
  end.

(** [pattern.split(s)] for a pattern that is one group: the texts between
    the matches alternate with the matches.  [gap] is the text passed over
    since the last match; the scan needs one unit of [fuel] per character. *)
Fixpoint re_split_from (m : matcher) (fuel : nat) (gap s : string) : list string :=
  match s with
  | EmptyString => [gap]
  | String c s' =>
      match fuel with
      | O => []
      | S fuel' =>
          match m s with
          | Some (tok, rest) => gap :: tok :: re_split_from m fuel' EmptyString rest
          | None => re_split_from m fuel' (gap +:+ String c EmptyString) s'
          end
      end
  end.

Definition re_split (m : matcher) (s : string) : list string :=
  re_split_from m (String.length s) EmptyString s.

(** [pattern.findall(s)] for a pattern without group. *)
Fixpoint re_findall_from (m : matcher) (fuel : nat) (s : string) : list string :=
  match s with
  | EmptyString => []
  | String c s' =>
      match fuel with
      | O => []
      | S fuel' =>
          match m s with
          | Some (tok, rest) => tok :: re_findall_from m fuel' rest
          | None => re_findall_from m fuel' s'
          end
      end
  end.

Definition re_findall (m : matcher) (s : string) : list string :=
  re_findall_from m (String.length s) s.

(** [[t for t in ... if t]]. *)
Definition nonempty (l : list string) : list string :=
  filter (fun t => t ≠ EmptyString) l.

(** [if tokenized: sentences.append(tokenized)]. *)
Definition append_if_any (sentences : list (list string)) (tokenized : list string)
  : list (list string) :=
  match tokenized with
  | [] => sentences
  | _ => sentences ++ [tokenized]
  end.

(** A token of the [syntok] library. *)
Record syntok_token : Type := mkToken {
  spacing : string;
  value : string
}.

Definition token_strings (t : syntok_token) : list string :=
  nonempty [spacing t; value t].

Section Tokenization.

(** The sentence splitter of [sentencesplit.py] and the segmenter of the
    [syntok] library are not part of the modelled files. *)
Variable sentencebreaks_to_newlines : string → string.
Variable analyze : string → list (list (list syntok_token)).

(** [options.preprocess == 'none']. *)
Definition sentences_none (f : list string) : list (list string) :=
  foldl (fun sentences line =>
           append_if_any sentences (nonempty (re_findall PRETOKENIZED_REGEX line)))
        [] f.

(** [options.preprocess == 'regex']. *)
Definition sentences_regex (f : list string) : list (list string) :=
  foldl (fun sentences line =>
           foldl (fun sentences s =>
                    append_if_any sentences
                      (nonempty (re_split TOKENIZATION_REGEX s)))
                 sentences
                 (re_split NEWLINE_TERM_REGEX (sentencebreaks_to_newlines line)))
        [] f.

(** [options.preprocess == 'syntok'], on [document = f.read()]. *)
Definition sentences_syntok (f : list string) : list (list string) :=
  foldl (fun sentences paragraph =>
           foldl (fun sentences sentence =>
                    append_if_any sentences (sentence ≫= token_strings))
                 sentences paragraph
           ++ [[String newline EmptyString]])
        [] (analyze (String.concat "" f)).

Definition sentences (opts : options) (f : list string) : list (list string) :=
  match preprocess opts with
  | PreNone => sentences_none f
  | PreRegex => sentences_regex f
  | PreSyntok => sentences_syntok f
  end.

End Tokenization.

(** [t.isspace()]. *)
Definition isspace (t : string) : bool :=
  negb (bool_decide (t = EmptyString)) && all_space t.

(** The second part of [text_to_conll]: one record per token that is not
    white space, one empty record after each sentence that has such a
    token. *)
Fixpoint sentence_lines (offset : Z) (seen : bool) (tokenized : list string)
  : list line * Z * bool :=
  match tokenized with
  | [] => ([], offset, seen)
  | t :: rest =>
      let len := Z.of_nat (String.length t) in
      if isspace t then sentence_lines (offset + len) seen rest
      else let r := sentence_lines (offset + len) true rest in
           (Tok "O" offset (offset + len) t :: r.1.1, r.1.2, r.2)
  end.

Fixpoint token_lines (offset : Z) (sentences : list (list string)) : list line :=
  match sentences with
  | [] => []
  | tokenized :: rest =>
      let r := sentence_lines offset false tokenized in
      r.1.1 ++ (if r.2 then [Blank] else []) ++ token_lines r.1.2 rest
  end.

(** All the tokens, in order. *)
Definition tokens_text (sentences : list (list string)) : string :=
  String.concat "" (concat sentences).

(** ** From CoNLL columns to standoff: [main] of [conllpos_to_standoff.py] *)

(** A token row of [readconll]: [[lineno] + line.strip().split()], so that
    [conlltok[k]] for [k >= 1] is the column [k - 1] of the line. *)
Record conlltok : Type := mkConlltok {
  lineno : nat;
  columns : list string
}.

(** The record that [tokstr] formats as ['T%d\t%s %d %d\t%s']. *)
Record ann_record : Type := mkAnn {
  ann_id : Z;
  ann_type : string;
  ann_start : Z;
  ann_end : Z;
  ann_text : string
}.

(** What was printed to the [.ann] and to the [.txt] file of a segment. *)
Definition segment : Type := list ann_record * list string.

Fixpoint contains (c : ascii) (s : string) : bool :=
  match s with
  | EmptyString => false
  | String c' s' => bool_decide (c' = c) || contains c s'
  end.

(** [tokstr], with its two sanity checks. *)
Definition tokstr (start end_ : Z) (ttype : string) (idnum : Z) (text : string)
  : result ann_record :=
  if contains newline text then Raise ValueError
  else if negb (String.eqb text (strip text)) then Raise ValueError
  else Return (mkAnn idnum ttype start end_ text).

(** [pos[:pos.index('[')]]: the text before the first bracket, [None] for
    the [ValueError] of [index]. *)
Fixpoint before_bracket (pos : string) : option string :=
  match pos with
  | EmptyString => None
  | String c s' =>
      if decide (c = "["%char) then Some EmptyString
      else String c <$> before_bracket s'
  end.

(** [s.replace(old, new, 1)] for single characters. *)
Fixpoint replace_first (old new : ascii) (s : string) : string :=
  match s with
  | EmptyString => EmptyString
  | String c s' =>
      if decide (c = old) then String new s' else String c (replace_first old new s')
  end.

(** One turn of the inner loop, for [conlltok]. *)
Definition token_record (idnum offset : Z) (tok : conlltok) : result ann_record :=
  match columns tok !! 4%nat with
  | None => Raise IndexError
  | Some pos5 =>
      match before_bracket pos5 with
      | None => Raise ValueError
      | Some pos =>
          match columns tok !! 3%nat with
          | None => Raise IndexError
          | Some text =>
              tokstr offset (offset + Z.of_nat (String.length text)) pos idnum text
          end
      end
  end.

(** [for conlltok, tok in zip(conllsent, toksent[1:])], returning the
    records printed and the new [idnum] and [offset]. *)
Fixpoint sentence_loop (idnum offset : Z) (conllsent : list conlltok)
    (toks : list string) : result (list ann_record * Z * Z) :=
  match conllsent, toks with
  | conlltok :: conllsent', _ :: toks' =>
      match token_record idnum offset conlltok with
      | Raise e => Raise e
      | Return record =>
          match sentence_loop (idnum + 1)
                  (offset + Z.of_nat (String.length (ann_text record)) + 1)
                  conllsent' toks' with
          | Raise e => Raise e
          | Return (records, idnum', offset') =>
              Return (record :: records, idnum', offset')
          end
      end
  | _, _ => Return ([], idnum, offset)
  end.

(** [' '.join(toksent).replace(' ', '|', 1)]. *)
Definition txt_line (toksent : list string) : string :=
  replace_first space "|" (join space toksent).

(** [for conllsent, toksent in zip(conlldata, tokenized)].  [ann] and [txt]
    are what the open pair of files holds; the result lists the pairs of
    files in the order of their segment numbers. *)
Fixpoint document_loop (ann : list ann_record) (txt : list string)
    (idnum offset : Z) (conlldata : list (list conlltok))
    (tokenized : list (list string)) : result (list segment) :=
  match conlldata, tokenized with
  | conllsent :: conlldata', toksent :: tokenized' =>
      if decide (length conllsent ≠ length (tail toksent)) then Raise ValueError
      else
        match head toksent with
        | None => Raise IndexError
        | Some key =>
            match sentence_loop idnum (offset + Z.of_nat (String.length key) + 1)
                    conllsent (tail toksent) with
            | Raise e => Raise e
            | Return (records, idnum', offset') =>
                if 1000 <=? idnum'
                then match document_loop [] [] 1 0 conlldata' tokenized' with
                     | Raise e => Raise e
                     | Return segments =>
                         Return ((ann ++ records, txt ++ [txt_line toksent])
                                   :: segments)
                     end
                else document_loop (ann ++ records) (txt ++ [txt_line toksent])
                       idnum' offset' conlldata' tokenized'
            end
        end
  | _, _ => Return [(ann, txt)]
  end.

(** The body of [main] for one document, once both inputs are read. *)
Definition convert (conlldata : list (list conlltok))
    (tokenized : list (list string)) : result (list segment) :=
  if decide (length conlldata ≠ length tokenized) then Raise ValueError
  else document_loop [] [] 1 0 conlldata tokenized.

(** Number of tokens of a document. *)
Definition token_count (conlldata : list (list conlltok)) : Z :=
  Z.of_nat (length (concat conlldata)).

Definition segment_ids (seg : segment) : list Z := ann_id <$> seg.1.

(** The identifiers of a segment are 1, 2, 3, ... in order. *)
Definition well_numbered (seg : segment) : Prop :=
  segment_ids seg = seqZ 1 (Z.of_nat (length seg.1)).

Definition returned {A : Type} (r : result (list A)) : list A :=
  match r with
  | Return a => a
  | Raise _ => []
  end.

(** Sample documents of 1001 tokens: one token per sentence, one sentence
    with all the tokens, and two tokens per sentence with a last sentence of
    one. *)
Definition sample_tok : conlltok :=
  mkConlltok 1 ["doc"; "0"; "0"; "word"; "NN[x"].

Definition doc_singles : list (list conlltok) * list (list string) :=
  (replicate 1001 [sample_tok], replicate 1001 ["key"; "word"]).

Definition doc_one_sentence : list (list conlltok) * list (list string) :=
  ([replicate 1001 sample_tok], ["key" :: replicate 1001 "word"]).

Definition doc_pairs : list (list conlltok) * list (list string) :=
  (replicate 500 [sample_tok; sample_tok] ++ [[sample_tok]],
   replicate 500 ["key"; "word"; "word"] ++ [["key"; "word"]]).

(** ** Well-formed matchers and sample inputs *)

(** A matcher splits the text where it stands and takes at least one
    character. *)
Definition matcher_ok (m : matcher) : Prop :=
  ∀ s tok rest, m s = Some (tok, rest) → s = tok +:+ rest ∧ tok ≠ "".

(** A matcher that matches wherever some text is left. *)
Definition matcher_total (m : matcher) : Prop :=
  ∀ c s, is_Some (m (String c s)).

Definition no_options : options := mkOptions None false PreRegex.

Definition single_class_X : options := mkOptions (Some "X") false PreRegex.

Definition with_attributes : options := mkOptions None true PreRegex.


(** The example of the specification: ["John ran."] with one [PERSON] span
    over [John]. *)
Definition john_lines : list line :=
  [Tok "O" 0 4 "John"; Tok "O" 5 8 "ran"; Tok "O" 8 9 "."; Blank].

Definition john_spans : list Textbound := [mkTextbound 0 4 "PERSON" "John"].

(** Two neighbouring spans of different types, relabelled with the single
    class [X]. *)
Definition two_types_lines : list line :=
  [Tok "O" 0 1 "a"; Tok "O" 2 3 "b"; Blank].

Definition two_types_spans : list Textbound :=
  [mkTextbound 0 1 "A" "a"; mkTextbound 2 3 "B" "b"].

Definition conll_lines : list string :=
  ["B-PERSON" +:+ String tab ("0" +:+ String tab ("4" +:+ String tab "John"));
   String newline EmptyString].

Definition two_field_line : string :=
  "T1" +:+ String tab ("PERSON 0 4" +:+ String newline "").

Definition john_ann : string :=
  "T1" +:+ String tab ("PERSON 0 4" +:+ String tab ("John" +:+ String newline "")).

Definition stray_attribute : string :=
  "A1" +:+ String tab ("Negation T9" +:+ String newline "").

Definition apart_heap (n : nat) : Textbound :=
  match n with
  | O => mkTextbound 0 4 "A" "John"
  | _ => mkTextbound 5 8 "B" "ran"
  end.

(** ** [get_annotations]: parsing, then overlap resolution *)

(** The list that [parse_textbounds] returns holds one new tuple per entry
    of [mapping]: its references are the positions of the list. *)
Definition heap_of (textbounds : list Textbound) (i : nat) : Textbound :=
  default (mkTextbound 0 0 "" "") (textbounds !! i).

(** [get_annotations], reading the lines [f] of the annotation file. *)
Definition get_annotations (opts : options) (f : list string)
  : result (list Textbound * list warning) :=
  match parse_textbounds opts f with
  | Return textbounds =>
      let r := eliminate_overlaps (heap_of textbounds) (seq 0 (length textbounds)) in
      Return (heap_of textbounds <$> r.1, r.2)
  | Raise e => Raise e
  end.

(** Two spans at different places of a list claim a common offset. *)
Definition claimed_twice (annotations : list Textbound) : Prop :=
  ∃ (i j : nat) a b o,
    (i < j)%nat ∧ annotations !! i = Some a ∧ annotations !! j = Some b ∧
    covers o a ∧ covers o b.

(** How the tag of a record under a single class [c] relates to its tag
    without: ['O'] stays, [B-] and [I-] keep their prefix and take [c]. *)
Definition collapsed_to (c : string) (l l' : line) : Prop :=
  match l, l' with
  | Blank, Blank => True
  | Tok tag s e t, Tok tag' s' e' t' =>
      s = s' ∧ e = e' ∧ t = t' ∧
      ((tag = "O" ∧ tag' = "O") ∨
       (∃ ty, tag = "B-" +:+ ty ∧ tag' = "B-" +:+ c) ∨
       (∃ ty, tag = "I-" +:+ ty ∧ tag' = "I-" +:+ c))
  | _, _ => False
  end.

Definition john_annotation_file : list string :=
  ["T1" +:+ String tab ("PERSON 0 4" +:+ String tab ("John" +:+ String newline ""));
   "T2" +:+ String tab ("NAME 0 2" +:+ String tab ("Jo" +:+ String newline ""))].

(** *** Shape of the tokens *)

Definition starts_with (p : ascii → bool) (s : string) : bool :=
  match s with
  | EmptyString => false
  | String c _ => p c
  end.

Fixpoint all_chars (p : ascii → bool) (s : string) : bool :=
  match s with
  | EmptyString => true
  | String c s' => p c && all_chars p s'
  end.

(** A token of the NERsuite tokenization: [Some true] for a run of
    alphanumeric characters, [Some false] for one other character. *)
Definition nersuite_kind (t : string) : option bool :=
  match t with
  | EmptyString => None
  | String c EmptyString => Some (is_alnum c)
  | _ => if all_chars is_alnum t then Some true else None
  end.

(** Every token is of one of the two kinds, and no alphanumeric run comes
    right after another ([prev] tells whether the token before was one). *)
Fixpoint nersuite_tokens (prev : bool) (tokens : list string) : bool :=
  match tokens with
  | [] => true
  | t :: rest =>
      match nersuite_kind t with
      | Some true => negb prev && nersuite_tokens true rest
      | Some false => nersuite_tokens false rest
      | None => false
      end
  end.

(** A token of pre-tokenized text: [Some true] for a run of white space,
    [Some false] for a run without white space. *)
Definition pretokenized_kind (t : string) : option bool :=
  match t with
  | EmptyString => None
  | _ => if all_chars is_space t then Some true
         else if all_chars (fun c => negb (is_space c)) t then Some false
         else None
  end.

(** Every token is of one of the two kinds, and the kinds alternate. *)
Fixpoint alternating_tokens (prev : option bool) (tokens : list string) : bool :=
  match tokens with
  | [] => true
  | t :: rest =>
      match pretokenized_kind t with
      | Some k => negb (bool_decide (prev = Some k)) && alternating_tokens (Some k) rest
      | None => false
      end
  end.

(** ** [read_sentence] *)

(** [CONLL_LINE_RE = re.compile(r'^\S+\t\d+\t\d+.')], as used with
    [search]: characters that are not white space, a TAB, digits, a TAB,
    digits and one character that is not a newline.  That last character
    may be the last of the digits when there are two digits or more. *)
Definition CONLL_LINE (l : string) : bool :=
  let label := span (fun c => negb (is_space c)) l in
  negb (bool_decide (label.1 = EmptyString)) &&
  match label.2 with
  | String t1 r1 =>
      bool_decide (t1 = tab) &&
      let first := span is_digit r1 in
      negb (bool_decide (first.1 = EmptyString)) &&
      match first.2 with
      | String t2 r2 =>
          bool_decide (t2 = tab) &&
          let second := span is_digit r2 in
          negb (bool_decide (second.1 = EmptyString)) &&
          (match second.2 with
           | String c _ => negb (bool_decide (c = newline))
           | EmptyString => false
           end
           || bool_decide (2 ≤ String.length second.1)%nat)
      | EmptyString => false
      end
  | EmptyString => false
  end.

(** [read_sentence], on the lines that the file has left: the lines of the
    sentence, and the lines left after it. *)
Fixpoint read_sentence (f : list string) : result (list string * list string) :=
  match f with
  | [] => Return ([], [])
  | l :: f' =>
      if EMPTY_LINE l then Return ([l], f')
      else if negb (CONLL_LINE l) then Raise FormatError
      else match read_sentence f' with
           | Return (lines, rest) => Return (l :: lines, rest)
           | Raise e => Raise e
           end
  end.

(** A line of a file in CoNLL format, as [read_sentence] accepts it: an
    empty line, or a line that [CONLL_LINE_RE] matches. *)
Definition conll_format (l : string) : bool := EMPTY_LINE l || CONLL_LINE l.

(** A label without TAB, or no label. *)
Definition tab_free (label : option string) : Prop :=
  match label with
  | Some lab => contains tab lab = false
  | None => True
  end.

Definition conll_file : list string :=
  ["B-PERSON" +:+ String tab ("0" +:+ String tab ("4" +:+ String tab ("John" +:+ String newline "")));
   "O" +:+ String tab ("5" +:+ String tab ("8" +:+ String tab ("ran" +:+ String newline "")));
   String newline EmptyString;
   "O" +:+ String tab ("9" +:+ String tab ("11" +:+ String tab ("It" +:+ String newline "")))].

(** *** Vocabulary of the properties of [parse_textbounds] *)

(** The attributes of the entity [id], in the order of the list. *)
Definition attributes_of (id : string) (attrs : list (string * string))
  : list string :=
  snd <$> filter (fun a => a.1 = id) attrs.

(** An entry of [mapping] with the attributes of [attrs] appended to its
    types. *)
Definition with_attributes_of (attrs : list (string * string))
    (v : string * entity) : string * entity :=
  let '(id, (s, e, types, text)) := v in
  (id, (s, e, types ++ attributes_of id attrs, text)).

Definition negated_file : list string :=
  ["T1" +:+ String tab ("PERSON 0 4" +:+ String tab ("John" +:+ String newline ""));
   "A2" +:+ String tab ("Speculation T1" +:+ String newline "");
   "R1" +:+ String tab ("Knows Arg1:T1 Arg2:T1" +:+ String newline "");
   "A1" +:+ String tab ("Negation T1" +:+ String newline "")].

(** *** Vocabulary of the properties of the converter *)

(** What [print(..., file=out2)] has written to a [.txt] file. *)
Definition txt_content (lines : list string) : string :=
  String.concat "" ((fun l => l +:+ String newline "") <$> lines).

(** The words of the CoNLL sentence (column 3 of each row, [conlltok[4]])
    are the tokens of the line of the tokenized file. *)
Definition words_match (conllsent : list conlltok) (toksent : list string) : Prop :=
  Forall2 (fun tok t => columns tok !! 3%nat = Some t) conllsent (tail toksent).

(** The offsets of a record are those of its text in [content]:
    [content[start:end]] is the text. *)
Definition sliced (content : string) (r : ann_record) : Prop :=
  0 ≤ ann_start r ∧
  ann_end r = ann_start r + Z.of_nat (String.length (ann_text r)) ∧
  String.substring (Z.to_nat (ann_start r)) (Z.to_nat (ann_end r - ann_start r))
    content = ann_text r.

(** The same, by the text before and the text after. *)
Definition located (content : string) (r : ann_record) : Prop :=
  ∃ pre post,
    content = pre +:+ ann_text r +:+ post ∧
    ann_start r = Z.of_nat (String.length pre) ∧
    ann_end r = ann_start r + Z.of_nat (String.length (ann_text r)).

Definition two_sentences : list (list conlltok) * list (list string) :=
  ([[mkConlltok 2 ["doc"; "0"; "0"; "John"; "NNP[x"];
     mkConlltok 3 ["doc"; "0"; "1"; "ran"; "VBD[x"]];
    [mkConlltok 5 ["doc"; "0"; "0"; "Stop"; "VB[x"]]],
   [["s1"; "John"; "ran"]; ["s2"; "Stop"]]).

(** Offset [o] is the first offset of [range(s, e)] that a span claims, and
    [tb] is the span that owns it. *)
Definition first_claimed (annotations : list Textbound) (s e o : Z)
    (tb : Textbound) : Prop :=
  s ≤ o < e ∧
  (∀ o', s ≤ o' < o → claimant annotations o' = None) ∧
  claimant annotations o = Some tb.

(** ** Reading the CoNLL file: [readconll] *)

(** [conlldocs]: the sentences of each document, by the name of the
    document, in the order in which the names were first stored. *)
Definition conlldocs : Type := list (string * list (list conlltok)).

(** [line.strip().split(' ', 2)[2]]: what follows the second space of the
    stripped line; [None] for the [IndexError] when it has fewer than two. *)
Definition docname_of (line : string) : option string :=
  match split_on space (strip line) with
  | _ :: _ :: f :: fs => Some (join space (f :: fs))
  | _ => None
  end.

(** Where [readconll] is in the file: in the outer loop, or in the inner
    loop for the document [docname], where [conlldocs[docname]] is the list
    [closed ++ [cur]] (it is [[[]]] at first and never empty). *)
Inductive position : Type :=
  | Outside
  | Inside (docname : string) (closed : list (list conlltok)) (cur : list conlltok).

(** After the inner loop: the last sentence is removed when it is empty, and
    a document left without sentences is an error.  The list was stored
    under [docname] when the document began, so that storing it here keeps
    the place of the name. *)
Definition end_document (docname : string) (closed : list (list conlltok))
    (cur : list conlltok) (docs : conlldocs) : result conlldocs :=
  let sentences := if cur is [] then closed else closed ++ [cur] in
  if sentences is [] then Raise ValueError
  else Return (dict_set docname sentences docs).

(** The two loops of [readconll] over the lines that [readline] returns,
    [n] being [lineno].  At the end of the list [readline] returns [''],
    which ends the inner loop and then the outer one. *)
Fixpoint read_lines (n : nat) (pos : position) (docs : conlldocs)
    (lines : list string) : result conlldocs :=
  match lines with
  | [] =>
      match pos with
      | Outside => Return docs
      | Inside docname closed cur => end_document docname closed cur docs
      end
  | line :: rest =>
      match pos with
      | Outside =>
          if String.prefix "#begin document " line then
            match docname_of line with
            | None => Raise IndexError
            | Some docname =>
                read_lines (S n) (Inside docname [] [])
                  (dict_set docname [[]] docs) rest
            end
          else if bool_decide (line = "") then Return docs
          else read_lines (S n) Outside docs rest
      | Inside docname closed cur =>
          if String.prefix "#end document" line || bool_decide (line = "") then
            match end_document docname closed cur docs with
            | Raise e => Raise e
            | Return docs' => read_lines (S n) Outside docs' rest
            end
          else if String.prefix "#" line then read_lines (S n) pos docs rest
          else if bool_decide (strip line ≠ "") then
            read_lines (S n)
              (Inside docname closed
                 (cur ++ [mkConlltok (S n) (split_ws (strip line))]))
              docs rest
          else read_lines (S n) (Inside docname (closed ++ [cur]) []) docs rest
      end
  end.

Definition readconll (lines : list string) : result conlldocs :=
  match read_lines 0 Outside [] lines with
  | Raise e => Raise e
  | Return docs => if docs is [] then Raise ValueError else Return docs
  end.

(** ** The tokenized file and the body of [main] for one document *)

(** [line.replace('|', ' ', 1).split(' ')]. *)
Definition tokenized_line (line : string) : list string :=
  split_on space (replace_first "|" space line).

(** The body of the loop of [main] for one name, on the lines of the
    [.conll] file and the lines of the [.txt] file ([splitlines]). *)
Definition main_document (conll_lines txt_lines : list string)
  : result (list segment) :=
  match readconll conll_lines with
  | Raise e => Raise e
  | Return docs =>
      if decide (length docs ≠ 1%nat) then Raise ValueError
      else match docs with
           | (_, conlldata) :: _ => convert conlldata (tokenized_line <$> txt_lines)
           | [] => Raise ValueError
           end
  end.

(** The row was read from the line of its line number (the lines of a file
    are counted from 1), which is not a comment and has a word. *)
Definition read_from (lines : list string) (tok : conlltok) : Prop :=
  ∃ line,
    (0 < lineno tok)%nat ∧
    lines !! pred (lineno tok) = Some line ∧
    String.prefix "#" line = false ∧
    columns tok = split_ws (strip line) ∧
    columns tok ≠ [].

(** No space comes before the first bar of the line. *)
Fixpoint key_delimited (line : string) : bool :=
  match line with
  | EmptyString => true
  | String c line' =>
      if decide (c = "|"%char) then true
      else if decide (c = space) then false
      else key_delimited line'
  end.

(** Rows read from the first [n] lines of the file, in the order of the
    lines. *)
Definition in_order (lines : list string) (n : nat) (rows : list conlltok) : Prop :=
  Forall (read_from lines) rows ∧
  Forall (fun tok => (lineno tok ≤ n)%nat) rows ∧
  StronglySorted lt (lineno <$> rows).

Definition sample_conll : list string :=
  ["#begin document (doc); part 000" +:+ String newline "";
   "doc 0 0 John NNP[x" +:+ String newline "";
   "doc 0 1 ran VBD[x" +:+ String newline "";
   String newline "";
   "# a comment" +:+ String newline "";
   "doc 0 0 Stop VB[x" +:+ String newline "";
   "#end document" +:+ String newline ""].

Definition sample_txt : list string := ["s1|John ran"; "s2|Stop"].

(** ** The lines of the [.ann] file, as [parse_textbounds] reads them *)

Definition digit_char (d : Z) : ascii := ascii_of_nat (48 + Z.to_nat d).

(** The decimal digits of [n], put before [acc]. *)
Fixpoint decimal (fuel : nat) (n : Z) (acc : string) : string :=
  match fuel with
  | O => acc
  | S fuel' =>
      let acc' := String (digit_char (n mod 10)) acc in
      if n <? 10 then acc' else decimal fuel' (n / 10) acc'
  end.

(** ['%d' % z]. *)
Definition format_d (z : Z) : string :=
  if z <? 0 then String "-" (decimal (S (Z.to_nat (- z))) (- z) "")
  else decimal (S (Z.to_nat z)) z "".

(** ['T%d' % idnum], the first field of the line. *)
Definition ann_key (r : ann_record) : string := "T" +:+ format_d (ann_id r).

(** What [tokstr] returns for the record:
    ['T%d\t%s %d %d\t%s' % (idnum, ttype, start, end, text)]. *)
Definition tokstr_line (r : ann_record) : string :=
  ann_key r +:+
  String tab
    ((ann_type r +:+
      String space (format_d (ann_start r) +:+ String space (format_d (ann_end r)))) +:+
     String tab (ann_text r)).

(** The line that [print(tokstr(...), file=out)] writes. *)
Definition ann_line (r : ann_record) : string :=
  tokstr_line r +:+ String newline "".

(** A text without white space. *)
Definition word (w : string) : Prop :=
  all_chars (fun c => negb (is_space c)) w = true.

(** A record with a type, whose type and text are without white space and
    whose numbers are not negative. *)
Definition standoff_record (r : ann_record) : Prop :=
  0 ≤ ann_id r ∧ 0 ≤ ann_start r ∧ 0 ≤ ann_end r ∧
  ann_type r ≠ "" ∧ word (ann_type r) ∧ word (ann_text r).

(** The largest number of digits that the interpreter converts between
    [str] and [int] ([sys.int_info.default_max_str_digits] of CPython 3.11
    and later): beyond it ['%d'] and [int] raise [ValueError].  [format_d]
    and [py_int] stand for the two conversions within that limit. *)
Definition max_str_digits : Z := 4300.

(** The numbers of the record are written with no more digits than that. *)
Definition within_digit_limit (r : ann_record) : Prop :=
  Z.of_nat (String.length (format_d (ann_id r))) ≤ max_str_digits ∧
  Z.of_nat (String.length (format_d (ann_start r))) ≤ max_str_digits ∧
  Z.of_nat (String.length (format_d (ann_end r))) ≤ max_str_digits.

(** The entry of [mapping] and the [Textbound] for a record. *)
Definition ann_entity (r : ann_record) : string * entity :=
  (ann_key r, (ann_start r, ann_end r, [ann_type r], ann_text r)).

Definition textbound_of (r : ann_record) : Textbound :=
  mkTextbound (ann_start r) (ann_end r) (ann_type r) (ann_text r).

(** What the converter makes of rows whose columns are without white space:
    offsets that are not negative, a type and a text without white space. *)
Definition plain_record (r : ann_record) : Prop :=
  0 ≤ ann_start r ∧ 0 ≤ ann_end r ∧ word (ann_type r) ∧ word (ann_text r).

(** * Properties *)

Section OverlapFacts.

Variable heap : nat -> Textbound.

Lemma overlaps_sym (a b : Textbound) : overlaps a b = overlaps b a.
Proof. unfold overlaps. by rewrite orb_comm. Qed.

Lemma examine_spec (t1 t2 : nat) (st : elim_state) :
  examine heap t1 st t2 =
    if decide (clash heap t1 t2)
    then ({[ victim heap t1 t2 ]} ∪ st.1,
          st.2 ++ [Eliminated (victim heap t1 t2) (winner heap t1 t2)])
    else st.
Proof.
  unfold examine, clash, victim, winner.
  destruct (decide (t1 = t2)) as [->|Hne].
  - destruct (decide _) as [[? _]|]; done.
  - destruct (overlaps (heap t1) (heap t2)) eqn:Hov; simpl.
    + destruct (decide _) as [|[]]; [|done].
      by destruct (span_len (heap t2) <? span_len (heap t1)).
    + destruct (decide _) as [[_ ?]|]; done.
Qed.

Lemma inner_loop_elim (l : list nat) (st : elim_state) (t1 : nat) (v : Textbound) :
  v ∈ (inner_loop heap l st t1).1 ↔
  v ∈ st.1 ∨ ∃ t2, t2 ∈ l ∧ clash heap t1 t2 ∧ v = victim heap t1 t2.
Proof.
  unfold inner_loop. revert st.
  induction l as [|t2 l IH]; intros st; simpl.
  - split; [by left | intros [?|(? & Hin & _)]; [done | by inversion Hin]].
  - rewrite IH, examine_spec. destruct (decide (clash heap t1 t2)) as [Hc|Hc]; simpl.
    + rewrite elem_of_union, elem_of_singleton. split.
      * intros [[-> |?]|(u & ? & ? & ?)]; [right | by left | right].
        -- exists t2. split_and!; [left | done | done].
        -- exists u. split_and!; [by right | done | done].
      * intros [?|(u & Hin & ? & ?)]; [by left; right |].
        apply elem_of_cons in Hin as [->|?]; [by left; left |].
        right. by exists u.
    + split.
      * intros [?|(u & ? & ? & ?)]; [by left | right].
        exists u. split_and!; [by right | done | done].
      * intros [?|(u & Hin & ? & ?)]; [by left |].
        apply elem_of_cons in Hin as [->|?]; [done |].
        right. by exists u.
Qed.

Lemma inner_loop_log (l : list nat) (st : elim_state) (t1 : nat) (w : warning) :
  w ∈ (inner_loop heap l st t1).2 ↔
  w ∈ st.2 ∨ ∃ t2, t2 ∈ l ∧ clash heap t1 t2 ∧
               w = Eliminated (victim heap t1 t2) (winner heap t1 t2).
Proof.
  unfold inner_loop. revert st.
  induction l as [|t2 l IH]; intros st; simpl.
  - split; [by left | intros [?|(? & Hin & _)]; [done | by inversion Hin]].
  - rewrite IH, examine_spec. destruct (decide (clash heap t1 t2)) as [Hc|Hc]; simpl.
    + rewrite elem_of_app, list_elem_of_singleton. split.
      * intros [[?| ->]|(u & ? & ? & ?)]; [by left | right | right].
        -- exists t2. split_and!; [left | done | done].
        -- exists u. split_and!; [by right | done | done].
      * intros [?|(u & Hin & ? & ?)]; [by left; left |].
        apply elem_of_cons in Hin as [->|?]; [by left; right |].
        right. by exists u.
    + split.
      * intros [?|(u & ? & ? & ?)]; [by left | right].
        exists u. split_and!; [by right | done | done].
      * intros [?|(u & Hin & ? & ?)]; [by left |].
        apply elem_of_cons in Hin as [->|?]; [done |].
        right. by exists u.
Qed.

Lemma outer_loop_elim (l1 l2 : list nat) (st : elim_state) (v : Textbound) :
  v ∈ (foldl (inner_loop heap l2) st l1).1 ↔
  v ∈ st.1 ∨ ∃ t1 t2, t1 ∈ l1 ∧ t2 ∈ l2 ∧ clash heap t1 t2 ∧ v = victim heap t1 t2.
Proof.
  revert st. induction l1 as [|t1 l1 IH]; intros st; simpl.
  - split; [by left | intros [?|(? & ? & Hin & _)]; [done | by inversion Hin]].
  - rewrite IH, inner_loop_elim. split.
    + intros [[?|(t2 & ? & ? & ?)]|(u & t2 & ? & ? & ? & ?)]; [by left | right | right].
      * exists t1, t2. split_and!; [left | done..].
      * exists u, t2. split_and!; [by right | done..].
    + intros [?|(u & t2 & Hin & ? & ? & ?)]; [by left; left |].
      apply elem_of_cons in Hin as [->|?]; [left; right; by exists t2 |].
      right. by exists u, t2.
Qed.

Lemma outer_loop_log (l1 l2 : list nat) (st : elim_state) (w : warning) :
  w ∈ (foldl (inner_loop heap l2) st l1).2 ↔
  w ∈ st.2 ∨ ∃ t1 t2, t1 ∈ l1 ∧ t2 ∈ l2 ∧ clash heap t1 t2 ∧
                  w = Eliminated (victim heap t1 t2) (winner heap t1 t2).
Proof.
  revert st. induction l1 as [|t1 l1 IH]; intros st; simpl.
  - split; [by left | intros [?|(? & ? & Hin & _)]; [done | by inversion Hin]].
  - rewrite IH, inner_loop_log. split.
    + intros [[?|(t2 & ? & ? & ?)]|(u & t2 & ? & ? & ? & ?)]; [by left | right | right].
      * exists t1, t2. split_and!; [left | done..].
      * exists u, t2. split_and!; [by right | done..].
    + intros [?|(u & t2 & Hin & ? & ? & ?)]; [by left; left |].
      apply elem_of_cons in Hin as [->|?]; [left; right; by exists t2 |].
      right. by exists u, t2.
Qed.

(** A tuple is a key of [eliminate] exactly when it is the shorter member
    of some overlapping pair of distinct references of the list (the outer
    one on a tie). *)
Lemma eliminated_elim (l : list nat) (v : Textbound) :
  v ∈ (eliminated heap l).1 ↔
  ∃ t1 t2, t1 ∈ l ∧ t2 ∈ l ∧ clash heap t1 t2 ∧ v = victim heap t1 t2.
Proof.
  unfold eliminated. rewrite outer_loop_elim. simpl. split; [|by right].
  intros [H|H]; [set_solver | done].
Qed.

Lemma eliminated_log (l : list nat) (w : warning) :
  w ∈ (eliminated heap l).2 ↔
  ∃ t1 t2, t1 ∈ l ∧ t2 ∈ l ∧ clash heap t1 t2 ∧
           w = Eliminated (victim heap t1 t2) (winner heap t1 t2).
Proof.
  unfold eliminated. rewrite outer_loop_log. simpl. split; [|by right].
  intros [H|H]; [by inversion H | done].
Qed.

Lemma eliminate_overlaps_elem (l : list nat) (t : nat) :
  t ∈ (eliminate_overlaps heap l).1 ↔ t ∈ l ∧ heap t ∉ (eliminated heap l).1.
Proof. unfold eliminate_overlaps. simpl. rewrite list_elem_of_filter. tauto. Qed.

End OverlapFacts.

(** Claim C1.  For every list of span references given to
    [eliminate_overlaps], the returned list is a subsequence of the input in
    the original order; no two distinct spans of it overlap; and every span
    of the input that was eliminated is overlapped by another span of the
    input whose length is at least its own. *)
Theorem eliminate_overlaps_resolves (heap : nat -> Textbound) (l : list nat) :
  sublist (eliminate_overlaps heap l).1 l ∧
  (∀ a b, a ∈ (eliminate_overlaps heap l).1 → b ∈ (eliminate_overlaps heap l).1 →
          a ≠ b → overlaps (heap a) (heap b) = false) ∧
  (∀ t, t ∈ l → t ∉ (eliminate_overlaps heap l).1 →
        ∃ u, u ∈ l ∧ u ≠ t ∧ span_len (heap t) ≤ span_len (heap u) ∧
             overlaps (heap t) (heap u) = true).
Proof.
  split_and!.
  - apply sublist_filter.
  - intros a b [Ha Hka]%eliminate_overlaps_elem [Hb Hkb]%eliminate_overlaps_elem Hne.
    destruct (overlaps (heap a) (heap b)) eqn:Hov; [exfalso | done].
    assert (victim heap a b ∈ (eliminated heap l).1) as Hv.
    { apply eliminated_elim. by exists a, b. }
    unfold victim in Hv. by destruct (span_len (heap b) <? span_len (heap a)).
  - intros t Ht Hout.
    assert (heap t ∈ (eliminated heap l).1) as Hk.
    { destruct (decide (heap t ∈ (eliminated heap l).1)); [done |].
      destruct Hout. by apply eliminate_overlaps_elem. }
    apply eliminated_elim in Hk as (t1 & t2 & H1 & H2 & [Hne Hov] & Hv).
    unfold victim in Hv.
    destruct (span_len (heap t2) <? span_len (heap t1)) eqn:Hlen.
    + apply Z.ltb_lt in Hlen. exists t1. split_and!.
      * done.
      * intros ->. rewrite Hv in Hlen. lia.
      * rewrite Hv. lia.
      * by rewrite Hv, overlaps_sym.
    + apply Z.ltb_ge in Hlen. destruct (decide (t2 = t)) as [->|Hd].
      * exists t1. split_and!; [done | done | by rewrite <- Hv | ].
        by rewrite overlaps_sym.
      * exists t2. split_and!; [done | done | by rewrite Hv | by rewrite Hv].
Qed.



Section RelabelFacts.

Variable fname : string.

Lemma decode_tag_B (ty : string) : decode_tag ("B-" +:+ ty) = TagB ty.
Proof. reflexivity. Qed.

Lemma decode_tag_I (ty : string) : decode_tag ("I-" +:+ ty) = TagI ty.
Proof. reflexivity. Qed.

Lemma substring_0_0 (s : string) : String.substring 0 0 s = "".
Proof. by destruct s. Qed.

Lemma collapse_tag_B (c ty : string) :
  collapse_tag c (String "B" (String "-" ty)) = String "B" (String "-" c).
Proof. unfold collapse_tag. simpl. by rewrite substring_0_0. Qed.

Lemma collapse_tag_I (c ty : string) :
  collapse_tag c (String "I" (String "-" ty)) = String "I" (String "-" c).
Proof. unfold collapse_tag. simpl. by rewrite substring_0_0. Qed.


Lemma relabel_lines_bio (ol : gmap Z Textbound) (prev : option string)
    (lines : list line) :
  Forall placeholder lines →
  bio_consistent_from prev (relabel_lines fname ol prev lines).1 = true.
Proof.
  intros Hall. revert prev.
  induction Hall as [|l lines Hl _ IH]; intros prev; [done |].
  destruct l as [|tag s e token]; simpl in *; [apply IH |].
  subst tag.
  destruct (find_label fname ol s token (range s e)) as [[lab|] w]; simpl.
  - destruct (decide (Some lab = prev)) as [<-|Hne]; simpl.
    + rewrite bool_decide_true by done. apply IH.
    + rewrite bool_decide_false by done. apply IH.
  - apply IH.
Qed.

Lemma relabel_lines_collapse_bio (ol : gmap Z Textbound) (c : string)
    (prev : option string) (lines : list line) :
  Forall placeholder lines →
  bio_begins_from ((fun _ => c) <$> prev)
    (collapse c <$> (relabel_lines fname ol prev lines).1) = true.
Proof.
  intros Hall. revert prev.
  induction Hall as [|l lines Hl _ IH]; intros prev; [done |].
  destruct l as [|tag s e token]; simpl in *; [apply (IH None) |].
  subst tag.
  destruct (find_label fname ol s token (range s e)) as [[lab|] w]; simpl.
  - destruct (decide (Some lab = prev)) as [<-|Hne]; simpl.
    + rewrite substring_0_0. simpl.
      rewrite bool_decide_true by done. apply (IH (Some lab)).
    + rewrite substring_0_0. apply (IH (Some lab)).
  - apply (IH None).
Qed.

Lemma bio_consistent_begins (prev : option string) (lines : list line) :
  bio_consistent_from prev lines = true → bio_begins_from prev lines = true.
Proof.
  revert prev. induction lines as [|[|tag s e token] lines IH]; intros prev; simpl;
    [done | apply IH |].
  destruct (decode_tag tag); [apply IH | | | done].
  - intros [_ ?]%andb_true_iff. by apply IH.
  - intros [-> ?]%andb_true_iff. by apply IH.
Qed.

(** What [bio_consistent_from] checks at each index: an [I-ty] comes right
    after a token of type [ty], a [B-ty] does not. *)
Lemma bio_consistent_from_reading (prev : option string) (lines : list line)
    (i : nat) (tag : string) (s e : Z) (token ty : string) :
  bio_consistent_from prev lines = true →
  lines !! i = Some (Tok tag s e token) →
  (decode_tag tag = TagI ty → type_before prev lines i = Some ty) ∧
  (decode_tag tag = TagB ty → type_before prev lines i ≠ Some ty).
Proof.
  revert prev i. induction lines as [|l lines IH]; intros prev i Hbio Hi; [done |].
  destruct i as [|i].
  - injection Hi as ->. simpl in *.
    destruct (decode_tag tag) as [|ty'|ty'|]; try done.
    + apply andb_true_iff in Hbio as [Hp%negb_true_iff%bool_decide_eq_false _].
      split; [done | by intros [= ->]].
    + apply andb_true_iff in Hbio as [Hp%bool_decide_eq_true _].
      split; [by intros [= ->] | done].
  - assert (bio_consistent_from (tag_type l) lines = true) as Hrest.
    { destruct l as [|tag0 s0 e0 t0]; simpl in *; [done |].
      destruct (decode_tag tag0); try done;
        by apply andb_true_iff in Hbio as [_ ?]. }
    destruct (IH (tag_type l) i Hrest Hi) as [HI HB].
    by destruct i.
Qed.

Lemma relabel_lines_frame (ol : gmap Z Textbound) (prev : option string)
    (lines : list line) :
  Forall2 same_frame lines (relabel_lines fname ol prev lines).1.
Proof.
  revert prev. induction lines as [|[|tag s e token] lines IH]; intros prev; simpl.
  - constructor.
  - constructor; [done | apply IH].
  - constructor; [done | apply IH].
Qed.

Lemma single_classing_frame (opts : options) (lines lines' : list line) :
  Forall2 same_frame lines lines' →
  Forall2 same_frame lines (single_classing opts lines').
Proof.
  intros H. unfold single_classing.
  destruct (singleclass opts) as [c|]; [|done].
  destruct (decide (c = "")); [done |].
  induction H as [|l l' lines lines' Hl _ IH]; simpl; constructor; [|done].
  by destruct l, l'.
Qed.

Lemma claim_loop_lookup (tb : Textbound) (os : list Z)
    (st : gmap Z Textbound * list warning) (o : Z) :
  (foldl (claim fname tb) st os).1 !! o =
    if decide (o ∈ os) then Some tb else st.1 !! o.
Proof.
  revert st. induction os as [|a os IH]; intros st; simpl.
  - destruct (decide (o ∈ [])) as [H|]; [by inversion H | done].
  - rewrite IH. simpl.
    destruct (decide (o ∈ os)) as [Hin|Hin].
    + rewrite decide_True; [done | by right].
    + destruct (decide (a = o)) as [->|Hne].
      * rewrite lookup_insert_eq. rewrite decide_True; [done | by left].
      * rewrite lookup_insert_ne by done.
        rewrite decide_False; [done |].
        intros [?|?]%elem_of_cons; congruence.
Qed.

Lemma elem_of_range (a b o : Z) : o ∈ range a b ↔ a ≤ o < b.
Proof. unfold range. rewrite elem_of_seqZ. lia. Qed.

Lemma claim_span_lookup (st : gmap Z Textbound * list warning) (tb : Textbound)
    (o : Z) :
  (claim_span fname st tb).1 !! o =
    if decide (covers o tb) then Some tb else st.1 !! o.
Proof.
  unfold claim_span. rewrite claim_loop_lookup.
  destruct (decide (o ∈ _)) as [Hin|Hin], (decide (covers o tb)) as [Hc|Hc];
    try done; rewrite elem_of_range in Hin; unfold covers in Hc; lia.
Qed.

Lemma claimant_cons (tb : Textbound) (annotations : list Textbound) (o : Z) :
  claimant (tb :: annotations) o =
    match claimant annotations o with
    | Some y => Some y
    | None => if decide (covers o tb) then Some tb else None
    end.
Proof.
  unfold claimant. rewrite filter_cons.
  destruct (decide (covers o tb)); [by rewrite last_cons |].
  by destruct (last _).
Qed.

Lemma claim_spans_lookup (annotations : list Textbound)
    (st : gmap Z Textbound * list warning) (o : Z) :
  (foldl (claim_span fname) st annotations).1 !! o =
    match claimant annotations o with
    | Some tb => Some tb
    | None => st.1 !! o
    end.
Proof.
  revert st. induction annotations as [|tb anns IH]; intros st; simpl; [done |].
  rewrite IH, claimant_cons, claim_span_lookup.
  destruct (claimant anns o); [done |]. by destruct (decide (covers o tb)).
Qed.

(** After the first loop of [relabel], [offset_label[o]] is the last span
    of the list that covers [o]. *)
Lemma build_offset_label_lookup (annotations : list Textbound) (o : Z) :
  (build_offset_label fname annotations).1 !! o = claimant annotations o.
Proof.
  unfold build_offset_label. rewrite claim_spans_lookup. simpl.
  by destruct (claimant annotations o).
Qed.

Lemma find_label_none (ol : gmap Z Textbound) (s : Z) (token : string)
    (os : list Z) :
  (∀ o, o ∈ os → ol !! o = None) →
  find_label fname ol s token os = (None, []).
Proof.
  induction os as [|o os IH]; intros H; simpl; [done |].
  rewrite (H o) by left. apply IH. intros o' ?. apply H. by right.
Qed.

Lemma find_label_first (ol : gmap Z Textbound) (s : Z) (token : string)
    (pre post : list Z) (o : Z) (tb : Textbound) :
  (∀ o', o' ∈ pre → ol !! o' = None) →
  ol !! o = Some tb →
  find_label fname ol s token (pre ++ o :: post) =
    (Some (tb_type tb),
     if decide (o = s) then [] else [BoundaryMismatch fname token (tb_text tb)]).
Proof.
  intros Hpre Ho. induction pre as [|a pre IH]; simpl.
  - by rewrite Ho.
  - rewrite (Hpre a) by left. apply IH. intros o' ?. apply Hpre. by right.
Qed.

Lemma range_split (s e o : Z) :
  s ≤ o < e → range s e = range s o ++ o :: range (o + 1) e.
Proof.
  intros H. unfold range.
  replace (e - s) with ((o - s) + (e - o)) by lia.
  rewrite seqZ_app by lia. f_equal.
  replace (s + (o - s)) with o by lia.
  rewrite seqZ_cons by lia. f_equal. f_equal; lia.
Qed.

Lemma relabel_lines_lookup (ol : gmap Z Textbound) (prev : option string)
    (lines : list line) (i : nat) (tag : string) (s e : Z) (token : string) :
  lines !! i = Some (Tok tag s e token) →
  ∃ prev',
    (relabel_lines fname ol prev lines).1 !! i =
      Some (Tok (bio_tag prev' (find_label fname ol s token (range s e)).1 tag)
              s e token) ∧
    ∀ w, w ∈ (find_label fname ol s token (range s e)).2 →
         w ∈ (relabel_lines fname ol prev lines).2.
Proof.
  revert prev i. induction lines as [|l lines IH]; intros prev i Hi; [done |].
  destruct i as [|i]; simpl in Hi.
  - injection Hi as ->. exists prev. simpl. split; [done |].
    intros w Hw. apply elem_of_app. by left.
  - destruct l as [|tag0 s0 e0 token0]; simpl.
    + destruct (IH None i Hi) as (prev' & H1 & H2). by exists prev'.
    + destruct (IH (find_label fname ol s0 token0 (range s0 e0)).1 i Hi)
        as (prev' & H1 & H2).
      exists prev'. split; [done |].
      intros w Hw. apply elem_of_app. right. by apply H2.
Qed.

Lemma relabel_lines_length (ol : gmap Z Textbound) (prev : option string)
    (lines : list line) :
  length (relabel_lines fname ol prev lines).1 = length lines.
Proof.
  revert prev. induction lines as [|[|tag s e token] lines IH]; intros prev;
    simpl; [done | by rewrite IH..].
Qed.

Lemma single_classing_lookup (opts : options) (lines : list line) (i : nat)
    (tag : string) (s e : Z) (token : string) :
  lines !! i = Some (Tok tag s e token) →
  single_classing opts lines !! i = Some (Tok (final_tag opts tag) s e token).
Proof.
  intros Hi. unfold single_classing, final_tag.
  destruct (singleclass opts) as [c|]; [|done].
  destruct (decide (c = "")); [done |].
  by rewrite list_lookup_fmap, Hi.
Qed.

Lemma single_classing_length (opts : options) (lines : list line) :
  length (single_classing opts lines) = length lines.
Proof.
  unfold single_classing. destruct (singleclass opts) as [c|]; [|done].
  destruct (decide (c = "")); [done |]. apply length_fmap.
Qed.

Lemma final_tag_O (opts : options) : final_tag opts "O" = "O".
Proof.
  unfold final_tag. destruct (singleclass opts) as [c|]; [|done].
  by destruct (decide (c = "")).
Qed.

End RelabelFacts.

Example relabel_john :
  relabel "john.txt" no_options john_lines john_spans =
  ([Tok "B-PERSON" 0 4 "John"; Tok "O" 5 8 "ran"; Tok "O" 8 9 "."; Blank], []).
Proof. vm_compute. reflexivity. Qed.

(** Claim C2, as amended.  For every list of ['O']-tagged token records and
    every span list, in the output of [relabel] no [I-<type>] comes right
    after an ['O'] token, a sentence boundary or a token of another type, and
    every maximal run of one type begins with [B-<type>]; when no single
    class is configured that [B-<type>] is the only one of the run. *)
Theorem relabel_bio_consistent (fname : string) (opts : options)
    (lines : list line) (annotations : list Textbound) :
  Forall placeholder lines →
  bio_begins (relabel fname opts lines annotations).1 = true ∧
  (single_class_on opts = false →
   bio_consistent (relabel fname opts lines annotations).1 = true).
Proof.
  intros Hall. unfold relabel, bio_begins, bio_consistent. simpl.
  pose proof (relabel_lines_bio fname (build_offset_label fname annotations).1
                None lines Hall) as Hbio.
  unfold single_classing, single_class_on.
  destruct (singleclass opts) as [c|].
  - destruct (decide (c = "")) as [->|Hc].
    + split; [by apply bio_consistent_begins | done].
    + split; [| by rewrite bool_decide_false].
      apply (relabel_lines_collapse_bio fname _ c None lines Hall).
  - split; [by apply bio_consistent_begins | done].
Qed.

Lemma relabel_bio_consistent_witness :
  Forall placeholder john_lines ∧
  single_class_on no_options = false ∧
  bio_begins (relabel "john.txt" no_options john_lines john_spans).1 = true ∧
  bio_consistent (relabel "john.txt" no_options john_lines john_spans).1 = true.
Proof.
  assert (Forall placeholder john_lines) as Hall.
  { repeat constructor. }
  destruct (relabel_bio_consistent "john.txt" no_options john_lines john_spans Hall)
    as [Hb Hc].
  split_and!; [done | reflexivity | done | by apply Hc].
Defined.

(** Claim C2, as stated, fails: under a single class the two tokens both get
    [B-X], a run of one type that holds two [B-] tags. *)
Lemma relabel_single_class_two_B :
  Forall placeholder two_types_lines ∧
  relabel "ab.txt" single_class_X two_types_lines two_types_spans =
    ([Tok "B-X" 0 1 "a"; Tok "B-X" 2 3 "b"; Blank], []) ∧
  bio_consistent
    (relabel "ab.txt" single_class_X two_types_lines two_types_spans).1 = false.
Proof.
  split_and!; [repeat constructor | vm_compute; reflexivity..].
Qed.

(** Claim C10.  [relabel] returns one record per input record, with the same
    start offset, end offset and token text; only the tag may differ, and a
    sentence boundary stays a sentence boundary. *)
Theorem relabel_frame (fname : string) (opts : options) (lines : list line)
    (annotations : list Textbound) :
  Forall2 same_frame lines (relabel fname opts lines annotations).1.
Proof.
  unfold relabel. simpl. apply single_classing_frame, relabel_lines_frame.
Qed.

(** A span that starts inside a token: the token is still labelled, and the
    mismatch is reported. *)
Example relabel_mismatch :
  relabel "john.txt" no_options john_lines [mkTextbound 2 4 "PERSON" "hn"] =
  ([Tok "B-PERSON" 0 4 "John"; Tok "O" 5 8 "ran"; Tok "O" 8 9 "."; Blank],
   [BoundaryMismatch "john.txt" "John" "hn"]).
Proof. vm_compute. reflexivity. Qed.

Section AssignedFacts.

Lemma final_tag_B (opts : options) (tb : Textbound) :
  final_tag opts ("B-" +:+ tb_type tb) = "B-" +:+ assigned_type opts tb.
Proof.
  unfold final_tag, assigned_type. destruct (singleclass opts) as [c|]; [|done].
  destruct (decide (c = "")); [done | apply collapse_tag_B].
Qed.

Lemma final_tag_I (opts : options) (tb : Textbound) :
  final_tag opts ("I-" +:+ tb_type tb) = "I-" +:+ assigned_type opts tb.
Proof.
  unfold final_tag, assigned_type. destruct (singleclass opts) as [c|]; [|done].
  destruct (decide (c = "")); [done | apply collapse_tag_I].
Qed.

Lemma final_tag_off (opts : options) (tag : string) :
  single_class_on opts = false → final_tag opts tag = tag.
Proof.
  unfold single_class_on, final_tag. destruct (singleclass opts) as [c|]; [|done].
  destruct (decide (c = "")); [done |]. by rewrite bool_decide_false.
Qed.

End AssignedFacts.

(** Claim C8, as amended.  [relabel] returns a record for every input
    record, whatever it warns of.  For the token at index [i], with offsets
    [start] and [end]: if no offset of [range(start, end)] is claimed, the
    token keeps the tag it came with when no single class is configured, and
    ['O'] stays ['O'] in every case; otherwise, [tb] being the span that owns
    the first claimed offset [o], the tag is [B-] or [I-] followed by the
    type of [tb] when no single class is configured and by the class when
    one is, and when [o] lies after [start] the boundary-mismatch warning
    for the token is in the log. *)
Theorem relabel_first_claimed (fname : string) (opts : options)
    (lines : list line) (annotations : list Textbound) (i : nat)
    (tag : string) (s e : Z) (token : string) :
  lines !! i = Some (Tok tag s e token) →
  length (relabel fname opts lines annotations).1 = length lines ∧
  ∃ tag',
    (relabel fname opts lines annotations).1 !! i = Some (Tok tag' s e token) ∧
    ((∀ o, s ≤ o < e → claimant annotations o = None) →
     tag' = final_tag opts tag ∧
     (tag = "O" → tag' = "O") ∧
     (single_class_on opts = false → tag' = tag)) ∧
    (∀ o tb,
       s ≤ o < e →
       (∀ o', s ≤ o' < o → claimant annotations o' = None) →
       claimant annotations o = Some tb →
       (tag' = "B-" +:+ assigned_type opts tb ∨
        tag' = "I-" +:+ assigned_type opts tb) ∧
       (single_class_on opts = false → assigned_type opts tb = tb_type tb) ∧
       (s < o →
        BoundaryMismatch fname token (tb_text tb)
          ∈ (relabel fname opts lines annotations).2)).
Proof.
  intros Hi. unfold relabel. simpl.
  split; [by rewrite single_classing_length, relabel_lines_length |].
  set (ol := (build_offset_label fname annotations).1).
  destruct (relabel_lines_lookup fname ol None lines i tag s e token Hi)
    as (prev & Hout & Hlog).
  eexists. split; [by apply single_classing_lookup |]. split.
  - intros Hnone. rewrite find_label_none.
    + simpl. split_and!; [done | | by apply final_tag_off].
      intros ->. apply final_tag_O.
    + intros o Ho%elem_of_range. unfold ol.
      rewrite build_offset_label_lookup. by apply Hnone.
  - intros o tb Ho Hbefore Hown.
    assert (find_label fname ol s token (range s e) =
            (Some (tb_type tb),
             if decide (o = s) then []
             else [BoundaryMismatch fname token (tb_text tb)])) as Hfind.
    { rewrite (range_split s e o Ho). apply find_label_first.
      - intros o' Ho'%elem_of_range. unfold ol.
        rewrite build_offset_label_lookup. by apply Hbefore.
      - unfold ol. by rewrite build_offset_label_lookup. }
    split_and!.
    + rewrite Hfind. simpl.
      destruct (decide (Some (tb_type tb) = prev));
        [right; apply final_tag_I | left; apply final_tag_B].
    + intros Hoff. unfold single_class_on in Hoff. unfold assigned_type.
      destruct (singleclass opts) as [c|]; [|done].
      destruct (decide (c = "")); [done |]. by rewrite bool_decide_false in Hoff.
    + intros Hlt. apply elem_of_app. right. apply Hlog.
      rewrite Hfind. simpl. rewrite decide_False by lia. by left.
Qed.

Lemma relabel_first_claimed_witness :
  john_lines !! 0%nat = Some (Tok "O" 0 4 "John") ∧
  length (relabel "john.txt" no_options john_lines john_spans).1 =
    length john_lines ∧
  ∃ tag',
    (relabel "john.txt" no_options john_lines john_spans).1 !! 0%nat =
      Some (Tok tag' 0 4 "John") ∧
    ((∀ o, 0 ≤ o < 4 → claimant john_spans o = None) →
     tag' = final_tag no_options "O" ∧
     ("O" = "O" → tag' = "O") ∧
     (single_class_on no_options = false → tag' = "O")) ∧
    (∀ o tb,
       0 ≤ o < 4 →
       (∀ o', 0 ≤ o' < o → claimant john_spans o' = None) →
       claimant john_spans o = Some tb →
       (tag' = "B-" +:+ assigned_type no_options tb ∨
        tag' = "I-" +:+ assigned_type no_options tb) ∧
       (single_class_on no_options = false →
        assigned_type no_options tb = tb_type tb) ∧
       (0 < o →
        BoundaryMismatch "john.txt" "John" (tb_text tb)
          ∈ (relabel "john.txt" no_options john_lines john_spans).2)).
Proof.
  split; [reflexivity |].
  apply (relabel_first_claimed "john.txt" no_options john_lines john_spans
           0%nat "O" 0 4 "John").
  reflexivity.
Defined.

(** Claim C8, as stated, fails: under the single class [X] the first claimed
    offset of the token [a] belongs to a span of type [A], and the type
    assigned to the token is [X]. *)
Lemma relabel_single_class_other_type :
  two_types_lines !! 0%nat = Some (Tok "O" 0 1 "a") ∧
  claimant two_types_spans 0 = Some (mkTextbound 0 1 "A" "a") ∧
  (relabel "ab.txt" single_class_X two_types_lines two_types_spans).1 !! 0%nat =
    Some (Tok "B-X" 0 1 "a") ∧
  tag_type (Tok "B-X" 0 1 "a") = Some "X" ∧
  tb_type (mkTextbound 0 1 "A" "a") ≠ "X".
Proof.
  split_and!; [reflexivity | vm_compute; reflexivity.. | done].
Qed.

Section LabelFacts.

Lemma split_on_nonempty (sep : ascii) (s : string) : split_on sep s ≠ [].
Proof.
  destruct s as [|c s]; simpl; [done |].
  destruct (decide (c = sep)); [done |]. by destruct (split_on sep s).
Qed.

Lemma join_cons_cons (sep : ascii) (f g : string) (fs : list string) :
  join sep (f :: g :: fs) = f +:+ String sep (join sep (g :: fs)).
Proof. reflexivity. Qed.

Lemma join_split_on (sep : ascii) (s : string) : join sep (split_on sep s) = s.
Proof.
  induction s as [|c s IH]; simpl; [done |].
  destruct (decide (c = sep)) as [->|Hne].
  - destruct (split_on sep s) as [|f fs] eqn:Hs; [by apply split_on_nonempty in Hs |].
    rewrite join_cons_cons. simpl. by rewrite IH.
  - destruct (split_on sep s) as [|f fs] eqn:Hs; [by apply split_on_nonempty in Hs |].
    rewrite <- IH. by destruct fs.
Qed.

(** A line whose remainder is not empty is its label, a TAB and the
    remainder. *)
Lemma label_tab_remainder (l : string) :
  all_space (remainder l) = false →
  ∃ lab, head (split_on tab l) = Some lab ∧ lab +:+ String tab (remainder l) = l.
Proof.
  unfold remainder. intros Hrem.
  pose proof (join_split_on tab l) as Hjoin.
  destruct (split_on tab l) as [|f [|g fs]]; simpl in *; [done.. |].
  exists f. split; [done |]. by rewrite <- Hjoin.
Qed.

Lemma strip_labels_cons (l : string) (lines : list string) :
  strip_labels (l :: lines) =
    ((strip_label l).1 :: (strip_labels lines).1,
     (strip_label l).2 :: (strip_labels lines).2).
Proof. reflexivity. Qed.

Lemma strip_attach_loop (lines : list string) :
  (∀ l, l ∈ lines → EMPTY_LINE l = false → all_space (remainder l) = false) →
  attach_loop (strip_labels lines).1 (strip_labels lines).2 = Return lines.
Proof.
  induction lines as [|l lines IH]; intros H; [done |].
  assert (attach_loop (strip_labels lines).1 (strip_labels lines).2 = Return lines)
    as Hrest.
  { apply IH. intros l' ?. apply H. by right. }
  rewrite strip_labels_cons. cbn [fst snd attach_loop].
  unfold strip_label.
  destruct (EMPTY_LINE l) eqn:Hempty; cbn [fst snd].
  - by rewrite Hempty, Hrest.
  - assert (all_space (remainder l) = false) as Hrem by (apply H; [left | done]).
    destruct (label_tab_remainder l Hrem) as (lab & -> & Heq).
    unfold EMPTY_LINE. rewrite Hrem, Hrest. simpl. by rewrite Heq.
Qed.

End LabelFacts.

Section ParseFacts.

Lemma parse_line_raise (st : parse_state) (l : string) (e : exn) :
  parse_line st l = Raise e → e = ValueError.
Proof.
  unfold parse_line. intros H.
  repeat (case_match; try done); congruence.
Qed.

Lemma parse_line_malformed (st : parse_state) (l : string) :
  TEXTBOUND_LINE (rstrip_newline l) = true →
  malformed (rstrip_newline l) →
  parse_line st l = Raise ValueError.
Proof.
  unfold parse_line, malformed. cbv zeta. intros -> Hbad. simpl.
  repeat (case_match; try done); destruct Hbad; congruence.
Qed.

Lemma parse_lines_raise (st : parse_state) (f : list string) (e : exn) :
  parse_lines st f = Raise e → e = ValueError.
Proof.
  revert st. induction f as [|l f IH]; intros st; simpl; [done |].
  destruct (parse_line st l) as [st'|e'] eqn:Hl; simpl.
  - apply IH.
  - intros [= <-]. by apply parse_line_raise in Hl.
Qed.

Lemma parse_lines_malformed (st : parse_state) (f : list string) (l : string) :
  l ∈ f →
  TEXTBOUND_LINE (rstrip_newline l) = true →
  malformed (rstrip_newline l) →
  parse_lines st f = Raise ValueError.
Proof.
  intros Hin Htb Hbad. revert st.
  induction f as [|l0 f IH]; intros st; [by inversion Hin |].
  simpl. destruct (parse_line st l0) as [st'|e'] eqn:Hl; simpl.
  - apply elem_of_cons in Hin as [->|Hin]; [|by apply IH].
    by rewrite parse_line_malformed in Hl.
  - by apply parse_line_raise in Hl as ->.
Qed.

Lemma parse_line_attrs (st st' : parse_state) (l : string) (a : string * string) :
  parse_line st l = Return st' → a ∈ st.2 → a ∈ st'.2.
Proof.
  unfold parse_line. intros H Ha.
  repeat (case_match; try done); simplify_eq; simpl; try done.
  apply elem_of_app. by left.
Qed.

Lemma parse_line_attribute (st st' : parse_state) (l : string) (a : string * string) :
  parse_line st l = Return st' →
  TEXTBOUND_LINE (rstrip_newline l) = false →
  ATTRIBUTE_LINE (rstrip_newline l) = true →
  attribute_of (rstrip_newline l) = Some a →
  a ∈ st'.2.
Proof.
  unfold parse_line, attribute_of. cbv zeta. intros H Htb Hat Ha.
  rewrite Htb, Hat in H. simpl in H.
  repeat (case_match; try done); simplify_eq; simpl.
  apply elem_of_app. right. by left.
Qed.

Lemma parse_lines_attrs (st st' : parse_state) (f : list string)
    (a : string * string) :
  parse_lines st f = Return st' → a ∈ st.2 → a ∈ st'.2.
Proof.
  revert st. induction f as [|l f IH]; intros st; simpl.
  - by intros [= ->].
  - destruct (parse_line st l) as [st1|] eqn:Hl; simpl; [|done].
    intros H Ha. apply (IH st1 H). by apply (parse_line_attrs st st1 l).
Qed.

Lemma parse_lines_attribute (st st' : parse_state) (f : list string) (l : string)
    (a : string * string) :
  parse_lines st f = Return st' →
  l ∈ f →
  TEXTBOUND_LINE (rstrip_newline l) = false →
  ATTRIBUTE_LINE (rstrip_newline l) = true →
  attribute_of (rstrip_newline l) = Some a →
  a ∈ st'.2.
Proof.
  intros H Hin Htb Hat Ha. revert st H.
  induction f as [|l0 f IH]; intros st H; [by inversion Hin |].
  simpl in H. destruct (parse_line st l0) as [st1|] eqn:Hl; simpl in H; [|done].
  apply elem_of_cons in Hin as [->|Hin]; [|by apply (IH Hin st1)].
  apply (parse_lines_attrs st1 st' f a H).
  by apply (parse_line_attribute st st1 l0).
Qed.

Lemma dict_get_set {V : Type} (k k' : string) (v : V) (d : list (string * V)) :
  dict_get k (dict_set k' v d) = if decide (k = k') then Some v else dict_get k d.
Proof.
  induction d as [|[k0 v0] d IH]; simpl.
  - by destruct (decide (k = k')).
  - destruct (decide (k' = k0)) as [->|Hne]; simpl.
    + by destruct (decide (k = k0)).
    + rewrite IH. destruct (decide (k = k0)) as [->|]; [|done].
      by rewrite decide_False.
Qed.

Lemma append_attribute_keys (m m' : list (string * entity)) (a : string * string)
    (k : string) :
  append_attribute m a = Return m' → dict_get k m = None → dict_get k m' = None.
Proof.
  unfold append_attribute.
  destruct (dict_get a.1 m) as [[[[s e] types] text]|] eqn:Ha; [|done].
  intros [= <-] Hk. rewrite dict_get_set.
  destruct (decide (k = a.1)) as [->|]; [congruence | done].
Qed.

Lemma append_attributes_missing (m : list (string * entity))
    (l : list (string * string)) (a : string * string) :
  a ∈ l → dict_get a.1 m = None → append_attributes m l = Raise KeyError.
Proof.
  intros Hin. revert m. induction l as [|a0 l IH]; intros m Hk; [by inversion Hin |].
  simpl. destruct (append_attribute m a0) as [m'|e] eqn:Ha0; simpl.
  - apply elem_of_cons in Hin as [->|Hin].
    + unfold append_attribute in Ha0. by rewrite Hk in Ha0.
    + apply (IH Hin). by apply (append_attribute_keys m m' a0).
  - unfold append_attribute in Ha0.
    destruct (dict_get a0.1 m) as [[[[? ?] ?] ?]|]; congruence.
Qed.

End ParseFacts.

Example parse_textbounds_john :
  parse_textbounds (mkOptions None true PreRegex)
    ["T1" +:+ String tab ("PERSON 0 4" +:+ String tab ("John" +:+ String newline ""));
     "A1" +:+ String tab ("Negation T1" +:+ String newline "")] =
  Return [mkTextbound 0 4 "PERSON-Negation" "John"].
Proof. vm_compute. reflexivity. Qed.

(** Claim C4, as amended.  When the stream holds a textbound line (one that
    matches [^T\d+\t]) that does not split into exactly three fields at the
    TABs, or whose offsets are not [int] literals, [parse_textbounds] fails,
    and the exception is the [ValueError] of the unpacking or of [int], not
    a [FormatError]. *)
Theorem parse_textbounds_malformed (opts : options) (f : list string) (l : string) :
  l ∈ f →
  TEXTBOUND_LINE (rstrip_newline l) = true →
  malformed (rstrip_newline l) →
  parse_textbounds opts f = Raise ValueError.
Proof.
  intros Hin Htb Hbad. unfold parse_textbounds.
  by rewrite (parse_lines_malformed _ f l Hin Htb Hbad).
Qed.

Lemma parse_textbounds_malformed_witness :
  two_field_line ∈ [two_field_line] ∧
  TEXTBOUND_LINE (rstrip_newline two_field_line) = true ∧
  malformed (rstrip_newline two_field_line) ∧
  parse_textbounds no_options [two_field_line] = Raise ValueError.
Proof.
  assert (two_field_line ∈ [two_field_line]) as Hin by left.
  assert (TEXTBOUND_LINE (rstrip_newline two_field_line) = true) as Htb
    by reflexivity.
  assert (malformed (rstrip_newline two_field_line)) as Hbad by exact I.
  split_and!; [done.. |].
  exact (parse_textbounds_malformed no_options [two_field_line] two_field_line
           Hin Htb Hbad).
Defined.

(** Claim C4, as stated, fails: a textbound line of two fields, and one
    whose start offset is not a number, both end [parse_textbounds] with a
    [ValueError]. *)
Lemma parse_textbounds_not_FormatError :
  TEXTBOUND_LINE (rstrip_newline two_field_line) = true ∧
  length (split_on tab (rstrip_newline two_field_line)) = 2%nat ∧
  parse_textbounds no_options [two_field_line] = Raise ValueError ∧
  parse_textbounds no_options [two_field_line] ≠ Raise FormatError ∧
  parse_textbounds no_options
    ["T1" +:+ String tab ("PERSON x 4" +:+ String tab "John")] = Raise ValueError.
Proof. split_and!; [reflexivity.. | done | reflexivity]. Qed.

(** Claim C5, as amended.  When every line of the stream parses and an
    attribute line names an entity id that is not a key of the textbound
    mapping, then with attribute-appending enabled [parse_textbounds] raises
    [KeyError]; with it disabled the attributes are not consulted and the
    spans of the mapping are returned. *)
Theorem parse_textbounds_unknown_entity (opts : options) (f : list string)
    (st : parse_state) (l : string) (a : string * string) :
  parse_lines ([], []) f = Return st →
  l ∈ f →
  TEXTBOUND_LINE (rstrip_newline l) = false →
  ATTRIBUTE_LINE (rstrip_newline l) = true →
  attribute_of (rstrip_newline l) = Some a →
  dict_get a.1 st.1 = None →
  (attributes opts = true → parse_textbounds opts f = Raise KeyError) ∧
  (attributes opts = false →
   parse_textbounds opts f = Return (to_textbound <$> st.1)).
Proof.
  intros Hparse Hin Htb Hat Ha Hkey. unfold parse_textbounds, fold_attributes.
  rewrite Hparse. split; intros ->; [|done].
  rewrite (append_attributes_missing st.1 _ a); [done | | done].
  rewrite merge_sort_Permutation.
  by apply (parse_lines_attribute ([], []) st f l).
Qed.

Lemma parse_textbounds_unknown_entity_witness :
  parse_lines ([], []) [john_ann; stray_attribute] =
    Return ([("T1", (0, 4, ["PERSON"], "John"))], [("T9", "Negation")]) ∧
  parse_textbounds with_attributes [john_ann; stray_attribute] = Raise KeyError.
Proof.
  split; [reflexivity |].
  refine (proj1 (parse_textbounds_unknown_entity with_attributes
            [john_ann; stray_attribute]
            ([("T1", (0, 4, ["PERSON"], "John"))], [("T9", "Negation")])
            stray_attribute ("T9", "Negation") _ _ _ _ _ _) _);
    try reflexivity.
  apply list_elem_of_further, list_elem_of_here.
Defined.

(** Claim C5, as stated, fails: with attribute-appending enabled, an
    attribute line for the unknown id [T9] ends [parse_textbounds] with a
    [KeyError], whereas the stream without that line gives the span. *)
Lemma parse_textbounds_stray_attribute :
  parse_textbounds with_attributes [john_ann; stray_attribute] = Raise KeyError ∧
  parse_textbounds with_attributes [john_ann] =
    Return [mkTextbound 0 4 "PERSON" "John"].
Proof. split; vm_compute; reflexivity. Qed.

Section TokenizationFacts.

Lemma append_cons (c : ascii) (s t : string) :
  String c s +:+ t = String c (s +:+ t).
Proof. reflexivity. Qed.

Lemma append_empty_r (s : string) : s +:+ "" = s.
Proof. induction s as [|c s IH]; [done | by rewrite append_cons, IH]. Qed.

Lemma append_assoc (s1 s2 s3 : string) : (s1 +:+ s2) +:+ s3 = s1 +:+ (s2 +:+ s3).
Proof. induction s1 as [|c s1 IH]; [done | by rewrite !append_cons, IH]. Qed.

Lemma length_append (s1 s2 : string) :
  String.length (s1 +:+ s2) = (String.length s1 + String.length s2)%nat.
Proof. induction s1 as [|c s1 IH]; [done | rewrite append_cons; simpl; by rewrite IH]. Qed.

(** Joining with the empty separator. *)
Lemma flat_cons (t : string) (l : list string) :
  String.concat "" (t :: l) = t +:+ String.concat "" l.
Proof. destruct l; simpl; [by rewrite append_empty_r | done]. Qed.

Lemma flat_app (l1 l2 : list string) :
  String.concat "" (l1 ++ l2) = String.concat "" l1 +:+ String.concat "" l2.
Proof.
  induction l1 as [|t l1 IH]; [done |].
  rewrite <- app_comm_cons, !flat_cons, IH. by rewrite append_assoc.
Qed.

Lemma flat_nonempty (l : list string) :
  String.concat "" (nonempty l) = String.concat "" l.
Proof.
  unfold nonempty. induction l as [|t l IH]; [done |].
  rewrite filter_cons. destruct (decide (t ≠ "")) as [Hne|He].
  - by rewrite !flat_cons, IH.
  - apply dec_stable in He as ->. by rewrite flat_cons, IH.
Qed.

Lemma tokens_text_app (ss1 ss2 : list (list string)) :
  tokens_text (ss1 ++ ss2) = tokens_text ss1 +:+ tokens_text ss2.
Proof. unfold tokens_text. by rewrite concat_app, flat_app. Qed.

Lemma tokens_text_append_if_any (ss : list (list string)) (tokenized : list string) :
  tokens_text (append_if_any ss tokenized) =
    tokens_text ss +:+ String.concat "" tokenized.
Proof.
  destruct tokenized as [|t ts]; simpl; [by rewrite append_empty_r |].
  rewrite tokens_text_app. f_equal. unfold tokens_text. simpl.
  by rewrite app_nil_r.
Qed.

Lemma span_append (p : ascii → bool) (s : string) :
  (span p s).1 +:+ (span p s).2 = s.
Proof.
  induction s as [|c s IH]; simpl; [done |].
  destruct (p c); simpl; [by rewrite append_cons, IH | done].
Qed.

Lemma span_first (p : ascii → bool) (c : ascii) (s : string) :
  p c = true → (span p (String c s)).1 ≠ "".
Proof. simpl. by intros ->. Qed.

Lemma TOKENIZATION_REGEX_ok : matcher_ok TOKENIZATION_REGEX.
Proof.
  intros [|c s] tok rest; [done |]. unfold TOKENIZATION_REGEX.
  destruct (is_alnum c) eqn:Hc.
  - intros [= Hspan]. change (span is_alnum (String c s) = (tok, rest)) in Hspan.
    pose proof (span_append is_alnum (String c s)) as Happ.
    pose proof (span_first is_alnum c s Hc) as Hne.
    rewrite Hspan in Happ, Hne. done.
  - by intros [= <- <-].
Qed.

Lemma TOKENIZATION_REGEX_total : matcher_total TOKENIZATION_REGEX.
Proof. intros c s. simpl. destruct (is_alnum c); eauto. Qed.

Lemma PRETOKENIZED_REGEX_ok : matcher_ok PRETOKENIZED_REGEX.
Proof.
  intros [|c s] tok rest; [done |]. unfold PRETOKENIZED_REGEX.
  destruct (is_space c) eqn:Hc; intros [= Hspan].
  - change (span is_space (String c s) = (tok, rest)) in Hspan.
    pose proof (span_append is_space (String c s)) as Happ.
    pose proof (span_first is_space c s Hc) as Hne.
    rewrite Hspan in Happ, Hne. done.
  - change (span (fun c => negb (is_space c)) (String c s) = (tok, rest)) in Hspan.
    pose proof (span_append (fun c => negb (is_space c)) (String c s)) as Happ.
    pose proof (span_first (fun c => negb (is_space c)) c s) as Hne.
    rewrite Hspan in Happ, Hne. rewrite Hc in Hne. split; [done | by apply Hne].
Qed.

Lemma PRETOKENIZED_REGEX_total : matcher_total PRETOKENIZED_REGEX.
Proof. intros c s. unfold PRETOKENIZED_REGEX. destruct (is_space c); eauto. Qed.

Lemma NEWLINE_TERM_REGEX_ok : matcher_ok NEWLINE_TERM_REGEX.
Proof.
  intros s. induction s as [|c s IH]; intros tok rest; simpl; [done |].
  destruct (decide (c = newline)).
  - by intros [= <- <-].
  - destruct (NEWLINE_TERM_REGEX s) as [[m r]|]; [|done].
    intros [= <- <-]. destruct (IH m r eq_refl) as [-> _]. done.
Qed.

Lemma matcher_ok_shorter (m : matcher) (s tok rest : string) :
  matcher_ok m → m s = Some (tok, rest) →
  (String.length rest < String.length s)%nat.
Proof.
  intros Hok Hm. destruct (Hok _ _ _ Hm) as [-> Hne].
  rewrite length_append. destruct tok; [done | simpl; lia].
Qed.

(** The pieces that [split] returns make up the text, and the fuel given
    by [re_split] is enough for the scan to reach its end. *)
Lemma re_split_from_flat (m : matcher) (fuel : nat) (gap s : string) :
  matcher_ok m →
  (String.length s ≤ fuel)%nat →
  String.concat "" (re_split_from m fuel gap s) = gap +:+ s.
Proof.
  intros Hok. revert gap s.
  induction fuel as [|fuel IH]; intros gap s Hlen.
  - destruct s; [simpl; by rewrite append_empty_r | simpl in Hlen; lia].
  - destruct s as [|c s]; [simpl; by rewrite append_empty_r |].
    simpl. destruct (m (String c s)) as [[tok rest]|] eqn:Hm.
    + pose proof (matcher_ok_shorter m _ _ _ Hok Hm) as Hshort.
      destruct (Hok _ _ _ Hm) as [Heq _].
      rewrite !flat_cons, IH by (simpl in *; lia).
      simpl. by rewrite Heq.
    + rewrite IH by (simpl in *; lia). by rewrite append_assoc.
Qed.

Lemma re_split_flat (m : matcher) (s : string) :
  matcher_ok m → String.concat "" (re_split m s) = s.
Proof. intros Hok. unfold re_split. by rewrite re_split_from_flat. Qed.

Lemma re_findall_from_flat (m : matcher) (fuel : nat) (s : string) :
  matcher_ok m → matcher_total m →
  (String.length s ≤ fuel)%nat →
  String.concat "" (re_findall_from m fuel s) = s.
Proof.
  intros Hok Htot. revert s.
  induction fuel as [|fuel IH]; intros s Hlen.
  - destruct s; [done | simpl in Hlen; lia].
  - destruct s as [|c s]; [done |].
    simpl. destruct (Htot c s) as [[tok rest] Hm]. rewrite Hm.
    pose proof (matcher_ok_shorter m _ _ _ Hok Hm) as Hshort.
    destruct (Hok _ _ _ Hm) as [Heq _].
    rewrite flat_cons, IH by (simpl in *; lia). by rewrite Heq.
Qed.

Lemma re_findall_flat (m : matcher) (s : string) :
  matcher_ok m → matcher_total m → String.concat "" (re_findall m s) = s.
Proof. intros. unfold re_findall. by rewrite re_findall_from_flat. Qed.

(** The tokens of a chunk under the [regex] strategy, and of a line under
    the [none] strategy, make up the chunk and the line. *)
Lemma regex_tokens_flat (s : string) :
  String.concat "" (nonempty (re_split TOKENIZATION_REGEX s)) = s.
Proof. rewrite flat_nonempty. apply re_split_flat, TOKENIZATION_REGEX_ok. Qed.

Lemma none_tokens_flat (line : string) :
  String.concat "" (nonempty (re_findall PRETOKENIZED_REGEX line)) = line.
Proof.
  rewrite flat_nonempty.
  apply re_findall_flat; [apply PRETOKENIZED_REGEX_ok | apply PRETOKENIZED_REGEX_total].
Qed.

Lemma foldl_tokens_text {A : Type} (step : list (list string) → A → list (list string))
    (piece : A → string) (l : list A) (ss : list (list string)) :
  (∀ ss a, tokens_text (step ss a) = tokens_text ss +:+ piece a) →
  tokens_text (foldl step ss l) = tokens_text ss +:+ String.concat "" (piece <$> l).
Proof.
  intros Hstep. revert ss. induction l as [|a l IH]; intros ss.
  - simpl. by rewrite append_empty_r.
  - change (foldl step ss (a :: l)) with (foldl step (step ss a) l).
    by rewrite IH, Hstep, fmap_cons, flat_cons, append_assoc.
Qed.

(** Under the [none] strategy the tokens of a file make up the file. *)
Lemma sentences_none_text (f : list string) :
  tokens_text (sentences_none f) = String.concat "" f.
Proof.
  unfold sentences_none.
  rewrite (foldl_tokens_text _ (fun line => line)).
  - by rewrite list_fmap_id.
  - intros ss line. by rewrite tokens_text_append_if_any, none_tokens_flat.
Qed.

(** Under the [regex] strategy they make up the lines that the sentence
    splitter returned. *)
Lemma sentences_regex_text (splitter : string → string) (f : list string) :
  tokens_text (sentences_regex splitter f) = String.concat "" (splitter <$> f).
Proof.
  unfold sentences_regex.
  apply (foldl_tokens_text _ splitter f []).
  intros ss line.
  rewrite (foldl_tokens_text _ (fun s => s)).
  - rewrite list_fmap_id. f_equal. apply re_split_flat, NEWLINE_TERM_REGEX_ok.
  - intros ss' s'. by rewrite tokens_text_append_if_any, regex_tokens_flat.
Qed.

(** Under the [syntok] strategy the tokens end with the newline appended
    after the last paragraph, whatever the library returned. *)
Lemma sentences_syntok_text (analyze : string → list (list (list syntok_token)))
    (f : list string) :
  tokens_text (sentences_syntok analyze f) = "" ∨
  ∃ t, tokens_text (sentences_syntok analyze f) = t +:+ String newline "".
Proof.
  unfold sentences_syntok.
  destruct (analyze (String.concat "" f)) as [|p ps _] using rev_ind; [by left |].
  right. rewrite foldl_app. simpl. rewrite tokens_text_app. eauto.
Qed.

Lemma token_lines_placeholder (sentences : list (list string)) (offset : Z) :
  Forall placeholder (token_lines offset sentences).
Proof.
  revert offset. induction sentences as [|tokenized rest IH]; intros offset; simpl;
    [constructor |].
  repeat apply Forall_app_2; [| by destruct (_ : bool); repeat constructor | apply IH].
  generalize false. revert offset.
  induction tokenized as [|t ts IHt]; intros offset seen; simpl; [constructor |].
  destruct (isspace t); simpl; [apply IHt |]. constructor; [done | apply IHt].
Qed.

End TokenizationFacts.

Example tokenize_john :
  sentences_regex (fun l => l) ["John ran." +:+ String newline ""] =
  [["John"; " "; "ran"; "."; String newline ""]].
Proof. vm_compute. reflexivity. Qed.

Example token_lines_john :
  token_lines 0 [["John"; " "; "ran"; "."; String newline ""]] = john_lines.
Proof. vm_compute. reflexivity. Qed.

(** Claim C3 at the input ["a"] with the [syntok] strategy.  Whatever the
    library returns for the document, the tokens of [text_to_conll] do not
    make up the document: they are none, or they end with the newline that
    line 162 appends. *)
Theorem syntok_tokens_differ (splitter : string → string)
    (analyze : string → list (list (list syntok_token))) :
  tokens_text
    (sentences splitter analyze (mkOptions None false PreSyntok) ["a"]) ≠ "a".
Proof.
  unfold sentences. simpl.
  destruct (sentences_syntok_text analyze ["a"]) as [->|[t ->]]; [done |].
  destruct t as [|c [|c' t]]; done.
Qed.

Section ConvertFacts.

Lemma token_record_id (idnum offset : Z) (tok : conlltok) (record : ann_record) :
  token_record idnum offset tok = Return record → ann_id record = idnum.
Proof.
  unfold token_record, tokstr. intros H.
  repeat (case_match; try done). by simplify_eq.
Qed.

Lemma sentence_loop_ids (idnum offset : Z) (conllsent : list conlltok)
    (toks : list string) (records : list ann_record) (idnum' offset' : Z) :
  length conllsent = length toks →
  sentence_loop idnum offset conllsent toks = Return (records, idnum', offset') →
  idnum' = idnum + Z.of_nat (length conllsent) ∧
  ann_id <$> records = seqZ idnum (Z.of_nat (length conllsent)).
Proof.
  revert idnum offset toks records.
  induction conllsent as [|tok cs IH]; intros idnum offset toks records Hlen.
  - destruct toks; [|done]. simpl. intros [= <- <- <-]. split; [lia | done].
  - destruct toks as [|t toks]; [done |]. simpl.
    destruct (token_record idnum offset tok) as [record|] eqn:Hrec; [|done].
    destruct (sentence_loop _ _ cs toks) as [[[rs i'] o']|] eqn:Hloop; [|done].
    intros [= <- <- <-].
    apply IH in Hloop as [-> Hids]; [|by injection Hlen].
    split; [lia |].
    rewrite fmap_cons, Hids, (token_record_id _ _ _ _ Hrec).
    rewrite (seqZ_cons idnum) by lia. f_equal. f_equal; lia.
Qed.

Lemma token_count_cons (conllsent : list conlltok) (conlldata : list (list conlltok)) :
  token_count (conllsent :: conlldata) =
    Z.of_nat (length conllsent) + token_count conlldata.
Proof. unfold token_count. simpl. rewrite length_app. lia. Qed.

Lemma token_count_nonneg (conlldata : list (list conlltok)) :
  0 ≤ token_count conlldata.
Proof. unfold token_count. lia. Qed.

Lemma seqZ_add (a x y : Z) :
  0 ≤ x → 0 ≤ y → seqZ a x ++ seqZ (a + x) y = seqZ a (x + y).
Proof. intros. by rewrite seqZ_app. Qed.

(** While fewer than 999 identifiers are in use at the end of every
    sentence, all the records go to the open pair of files. *)
Lemma document_loop_single (ann : list ann_record) (txt : list string)
    (idnum offset : Z) (conlldata : list (list conlltok))
    (tokenized : list (list string)) (segments : list segment) :
  length conlldata = length tokenized →
  document_loop ann txt idnum offset conlldata tokenized = Return segments →
  idnum + token_count conlldata < 1000 →
  ∃ records lines,
    segments = [(ann ++ records, txt ++ lines)] ∧
    ann_id <$> records = seqZ idnum (token_count conlldata).
Proof.
  revert ann txt idnum offset tokenized.
  induction conlldata as [|cs cd IH]; intros ann txt idnum offset tk Hlen.
  - destruct tk; [|done]. simpl. intros [= <-] _.
    exists [], []. by rewrite !app_nil_r.
  - destruct tk as [|ts tk]; [done |]. simpl.
    destruct (decide (length cs ≠ length (tail ts))) as [|Heq%dec_stable]; [done |].
    destruct (head ts) as [key|]; [|done].
    destruct (sentence_loop _ _ cs (tail ts)) as [[[rs i'] o']|] eqn:Hloop; [|done].
    apply (sentence_loop_ids _ _ _ _ _ _ _ Heq) in Hloop as [-> Hids].
    rewrite token_count_cons. intros Hrun Hsmall.
    pose proof (token_count_nonneg cd).
    destruct (1000 <=? idnum + Z.of_nat (length cs)) eqn:Hcut;
      [apply Z.leb_le in Hcut; lia |].
    apply IH in Hrun as (records & lines & -> & Hrec);
      [| by injection Hlen | lia].
    exists (rs ++ records), ([txt_line ts] ++ lines).
    rewrite !(assoc_L (++)). split; [done |].
    rewrite fmap_app, Hids, Hrec. apply seqZ_add; lia.
Qed.

(** When the identifiers in use reach 999 at the end of some sentence, and
    no more than 998 tokens follow, there are two pairs of files: the first
    is closed at the end of the first such sentence, and the second is what
    the loop gives from its initial state on the remaining sentences. *)
Lemma document_loop_two (ann : list ann_record) (txt : list string)
    (idnum offset : Z) (conlldata : list (list conlltok))
    (tokenized : list (list string)) (segments : list segment) :
  length conlldata = length tokenized →
  document_loop ann txt idnum offset conlldata tokenized = Return segments →
  idnum < 1000 →
  1000 ≤ idnum + token_count conlldata ≤ 1998 →
  ∃ n records lines second,
    segments = [(ann ++ records, txt ++ lines); second] ∧
    ann_id <$> records = seqZ idnum (token_count (take n conlldata)) ∧
    1000 ≤ idnum + token_count (take n conlldata) ∧
    (∀ m, (m < n)%nat → idnum + token_count (take m conlldata) < 1000) ∧
    document_loop [] [] 1 0 (drop n conlldata) (drop n tokenized)
      = Return [second] ∧
    segment_ids second =
      seqZ 1 (token_count conlldata - token_count (take n conlldata)).
Proof.
  revert ann txt idnum offset tokenized.
  induction conlldata as [|cs cd IH]; intros ann txt idnum offset tk Hlen.
  - unfold token_count. simpl. lia.
  - destruct tk as [|ts tk]; [done |]. simpl.
    destruct (decide (length cs ≠ length (tail ts))) as [|Heq%dec_stable]; [done |].
    destruct (head ts) as [key|]; [|done].
    destruct (sentence_loop _ _ cs (tail ts)) as [[[rs i'] o']|] eqn:Hloop; [|done].
    apply (sentence_loop_ids _ _ _ _ _ _ _ Heq) in Hloop as [-> Hids].
    rewrite token_count_cons. intros Hrun Hid Htotal.
    pose proof (token_count_nonneg cd).
    destruct (1000 <=? idnum + Z.of_nat (length cs)) eqn:Hcut.
    + apply Z.leb_le in Hcut.
      destruct (document_loop [] [] 1 0 cd tk) as [rest|] eqn:Hrest; [|done].
      injection Hrun as <-.
      pose proof Hrest as Hrest'.
      apply document_loop_single in Hrest' as (records & lines & -> & Hrec);
        [| by injection Hlen | lia].
      exists 1%nat, rs, [txt_line ts], (records, lines).
      change (take 1 (cs :: cd)) with [cs].
      change (drop 1 (cs :: cd)) with cd. change (drop 1 (ts :: tk)) with tk.
      rewrite token_count_cons.
      change (token_count []) with 0. rewrite Z.add_0_r.
      split_and!; [done | done | done | | done | ].
      * intros m Hm. replace m with 0%nat by lia. simpl.
        change (token_count []) with 0. lia.
      * unfold segment_ids. simpl. rewrite Hrec. f_equal. lia.
    + apply Z.leb_gt in Hcut.
      apply IH in Hrun
        as (n & records & lines & second & -> & Hrec & Hreach & Hfirst & Hsecond & Hids2);
        [| by injection Hlen | lia | lia].
      exists (S n), (rs ++ records), ([txt_line ts] ++ lines), second.
      rewrite !(assoc_L (++)). simpl. rewrite token_count_cons.
      split_and!; [done | | lia | | done | ].
      * rewrite fmap_app, Hids, Hrec. apply seqZ_add; [lia | apply token_count_nonneg].
      * intros [|m] Hm; simpl.
        -- change (token_count []) with 0. lia.
        -- rewrite token_count_cons.
           assert (m < n)%nat as Hm' by lia. specialize (Hfirst m Hm'). lia.
      * rewrite Hids2. f_equal. lia.
Qed.

End ConvertFacts.

Example convert_singles :
  segment_ids <$> returned (convert doc_singles.1 doc_singles.2) =
  [seqZ 1 999; seqZ 1 2].
Proof. vm_compute. reflexivity. Qed.

Example convert_pairs :
  segment_ids <$> returned (convert doc_pairs.1 doc_pairs.2) =
  [seqZ 1 1000; seqZ 1 1].
Proof. vm_compute. reflexivity. Qed.

(** Claim C6, as amended.  For a document of 1001 tokens that [main]
    converts without error, exactly two pairs of files are written.  The
    first is closed at the end of the first sentence by which at least 999
    identifiers have been given: it holds the identifiers [1..k] with
    [999 <= k <= 1001].  The second holds [1..1001-k], and is what the
    converter writes for the remaining sentences alone, that is with the
    identifier back to 1 and the offset back to 0. *)
Theorem convert_1001_tokens (conlldata : list (list conlltok))
    (tokenized : list (list string)) (segments : list segment) :
  convert conlldata tokenized = Return segments →
  token_count conlldata = 1001 →
  ∃ n first second,
    segments = [first; second] ∧
    999 ≤ token_count (take n conlldata) ≤ 1001 ∧
    (∀ m, (m < n)%nat → token_count (take m conlldata) < 999) ∧
    segment_ids first = seqZ 1 (token_count (take n conlldata)) ∧
    segment_ids second = seqZ 1 (1001 - token_count (take n conlldata)) ∧
    convert (drop n conlldata) (drop n tokenized) = Return [second].
Proof.
  unfold convert.
  destruct (decide (length conlldata ≠ length tokenized)) as [|Hlen%dec_stable];
    [done |].
  intros Hrun Htotal.
  apply document_loop_two in Hrun
    as (n & records & lines & second & -> & Hrec & Hreach & Hfirst & Hsecond & Hids2);
    [| done | lia | lia].
  exists n, (records, lines), second.
  assert (token_count (take n conlldata) ≤ token_count conlldata) as Hle.
  { rewrite <- (take_drop n conlldata) at 2. unfold token_count.
    rewrite concat_app, length_app. lia. }
  split_and!; [done | lia | lia | | done | by rewrite <- Htotal | ].
  - intros m Hm. specialize (Hfirst m Hm). lia.
  - rewrite decide_False; [done |]. rewrite !length_drop. lia.
Qed.

Lemma convert_1001_tokens_witness :
  convert doc_pairs.1 doc_pairs.2 =
    Return (returned (convert doc_pairs.1 doc_pairs.2)) ∧
  token_count doc_pairs.1 = 1001 ∧
  ∃ n first second,
    returned (convert doc_pairs.1 doc_pairs.2) = [first; second] ∧
    999 ≤ token_count (take n doc_pairs.1) ≤ 1001 ∧
    (∀ m, (m < n)%nat → token_count (take m doc_pairs.1) < 999) ∧
    segment_ids first = seqZ 1 (token_count (take n doc_pairs.1)) ∧
    segment_ids second = seqZ 1 (1001 - token_count (take n doc_pairs.1)) ∧
    convert (drop n doc_pairs.1) (drop n doc_pairs.2) = Return [second].
Proof.
  assert (convert doc_pairs.1 doc_pairs.2 =
            Return (returned (convert doc_pairs.1 doc_pairs.2))) as Hrun
    by (vm_compute; reflexivity).
  assert (token_count doc_pairs.1 = 1001) as Htotal by (vm_compute; reflexivity).
  split_and!; [exact Hrun | exact Htotal |].
  exact (convert_1001_tokens doc_pairs.1 doc_pairs.2 _ Hrun Htotal).
Defined.

(** Claim C6, as stated, fails.  With one token per sentence the first pair
    of files ends at identifier 999 and the second holds 1 and 2; with all
    the tokens in one sentence the first holds 1 to 1001 and the second is
    empty. *)
Lemma convert_1001_not_1000 :
  token_count doc_singles.1 = 1001 ∧
  segment_ids <$> returned (convert doc_singles.1 doc_singles.2) =
    [seqZ 1 999; seqZ 1 2] ∧
  token_count doc_one_sentence.1 = 1001 ∧
  segment_ids <$> returned (convert doc_one_sentence.1 doc_one_sentence.2) =
    [seqZ 1 1001; []] ∧
  seqZ 1 999 ≠ seqZ 1 1000 ∧ seqZ 1 1001 ≠ seqZ 1 1000.
Proof.
  split_and!; [vm_compute; reflexivity.. | |];
    intros H; apply (f_equal length) in H; rewrite !length_seqZ in H; lia.
Qed.

(** * Further properties of the overlap resolver *)

Section SurvivorFacts.

Variable heap : nat -> Textbound.

Lemma victim_other_not_shorter (t1 t2 : nat) :
  (victim heap t1 t2 = heap t1 ∧ span_len (heap t1) ≤ span_len (heap t2)) ∨
  (victim heap t1 t2 = heap t2 ∧ span_len (heap t2) < span_len (heap t1)).
Proof.
  unfold victim. destruct (span_len (heap t2) <? span_len (heap t1)) eqn:Hlt.
  - right. apply Z.ltb_lt in Hlt. done.
  - left. apply Z.ltb_ge in Hlt. done.
Qed.

(** A reference survives exactly when every other reference of the list
    that overlaps it points to a strictly shorter span. *)
Lemma survivor_iff (l : list nat) (t : nat) :
  t ∈ (eliminate_overlaps heap l).1 ↔
  t ∈ l ∧ ∀ u, u ∈ l → u ≠ t → overlaps (heap t) (heap u) = true →
               span_len (heap u) < span_len (heap t).
Proof.
  rewrite eliminate_overlaps_elem. split.
  - intros [Hin Hkeep]. split; [done |]. intros u Hu Hne Hov.
    destruct (Z.lt_ge_cases (span_len (heap u)) (span_len (heap t))) as [|Hge];
      [done |].
    destruct Hkeep. apply eliminated_elim. exists t, u.
    split_and!; [done | done | by split | ].
    unfold victim.
    destruct (span_len (heap u) <? span_len (heap t)) eqn:E;
      [apply Z.ltb_lt in E; lia | done].
  - intros [Hin Hlonger]. split; [done |].
    intros (t1 & t2 & H1 & H2 & [Hne Hov] & Hv)%eliminated_elim.
    destruct (victim_other_not_shorter t1 t2) as [[Hv1 Hlen]|[Hv2 Hlen]].
    + rewrite Hv1 in Hv. destruct (decide (t2 = t)) as [->|Hd].
      * assert (span_len (heap t1) < span_len (heap t)) as Hlt.
        { apply Hlonger; [done | done |]. rewrite overlaps_sym. exact Hov. }
        rewrite Hv in Hlt. lia.
      * assert (span_len (heap t2) < span_len (heap t)) as Hlt.
        { apply Hlonger; [done | done |]. rewrite Hv. exact Hov. }
        rewrite Hv in Hlt. lia.
    + rewrite Hv2 in Hv. destruct (decide (t1 = t)) as [->|Hd].
      * rewrite Hv in Hlen. lia.
      * assert (span_len (heap t1) < span_len (heap t)) as Hlt.
        { apply Hlonger; [done | done |]. rewrite Hv, overlaps_sym. exact Hov. }
        rewrite Hv in Hlt. lia.
Qed.

Lemma no_clash_eliminated (l : list nat) :
  (∀ a b, a ∈ l → b ∈ l → a ≠ b → overlaps (heap a) (heap b) = false) →
  eliminated heap l = (∅, []).
Proof.
  intros Hfree.
  assert (∀ t1 t2, t1 ∈ l → t2 ∈ l → ¬ clash heap t1 t2) as Hno.
  { intros t1 t2 H1 H2 [Hne Hov]. by rewrite (Hfree t1 t2) in Hov. }
  destruct (eliminated heap l) as [keys log] eqn:He. f_equal.
  - apply set_eq. intros v. split; [|set_solver].
    intros Hv. exfalso.
    assert (v ∈ (eliminated heap l).1) as Hv' by (by rewrite He).
    apply eliminated_elim in Hv' as (t1 & t2 & H1 & H2 & Hc & _). by apply (Hno t1 t2).
  - destruct log as [|w log]; [done |]. exfalso.
    assert (w ∈ (eliminated heap l).2) as Hw by (rewrite He; left).
    apply eliminated_log in Hw as (t1 & t2 & H1 & H2 & Hc & _). by apply (Hno t1 t2).
Qed.

Lemma no_clash_unchanged (l : list nat) :
  (∀ a b, a ∈ l → b ∈ l → a ≠ b → overlaps (heap a) (heap b) = false) →
  eliminate_overlaps heap l = (l, []).
Proof.
  intros Hfree. unfold eliminate_overlaps. rewrite (no_clash_eliminated l Hfree).
  simpl. f_equal. induction l as [|t l IH]; [done |].
  rewrite filter_cons_True by set_solver. f_equal. apply IH.
  intros a b Ha Hb. apply Hfree; by right.
Qed.

Lemma survivors_do_not_overlap (l : list nat) (a b : nat) :
  a ∈ (eliminate_overlaps heap l).1 → b ∈ (eliminate_overlaps heap l).1 →
  a ≠ b → overlaps (heap a) (heap b) = false.
Proof.
  intros [Ha Hla]%survivor_iff [Hb Hlb]%survivor_iff Hne.
  destruct (overlaps (heap a) (heap b)) eqn:Hov; [exfalso | done].
  assert (span_len (heap b) < span_len (heap a)) by (by apply Hla).
  assert (span_len (heap a) < span_len (heap b)).
  { apply Hlb; [done | done |]. by rewrite overlaps_sym. }
  lia.
Qed.

End SurvivorFacts.

(** Property X1.  A span is kept by [eliminate_overlaps] exactly when every
    other span of the input that overlaps it is strictly shorter: it goes as
    soon as one overlapping span is as long or longer, whether or not that
    span is itself kept. *)
Theorem eliminate_overlaps_survivors (heap : nat -> Textbound) (l : list nat)
    (t : nat) :
  t ∈ (eliminate_overlaps heap l).1 ↔
  t ∈ l ∧ ∀ u, u ∈ l → u ≠ t → overlaps (heap t) (heap u) = true →
               span_len (heap u) < span_len (heap t).
Proof. apply survivor_iff. Qed.

(** Property X2.  When no two distinct spans of the input overlap,
    [eliminate_overlaps] returns the list as it is and prints nothing. *)
Theorem eliminate_overlaps_no_overlap (heap : nat -> Textbound) (l : list nat) :
  (∀ a b, a ∈ l → b ∈ l → a ≠ b → overlaps (heap a) (heap b) = false) →
  eliminate_overlaps heap l = (l, []).
Proof. apply no_clash_unchanged. Qed.

Lemma eliminate_overlaps_no_overlap_witness :
  eliminate_overlaps apart_heap [0; 1]%nat = ([0; 1]%nat, []).
Proof.
  apply (eliminate_overlaps_no_overlap apart_heap [0; 1]%nat).
  intros a b Ha Hb Hne.
  apply elem_of_cons in Ha as [->|Ha%list_elem_of_singleton];
    apply elem_of_cons in Hb as [->|Hb%list_elem_of_singleton]; subst;
    done || reflexivity.
Defined.

(** Property X3.  Resolving twice changes nothing: on its own output
    [eliminate_overlaps] returns that output, with no warning. *)
Theorem eliminate_overlaps_idempotent (heap : nat -> Textbound) (l : list nat) :
  eliminate_overlaps heap (eliminate_overlaps heap l).1 =
    ((eliminate_overlaps heap l).1, []).
Proof.
  apply no_clash_unchanged. intros a b Ha Hb Hne.
  by apply (survivors_do_not_overlap heap l).
Qed.

(** * Further properties of [relabel] and [get_annotations] *)

Section WarningFacts.

Variable fname : string.

Lemma claim_loop_log_mono (tb : Textbound) (os : list Z)
    (st : gmap Z Textbound * list warning) (w : warning) :
  w ∈ st.2 → w ∈ (foldl (claim fname tb) st os).2.
Proof.
  revert st. induction os as [|a os IH]; intros st Hw; simpl; [done |].
  apply IH. unfold claim. simpl.
  destruct (decide (is_Some (st.1 !! a))); [|done]. apply elem_of_app. by left.
Qed.

Lemma claim_loop_warned (tb : Textbound) (os : list Z)
    (st : gmap Z Textbound * list warning) (w : warning) :
  NoDup os →
  w ∈ (foldl (claim fname tb) st os).2 →
  w ∈ st.2 ∨ ∃ o, o ∈ os ∧ is_Some (st.1 !! o).
Proof.
  revert st. induction os as [|a os IH]; intros st Hnd; simpl; [by left |].
  apply NoDup_cons in Hnd as [Ha Hnd].
  intros [Hw|(o & Ho & Hsome)]%IH; [| | done].
  - unfold claim in Hw. simpl in Hw.
    destruct (decide (is_Some (st.1 !! a))) as [Hsome|]; [|by left].
    apply elem_of_app in Hw as [?|_]; [by left |].
    right. exists a. split; [left | done].
  - right. exists o. split; [by right |].
    unfold claim in Hsome. simpl in Hsome.
    rewrite lookup_insert_ne in Hsome; [done |]. by intros ->.
Qed.

Lemma claim_loop_taken (tb : Textbound) (os : list Z)
    (st : gmap Z Textbound * list warning) (o : Z) :
  o ∈ os → is_Some (st.1 !! o) →
  OverlappingAnnotations fname ∈ (foldl (claim fname tb) st os).2.
Proof.
  revert st. induction os as [|a os IH]; intros st Ho Hsome; [by inversion Ho |].
  simpl. destruct (decide (a = o)) as [->|Hne].
  - apply claim_loop_log_mono. unfold claim. simpl.
    rewrite decide_True by done. apply elem_of_app. right. by left.
  - apply IH.
    + apply elem_of_cons in Ho as [->|Ho]; done.
    + unfold claim. simpl. by rewrite lookup_insert_ne.
Qed.

Lemma covers_overlaps (o : Z) (a b : Textbound) :
  covers o a → covers o b → overlaps a b = true.
Proof.
  unfold covers, overlaps. intros Ha Hb.
  apply negb_true_iff, orb_false_iff. split; apply Z.leb_gt; lia.
Qed.

Lemma claim_spans_log_mono (annotations : list Textbound)
    (st : gmap Z Textbound * list warning) (w : warning) :
  w ∈ st.2 → w ∈ (foldl (claim_span fname) st annotations).2.
Proof.
  revert st. induction annotations as [|tb anns IH]; intros st Hw; [done |].
  simpl. apply IH. by apply claim_loop_log_mono.
Qed.

Lemma claim_spans_warned (annotations : list Textbound)
    (st : gmap Z Textbound * list warning) (w : warning) :
  w ∈ (foldl (claim_span fname) st annotations).2 →
  w ∈ st.2 ∨
  (∃ (j : nat) b o, annotations !! j = Some b ∧ covers o b ∧ is_Some (st.1 !! o)) ∨
  claimed_twice annotations.
Proof.
  revert st. induction annotations as [|tb anns IH]; intros st; simpl; [by left |].
  intros [Hw|[(j & b & o & Hb & Hob & Hsome)|Htwice]]%IH.
  - apply claim_loop_warned in Hw as [?|(o & Ho%elem_of_range & Hsome)];
      [by left | | apply NoDup_seqZ].
    right. left. by exists 0%nat, tb, o.
  - rewrite claim_span_lookup in Hsome.
    destruct (decide (covers o tb)) as [Hotb|_].
    + right. right. exists 0%nat, (S j), tb, b, o. split_and!; [lia | done..].
    + right. left. by exists (S j), b, o.
  - right. right. destruct Htwice as (i & j & a & b & o & Hij & Ha & Hb & Hoa & Hob).
    exists (S i), (S j), a, b, o. split_and!; [lia | done..].
Qed.

Lemma claim_spans_taken (annotations : list Textbound)
    (st : gmap Z Textbound * list warning) (j : nat) (b : Textbound) (o : Z) :
  annotations !! j = Some b → covers o b → is_Some (st.1 !! o) →
  OverlappingAnnotations fname ∈ (foldl (claim_span fname) st annotations).2.
Proof.
  revert st j. induction annotations as [|tb anns IH]; intros st j Hb Ho Hsome;
    [done |].
  simpl. destruct j as [|j]; simpl in Hb.
  - injection Hb as ->. apply claim_spans_log_mono.
    apply (claim_loop_taken _ _ _ o); [by apply elem_of_range | done].
  - apply (IH _ j); [done | done |]. rewrite claim_span_lookup.
    by destruct (decide (covers o tb)).
Qed.

Lemma claim_spans_twice (annotations : list Textbound)
    (st : gmap Z Textbound * list warning) :
  claimed_twice annotations →
  OverlappingAnnotations fname ∈ (foldl (claim_span fname) st annotations).2.
Proof.
  intros (i & j & a & b & o & Hij & Ha & Hb & Hoa & Hob).
  revert st i j Hij Ha Hb.
  induction annotations as [|tb anns IH]; intros st i j Hij Ha Hb; [done |].
  destruct j as [|j]; [lia |]. simpl in Hb. simpl.
  destruct i as [|i]; simpl in Ha.
  - injection Ha as ->. apply (claim_spans_taken _ _ j b o); [done | done |].
    rewrite claim_span_lookup. by rewrite decide_True.
  - apply (IH _ i j); [lia | done | done].
Qed.

Lemma find_label_log_only (ol : gmap Z Textbound) (s : Z) (token : string)
    (os : list Z) (w : warning) :
  w ∈ (find_label fname ol s token os).2 → ∃ text, w = BoundaryMismatch fname token text.
Proof.
  induction os as [|o os IH]; simpl; [by intros ?%elem_of_nil |].
  destruct (ol !! o) as [tb|]; [|done]. simpl.
  destruct (decide (o = s)); [by intros ?%elem_of_nil |].
  intros ->%list_elem_of_singleton. eauto.
Qed.

Lemma relabel_lines_log_only (ol : gmap Z Textbound) (prev : option string)
    (lines : list line) (w : warning) :
  w ∈ (relabel_lines fname ol prev lines).2 →
  ∃ token text, w = BoundaryMismatch fname token text.
Proof.
  revert prev. induction lines as [|[|tag s e token] lines IH]; intros prev; simpl.
  - by intros ?%elem_of_nil.
  - apply IH.
  - intros [Hw|Hw]%elem_of_app; [|by apply IH in Hw].
    apply find_label_log_only in Hw as [text ->]. eauto.
Qed.

Lemma overlapping_warning_iff (opts : options) (lines : list line)
    (annotations : list Textbound) :
  OverlappingAnnotations fname ∈ (relabel fname opts lines annotations).2 ↔
  claimed_twice annotations.
Proof.
  unfold relabel, build_offset_label. simpl. split.
  - intros [Hw|Hw]%elem_of_app.
    + apply claim_spans_warned in Hw
        as [Hw|[(j & b & o & _ & _ & Hsome)|Htwice]]; [| | done].
      * by apply elem_of_nil in Hw.
      * simpl in Hsome. rewrite lookup_empty in Hsome. by destruct Hsome.
    + apply relabel_lines_log_only in Hw as (? & ? & ?). done.
  - intros Htwice. apply elem_of_app. left. by apply claim_spans_twice.
Qed.

End WarningFacts.

Section AnnotationFacts.

Lemma heap_of_seq (textbounds : list Textbound) :
  heap_of textbounds <$> seq 0 (length textbounds) = textbounds.
Proof.
  apply list_eq. intros i. rewrite list_lookup_fmap.
  destruct (decide (i < length textbounds)%nat) as [Hlt|Hge].
  - rewrite lookup_seq_lt by done. simpl. unfold heap_of.
    destruct (lookup_lt_is_Some_2 textbounds i Hlt) as [tb ->]. done.
  - rewrite lookup_seq_ge by lia. by rewrite lookup_ge_None_2 by lia.
Qed.

Lemma resolved_once (textbounds : list Textbound) :
  ¬ claimed_twice
      (heap_of textbounds <$>
         (eliminate_overlaps (heap_of textbounds) (seq 0 (length textbounds))).1).
Proof.
  set (heap := heap_of textbounds).
  set (out := (eliminate_overlaps heap (seq 0 (length textbounds))).1).
  intros (i & j & a & b & o & Hij & Ha & Hb & Hoa & Hob).
  rewrite list_lookup_fmap in Ha, Hb.
  destruct (out !! i) as [ri|] eqn:Hri; [|done].
  destruct (out !! j) as [rj|] eqn:Hrj; [|done].
  injection Ha as <-. injection Hb as <-.
  assert (NoDup out) as Hnd.
  { apply NoDup_filter, NoDup_seq. }
  assert (ri ≠ rj) as Hne.
  { intros ->. pose proof (NoDup_lookup _ _ _ _ Hnd Hri Hrj). lia. }
  assert (overlaps (heap ri) (heap rj) = false) as Hfalse.
  { apply (survivors_do_not_overlap heap (seq 0 (length textbounds)));
      [by eapply list_elem_of_lookup_2.. | done]. }
  by rewrite (covers_overlaps o _ _ Hoa Hob) in Hfalse.
Qed.

Lemma relabel_lines_collapsed (fname : string) (ol : gmap Z Textbound) (c : string)
    (prev : option string) (lines : list line) :
  Forall placeholder lines →
  Forall2 (collapsed_to c) (relabel_lines fname ol prev lines).1
    (collapse c <$> (relabel_lines fname ol prev lines).1).
Proof.
  intros Hall. revert prev.
  induction Hall as [|l lines Hl _ IH]; intros prev; [constructor |].
  destruct l as [|tag s e token]; simpl in *.
  - constructor; [done | apply IH].
  - subst tag. constructor; [|apply IH].
    simpl. split_and!; [done.. |].
    destruct (find_label fname ol s token (range s e)) as [[lab|] w]; simpl.
    + destruct (decide (Some lab = prev)).
      * right. right. exists lab. split; [done |].
        unfold collapse_tag. simpl. by rewrite substring_0_0.
      * right. left. exists lab. split; [done |].
        unfold collapse_tag. simpl. by rewrite substring_0_0.
    + by left.
Qed.

End AnnotationFacts.

(** Property X4.  [relabel] prints its warning about overlapping
    annotations exactly when two spans at different places of the list
    claim a common offset. *)
Theorem relabel_overlapping_warning (fname : string) (opts : options)
    (lines : list line) (annotations : list Textbound) :
  OverlappingAnnotations fname ∈ (relabel fname opts lines annotations).2 ↔
  claimed_twice annotations.
Proof. apply overlapping_warning_iff. Qed.

(** Property X5.  What [get_annotations] returns is a subsequence of the
    spans that [parse_textbounds] read, and [relabel] never prints its
    warning about overlapping annotations on it. *)
Theorem get_annotations_resolved (opts : options) (f : list string)
    (annotations : list Textbound) (log : list warning) :
  get_annotations opts f = Return (annotations, log) →
  (∃ textbounds, parse_textbounds opts f = Return textbounds ∧
                 sublist annotations textbounds) ∧
  ∀ fname opts' lines,
    OverlappingAnnotations fname ∉ (relabel fname opts' lines annotations).2.
Proof.
  unfold get_annotations.
  destruct (parse_textbounds opts f) as [textbounds|] eqn:Hparse; [|done].
  intros [= <- <-]. split.
  - exists textbounds. split; [done |].
    rewrite <- (heap_of_seq textbounds) at 3.
    apply fmap_sublist, sublist_filter.
  - intros fname opts' lines Hw%overlapping_warning_iff.
    by apply resolved_once in Hw.
Qed.

Lemma get_annotations_resolved_witness :
  get_annotations no_options john_annotation_file =
    Return ([mkTextbound 0 4 "PERSON" "John"],
            [Eliminated (mkTextbound 0 2 "NAME" "Jo") (mkTextbound 0 4 "PERSON" "John");
             Eliminated (mkTextbound 0 2 "NAME" "Jo") (mkTextbound 0 4 "PERSON" "John")]) ∧
  ∀ fname opts' lines,
    OverlappingAnnotations fname
      ∉ (relabel fname opts' lines [mkTextbound 0 4 "PERSON" "John"]).2.
Proof.
  assert (get_annotations no_options john_annotation_file =
    Return ([mkTextbound 0 4 "PERSON" "John"],
            [Eliminated (mkTextbound 0 2 "NAME" "Jo") (mkTextbound 0 4 "PERSON" "John");
             Eliminated (mkTextbound 0 2 "NAME" "Jo") (mkTextbound 0 4 "PERSON" "John")]))
    as Hrun by (vm_compute; reflexivity).
  split; [exact Hrun |].
  exact (proj2 (get_annotations_resolved no_options john_annotation_file _ _ Hrun)).
Defined.

(** Property X6.  With a single class [c] configured, [relabel] returns, for
    placeholders, the records it returns without it, where each ['O'] is
    kept and each [B-<type>] or [I-<type>] has become [B-c] or [I-c]. *)
Theorem relabel_single_class (fname : string) (opts : options) (c : string)
    (lines : list line) (annotations : list Textbound) :
  Forall placeholder lines →
  c ≠ "" →
  Forall2 (collapsed_to c)
    (relabel fname (mkOptions None (attributes opts) (preprocess opts))
       lines annotations).1
    (relabel fname (mkOptions (Some c) (attributes opts) (preprocess opts))
       lines annotations).1.
Proof.
  intros Hall Hc. unfold relabel, single_classing. simpl.
  rewrite decide_False by done. by apply relabel_lines_collapsed.
Qed.

Lemma relabel_single_class_witness :
  Forall2 (collapsed_to "X")
    (relabel "ab.txt" (mkOptions None false PreRegex)
       two_types_lines two_types_spans).1
    (relabel "ab.txt" (mkOptions (Some "X") false PreRegex)
       two_types_lines two_types_spans).1.
Proof.
  apply (relabel_single_class "ab.txt" (mkOptions None false PreRegex) "X").
  - repeat constructor.
  - done.
Defined.

(** * Further properties of [text_to_conll] *)

Section OffsetFacts.

Lemma substring_all (t post : string) :
  String.substring 0 (String.length t) (t +:+ post) = t.
Proof.
  induction t as [|c t IH]; [apply substring_0_0 |].
  rewrite append_cons. simpl. by rewrite IH.
Qed.

(** [text[s:e]] when [text] is [pre], then [t], then [post], and [s] and [e]
    are the lengths of [pre] and of [pre] and [t]. *)
Lemma substring_middle (pre t post : string) :
  String.substring (String.length pre) (String.length t) (pre +:+ t +:+ post) = t.
Proof.
  induction pre as [|c pre IH]; [exact (substring_all t post) |].
  rewrite append_cons. simpl. apply IH.
Qed.

(** Where a record of one sentence lies in the text of that sentence. *)
Lemma sentence_lines_spec (offset : Z) (seen : bool) (tokenized : list string) :
  (sentence_lines offset seen tokenized).1.2 =
    offset + Z.of_nat (String.length (String.concat "" tokenized)) ∧
  ∀ l, l ∈ (sentence_lines offset seen tokenized).1.1 →
    ∃ pre t post,
      l = Tok "O" (offset + Z.of_nat (String.length pre))
            (offset + Z.of_nat (String.length pre) + Z.of_nat (String.length t)) t ∧
      isspace t = false ∧
      String.concat "" tokenized = pre +:+ t +:+ post.
Proof.
  revert offset seen. induction tokenized as [|t ts IH]; intros offset seen.
  - simpl. split; [lia | by intros l ?%elem_of_nil].
  - rewrite flat_cons, length_append. simpl.
    destruct (isspace t) eqn:Hsp.
    + destruct (IH (offset + Z.of_nat (String.length t)) seen) as [Hoff Hrec].
      split; [rewrite Hoff; lia |].
      intros l (pre & t' & post & -> & Ht' & Heq)%Hrec.
      exists (t +:+ pre), t', post. rewrite length_append, Heq, append_assoc.
      split_and!; [f_equal; lia | done | done].
    + destruct (IH (offset + Z.of_nat (String.length t)) true) as [Hoff Hrec].
      simpl. split; [rewrite Hoff; lia |].
      intros l [->|Hl]%elem_of_cons.
      * exists "", t, (String.concat "" ts). simpl.
        split_and!; [f_equal; lia | done | done].
      * apply Hrec in Hl as (pre & t' & post & -> & Ht' & Heq).
        exists (t +:+ pre), t', post. rewrite length_append, Heq, append_assoc.
        split_and!; [f_equal; lia | done | done].
Qed.

Lemma tokens_text_cons (tokenized : list string) (rest : list (list string)) :
  tokens_text (tokenized :: rest) = String.concat "" tokenized +:+ tokens_text rest.
Proof. unfold tokens_text. simpl. apply flat_app. Qed.

(** Where a record lies in the text of all the sentences. *)
Lemma token_lines_spec (offset : Z) (sentences : list (list string)) (l : line) :
  l ∈ token_lines offset sentences →
  l = Blank ∨
  ∃ pre t post,
    l = Tok "O" (offset + Z.of_nat (String.length pre))
          (offset + Z.of_nat (String.length pre) + Z.of_nat (String.length t)) t ∧
    isspace t = false ∧
    tokens_text sentences = pre +:+ t +:+ post.
Proof.
  revert offset. induction sentences as [|ts rest IH]; intros offset; simpl.
  - by intros ?%elem_of_nil.
  - destruct (sentence_lines_spec offset false ts) as [Hoff Hrec].
    rewrite tokens_text_cons.
    intros [Hl|[Hl|Hl]%elem_of_app]%elem_of_app.
    + right. apply Hrec in Hl as (pre & t & post & -> & Ht & Heq).
      exists pre, t, (post +:+ tokens_text rest).
      split_and!; [done | done |]. by rewrite Heq, !append_assoc.
    + left. destruct (sentence_lines offset false ts).2; [|by apply elem_of_nil in Hl].
      by apply list_elem_of_singleton in Hl.
    + apply IH in Hl as [->|(pre & t & post & -> & Ht & Heq)]; [by left | right].
      exists (String.concat "" ts +:+ pre), t, post.
      rewrite Hoff, length_append, Heq, append_assoc.
      split_and!; [f_equal; lia | done | done].
Qed.

Lemma token_lines_slice (sentences : list (list string)) (tag : string) (s e : Z)
    (t : string) :
  Tok tag s e t ∈ token_lines 0 sentences →
  tag = "O" ∧ isspace t = false ∧ 0 ≤ s ∧ e = s + Z.of_nat (String.length t) ∧
  String.substring (Z.to_nat s) (Z.to_nat (e - s)) (tokens_text sentences) = t.
Proof.
  intros [?|(pre & t' & post & Heq & Ht & Htext)]%token_lines_spec; [done |].
  injection Heq as -> -> -> <-.
  split_and!; [done | done | lia | lia |].
  rewrite Htext.
  replace (Z.to_nat (0 + Z.of_nat (String.length pre))) with (String.length pre) by lia.
  replace (Z.to_nat _) with (String.length t) by lia.
  apply substring_middle.
Qed.

End OffsetFacts.

(** Property X7.  Every token record that [text_to_conll] builds carries
    ['O'], holds a token that is not white space, and has the offsets of
    that token in the text made of all the tokens: [end - start] is the
    length of the token and [text[start:end]] is the token. *)
Theorem token_lines_offsets (sentences : list (list string)) (tag : string)
    (s e : Z) (t : string) :
  Tok tag s e t ∈ token_lines 0 sentences →
  tag = "O" ∧ isspace t = false ∧ 0 ≤ s ∧ e = s + Z.of_nat (String.length t) ∧
  String.substring (Z.to_nat s) (Z.to_nat (e - s)) (tokens_text sentences) = t.
Proof. apply token_lines_slice. Qed.

Lemma token_lines_offsets_witness :
  Tok "O" 5 8 "ran" ∈ token_lines 0 [["John"; " "; "ran"; "."; String newline ""]] ∧
  String.substring 5 3
    (tokens_text [["John"; " "; "ran"; "."; String newline ""]]) = "ran".
Proof.
  assert (Tok "O" 5 8 "ran"
            ∈ token_lines 0 [["John"; " "; "ran"; "."; String newline ""]]) as Hin.
  { vm_compute. apply list_elem_of_further, list_elem_of_here. }
  split; [exact Hin |].
  exact (proj2 (proj2 (proj2 (proj2 (token_lines_offsets _ _ _ _ _ Hin))))).
Defined.

(** Property X8.  With [--preprocess none], the offsets of every record
    that [text_to_conll] builds are those of its token in the input file:
    [text[start:end]] is the token, where [text] is the content of the
    file. *)
Theorem none_offsets_in_file (splitter : string → string)
    (analyze : string → list (list (list syntok_token)))
    (f : list string) (tag : string) (s e : Z) (t : string) :
  Tok tag s e t
    ∈ token_lines 0 (sentences splitter analyze (mkOptions None false PreNone) f) →
  String.substring (Z.to_nat s) (Z.to_nat (e - s)) (String.concat "" f) = t.
Proof.
  unfold sentences. simpl. intros (_ & _ & _ & _ & Hslice)%token_lines_slice.
  by rewrite sentences_none_text in Hslice.
Qed.

Lemma none_offsets_in_file_witness :
  Tok "O" 5 8 "ran"
    ∈ token_lines 0
        (sentences (fun l => l) (fun _ => []) (mkOptions None false PreNone)
           ["John ran ." +:+ String newline ""]) ∧
  String.substring 5 3 (String.concat "" ["John ran ." +:+ String newline ""]) = "ran".
Proof.
  assert (Tok "O" 5 8 "ran"
            ∈ token_lines 0
                (sentences (fun l => l) (fun _ => []) (mkOptions None false PreNone)
                   ["John ran ." +:+ String newline ""])) as Hin.
  { vm_compute. apply list_elem_of_further, list_elem_of_here. }
  split; [exact Hin |].
  exact (none_offsets_in_file _ _ _ _ _ _ _ Hin).
Defined.

(** Property X9.  With [--preprocess regex], the offsets of every record
    are those of its token in the lines as the sentence splitter returned
    them: [text[start:end]] is the token, where [text] is made of the
    results of [sentencebreaks_to_newlines] on the lines of the file. *)
Theorem regex_offsets_in_split_text (splitter : string → string)
    (analyze : string → list (list (list syntok_token)))
    (f : list string) (tag : string) (s e : Z) (t : string) :
  Tok tag s e t
    ∈ token_lines 0 (sentences splitter analyze (mkOptions None false PreRegex) f) →
  String.substring (Z.to_nat s) (Z.to_nat (e - s))
    (String.concat "" (splitter <$> f)) = t.
Proof.
  unfold sentences. simpl. intros (_ & _ & _ & _ & Hslice)%token_lines_slice.
  by rewrite sentences_regex_text in Hslice.
Qed.

Lemma regex_offsets_in_split_text_witness :
  Tok "O" 5 8 "ran"
    ∈ token_lines 0
        (sentences (fun l => l) (fun _ => []) (mkOptions None false PreRegex)
           ["John ran." +:+ String newline ""]) ∧
  String.substring 5 3
    (String.concat "" ((fun l => l) <$> ["John ran." +:+ String newline ""])) = "ran".
Proof.
  assert (Tok "O" 5 8 "ran"
            ∈ token_lines 0
                (sentences (fun l => l) (fun _ => []) (mkOptions None false PreRegex)
                   ["John ran." +:+ String newline ""])) as Hin.
  { vm_compute. apply list_elem_of_further, list_elem_of_here. }
  split; [exact Hin |].
  exact (regex_offsets_in_split_text _ _ _ _ _ _ _ Hin).
Defined.

Section TokenShapeFacts.

Lemma span_all (p : ascii → bool) (s : string) : all_chars p (span p s).1 = true.
Proof.
  induction s as [|c s IH]; simpl; [done |].
  destruct (p c) eqn:Hc; simpl; [by rewrite Hc, IH | done].
Qed.

Lemma span_rest (p : ascii → bool) (s : string) : starts_with p (span p s).2 = false.
Proof.
  induction s as [|c s IH]; simpl; [done |].
  destruct (p c) eqn:Hc; simpl; [done | by rewrite Hc].
Qed.

Lemma nersuite_kind_run (t : string) :
  t ≠ "" → all_chars is_alnum t = true → nersuite_kind t = Some true.
Proof.
  destruct t as [|c [|c' t]]; [done | |].
  - simpl. rewrite andb_true_r. by intros _ ->.
  - intros _ Hall. unfold nersuite_kind. by rewrite Hall.
Qed.

Lemma nonempty_cons (t : string) (l : list string) :
  t ≠ "" → nonempty (t :: l) = t :: nonempty l.
Proof. intros. unfold nonempty. by rewrite filter_cons_True. Qed.

Lemma nonempty_cons_empty (l : list string) : nonempty ("" :: l) = nonempty l.
Proof. unfold nonempty. by rewrite filter_cons_False by (by intros []). Qed.

Lemma regex_split_shape (fuel : nat) (prev : bool) (s : string) :
  (String.length s ≤ fuel)%nat →
  (prev = true → starts_with is_alnum s = false) →
  nersuite_tokens prev (nonempty (re_split_from TOKENIZATION_REGEX fuel "" s)) = true.
Proof.
  revert prev s. induction fuel as [|fuel IH]; intros prev s Hlen Hprev.
  - destruct s; [done | simpl in Hlen; lia].
  - destruct s as [|c s]; [done |].
    cbn [re_split_from]. unfold TOKENIZATION_REGEX at 1.
    destruct (is_alnum c) eqn:Hc.
    + destruct (span is_alnum (String c s)) as [run rest] eqn:Hspan.
      pose proof (span_all is_alnum (String c s)) as Hall.
      pose proof (span_rest is_alnum (String c s)) as Hrest.
      pose proof (span_first is_alnum c s Hc) as Hne.
      pose proof (span_append is_alnum (String c s)) as Happ.
      rewrite Hspan in Hall, Hrest, Hne, Happ. simpl in Hall, Hrest, Hne, Happ.
      rewrite nonempty_cons_empty, nonempty_cons by done.
      simpl. rewrite (nersuite_kind_run run Hne Hall).
      destruct prev; [simpl in Hprev; rewrite Hc in Hprev; by specialize (Hprev eq_refl) |].
      simpl. apply IH; [|done].
      apply (f_equal String.length) in Happ. rewrite length_append in Happ.
      destruct run; [done |]. simpl in *. lia.
    + rewrite nonempty_cons_empty, nonempty_cons by done.
      simpl. rewrite Hc. apply IH; [simpl in Hlen; lia | done].
Qed.

Lemma pretokenized_kind_space (t : string) :
  t ≠ "" → all_chars is_space t = true → pretokenized_kind t = Some true.
Proof. destruct t; [done |]. intros _ Hall. unfold pretokenized_kind. by rewrite Hall. Qed.

Lemma pretokenized_kind_word (c : ascii) (t : string) :
  is_space c = false →
  all_chars (fun c => negb (is_space c)) (String c t) = true →
  pretokenized_kind (String c t) = Some false.
Proof.
  intros Hc Hall. unfold pretokenized_kind. rewrite Hall.
  simpl. by rewrite Hc.
Qed.

Lemma findall_shape (fuel : nat) (prev : option bool) (s : string) :
  (String.length s ≤ fuel)%nat →
  (prev = Some true → starts_with is_space s = false) →
  (prev = Some false → starts_with (fun c => negb (is_space c)) s = false) →
  alternating_tokens prev
    (nonempty (re_findall_from PRETOKENIZED_REGEX fuel s)) = true.
Proof.
  revert prev s. induction fuel as [|fuel IH]; intros prev s Hlen Hsp Hwd.
  - destruct s; [done | simpl in Hlen; lia].
  - destruct s as [|c s]; [done |].
    cbn [re_findall_from]. unfold PRETOKENIZED_REGEX at 1.
    destruct (is_space c) eqn:Hc.
    + destruct (span is_space (String c s)) as [run rest] eqn:Hspan.
      pose proof (span_all is_space (String c s)) as Hall.
      pose proof (span_rest is_space (String c s)) as Hrest.
      pose proof (span_first is_space c s Hc) as Hne.
      pose proof (span_append is_space (String c s)) as Happ.
      rewrite Hspan in Hall, Hrest, Hne, Happ. simpl in Hall, Hrest, Hne, Happ.
      rewrite nonempty_cons by done.
      cbn [alternating_tokens]. rewrite (pretokenized_kind_space run Hne Hall).
      assert (prev ≠ Some true) as Hp.
      { intros Hp. specialize (Hsp Hp). simpl in Hsp. congruence. }
      rewrite bool_decide_false by done. simpl. apply IH; [| done | done].
      apply (f_equal String.length) in Happ. rewrite length_append in Happ.
      destruct run; [done |]. simpl in *. lia.
    + destruct (span (fun c => negb (is_space c)) (String c s)) as [run rest] eqn:Hspan.
      pose proof (span_all (fun c => negb (is_space c)) (String c s)) as Hall.
      pose proof (span_rest (fun c => negb (is_space c)) (String c s)) as Hrest.
      pose proof (span_append (fun c => negb (is_space c)) (String c s)) as Happ.
      rewrite Hspan in Hall, Hrest, Happ. simpl in Hall, Hrest, Happ.
      assert (∃ run', run = String c run') as [run' ->].
      { simpl in Hspan. rewrite Hc in Hspan. simpl in Hspan.
        injection Hspan as <- _. eauto. }
      rewrite nonempty_cons by done.
      cbn [alternating_tokens]. rewrite (pretokenized_kind_word c run' Hc Hall).
      assert (prev ≠ Some false) as Hp.
      { intros Hp. specialize (Hwd Hp). simpl in Hwd. rewrite Hc in Hwd. done. }
      rewrite bool_decide_false by done. simpl. apply IH; [| done | done].
      apply (f_equal String.length) in Happ. rewrite length_append in Happ.
      simpl in *. lia.
Qed.

End TokenShapeFacts.

(** Property X10.  The tokens of the [regex] strategy are as the comment
    above [TOKENIZATION_REGEX] says: each is a run of alphanumeric
    characters or one other character, and no run comes right after another
    run, so that the runs are maximal. *)
Theorem regex_tokens_nersuite (s : string) :
  nersuite_tokens false (nonempty (re_split TOKENIZATION_REGEX s)) = true.
Proof. unfold re_split. by apply regex_split_shape. Qed.

(** Property X11.  The tokens that the [none] strategy finds in a line are
    runs of white space and runs without white space, in alternation. *)
Theorem none_tokens_alternate (line : string) :
  alternating_tokens None (nonempty (re_findall PRETOKENIZED_REGEX line)) = true.
Proof. unfold re_findall. by apply findall_shape. Qed.

(** * Further properties of the CoNLL line functions *)

Section SentenceFacts.

Lemma all_space_append (a b : string) :
  all_space (a +:+ b) = all_space a && all_space b.
Proof.
  induction a as [|c a IH]; [done |].
  rewrite append_cons. simpl. by rewrite IH, andb_assoc.
Qed.

Lemma split_on_append (sep : ascii) (a b : string) :
  contains sep a = false →
  split_on sep (a +:+ String sep b) = a :: split_on sep b.
Proof.
  induction a as [|c a IH]; intros Ha.
  - simpl. by rewrite decide_True.
  - simpl in Ha. apply orb_false_iff in Ha as [Hc%bool_decide_eq_false Ha].
    rewrite append_cons. simpl. rewrite decide_False by done. by rewrite IH.
Qed.

Lemma strip_label_attached (lab line : string) :
  contains tab lab = false → EMPTY_LINE line = false →
  strip_label (lab +:+ String tab line) = (Some lab, line).
Proof.
  intros Hlab Hline. unfold strip_label, EMPTY_LINE, remainder.
  rewrite all_space_append. simpl.
  unfold EMPTY_LINE in Hline. rewrite Hline, !andb_false_r.
  rewrite split_on_append by done. simpl. by rewrite join_split_on.
Qed.

Lemma attach_strip_loop (labels : list (option string)) (lines attached : list string) :
  length labels = length lines →
  Forall tab_free labels →
  attach_loop labels lines = Return attached →
  strip_labels attached = (labels, lines).
Proof.
  revert lines attached.
  induction labels as [|label labels IH]; intros lines attached Hlen Hfree.
  - destruct lines; [|done]. by intros [= <-].
  - destruct lines as [|line lines]; [done |].
    apply Forall_cons in Hfree as [Hlab Hfree]. simpl.
    destruct label as [lab|]; destruct (EMPTY_LINE line) eqn:Hempty; try done.
    + destruct (attach_loop labels lines) as [rest|] eqn:Hrest; [|done].
      intros [= <-]. rewrite strip_labels_cons.
      rewrite (IH lines rest) by (done || by injection Hlen).
      by rewrite strip_label_attached.
    + destruct (attach_loop labels lines) as [rest|] eqn:Hrest; [|done].
      intros [= <-]. rewrite strip_labels_cons.
      rewrite (IH lines rest) by (done || by injection Hlen).
      unfold strip_label. by rewrite Hempty.
Qed.

Lemma span_not_space_tab (l : string) :
  contains tab (span (fun c => negb (is_space c)) l).1 = false.
Proof.
  induction l as [|c l IH]; simpl; [done |].
  destruct (is_space c) eqn:Hc; simpl; [done |].
  rewrite IH, orb_false_r. apply bool_decide_eq_false. by intros ->.
Qed.

Lemma digits_not_space (s : string) :
  (span is_digit s).1 ≠ "" → all_space s = false.
Proof.
  destruct s as [|c s]; simpl; [done |].
  destruct (is_digit c) eqn:Hc; [|done]. intros _.
  assert (is_space c = false) as ->; [|done].
  unfold is_digit, is_space in *.
  destruct ((48 <=? nat_of_ascii c)%nat) eqn:H1; [|done].
  destruct ((nat_of_ascii c <=? 57)%nat) eqn:H2; [|done].
  apply Nat.leb_le in H1, H2.
  repeat (apply orb_false_iff; split);
    try apply andb_false_iff; rewrite ?Nat.leb_gt, ?Nat.eqb_neq; lia.
Qed.

(** A line in CoNLL format is a label without TAB, a TAB, and a remainder
    that is not white space only. *)
Lemma CONLL_LINE_remainder (l : string) :
  CONLL_LINE l = true →
  EMPTY_LINE l = false ∧ all_space (remainder l) = false.
Proof.
  unfold CONLL_LINE.
  pose proof (span_append (fun c => negb (is_space c)) l) as Happ.
  pose proof (span_not_space_tab l) as Hlab.
  pose proof (span_all (fun c => negb (is_space c)) l) as Hall.
  destruct (span (fun c => negb (is_space c)) l) as [label rest]. simpl in *.
  intros [Hne H]%andb_true_iff.
  apply negb_true_iff, bool_decide_eq_false in Hne.
  destruct rest as [|t1 r1]; [done |].
  apply andb_true_iff in H as [->%bool_decide_eq_true H].
  apply andb_true_iff in H as [Hd%negb_true_iff%bool_decide_eq_false _].
  subst l. split.
  - unfold EMPTY_LINE. rewrite all_space_append.
    destruct label as [|c label]; [done |]. simpl in *.
    apply andb_true_iff in Hall as [->%negb_true_iff _]. done.
  - unfold remainder. rewrite split_on_append by done. simpl.
    rewrite join_split_on. by apply digits_not_space.
Qed.

Lemma read_sentence_spec (f lines rest : list string) :
  read_sentence f = Return (lines, rest) →
  f = lines ++ rest ∧
  ∀ i l, lines !! i = Some l →
    (EMPTY_LINE l = true ∧ S i = length lines) ∨
    (EMPTY_LINE l = false ∧ CONLL_LINE l = true).
Proof.
  revert lines rest. induction f as [|l0 f IH]; intros lines rest; simpl.
  - intros [= <- <-]. split; [done | by intros i l ?].
  - destruct (EMPTY_LINE l0) eqn:Hempty.
    + intros [= <- <-]. split; [done |].
      intros [|i] l Hl; [|done]. injection Hl as <-. by left.
    + destruct (CONLL_LINE l0) eqn:Hconll; simpl; [|done].
      destruct (read_sentence f) as [[lines' rest']|]; [|done].
      intros [= <- <-]. destruct (IH lines' rest' eq_refl) as [-> Hshape].
      split; [done |]. intros [|i] l Hl.
      * injection Hl as <-. by right.
      * simpl in Hl. destruct (Hshape i l Hl) as [[? ?]|?]; [left | by right].
        split; [done | simpl; lia].
Qed.

Lemma read_sentence_remainders (f lines rest : list string) (l : string) :
  read_sentence f = Return (lines, rest) →
  l ∈ lines → EMPTY_LINE l = false → all_space (remainder l) = false.
Proof.
  intros [_ Hshape]%read_sentence_spec [i Hi]%list_elem_of_lookup Hempty.
  destruct (Hshape i l Hi) as [[? _]|[_ Hconll]]; [congruence |].
  by apply CONLL_LINE_remainder.
Qed.

End SentenceFacts.

(** A line in CoNLL format that is not empty contains a TAB. *)
Lemma conll_format_has_tab (l : string) :
  conll_format l = true → EMPTY_LINE l = false → has_tab l = true.
Proof.
  unfold conll_format. intros Hformat Hempty. rewrite Hempty in Hformat.
  apply CONLL_LINE_remainder in Hformat as [_ Hrem].
  unfold has_tab. apply bool_decide_eq_true. unfold remainder in Hrem.
  destruct (split_on tab l) as [|f [|g fs]]; simpl in *; [done | done | lia].
Qed.

(** Claim C9.  For every list of lines in CoNLL format, each of them empty
    or made of a label, a TAB, two numbers after a TAB each and at least one
    more character, every line that is not empty contains a TAB, and
    [strip_labels] followed by [attach_labels] with the labels returned
    gives back the list of lines. *)
Theorem strip_attach_roundtrip (lines : list string) :
  Forall (fun l => conll_format l = true) lines →
  (∀ l, l ∈ lines → EMPTY_LINE l = false → has_tab l = true) ∧
  attach_labels (strip_labels lines).1 (strip_labels lines).2 = Return lines.
Proof.
  intros Hformat. rewrite Forall_forall in Hformat. split.
  - intros l Hl. by apply conll_format_has_tab, Hformat.
  - unfold attach_labels.
    rewrite decide_True by (simpl; by rewrite !length_fmap).
    apply strip_attach_loop. intros l Hl Hempty.
    specialize (Hformat l Hl).
    unfold conll_format in Hformat. rewrite Hempty in Hformat.
    by apply CONLL_LINE_remainder.
Qed.

Lemma strip_attach_roundtrip_witness :
  Forall (fun l => conll_format l = true) conll_lines ∧
  (∀ l, l ∈ conll_lines → EMPTY_LINE l = false → has_tab l = true) ∧
  attach_labels (strip_labels conll_lines).1 (strip_labels conll_lines).2
    = Return conll_lines.
Proof.
  assert (Forall (fun l => conll_format l = true) conll_lines) as H
    by (repeat constructor).
  split; [exact H | exact (strip_attach_roundtrip conll_lines H)].
Defined.

(** Property X12.  The round trip in the other direction: when the labels
    hold no TAB and [attach_labels] returns, [strip_labels] gives back the
    labels and the lines. *)
Theorem attach_strip_roundtrip (labels : list (option string))
    (lines attached : list string) :
  Forall tab_free labels →
  attach_labels labels lines = Return attached →
  strip_labels attached = (labels, lines).
Proof.
  intros Hfree. unfold attach_labels.
  destruct (decide (length labels = length lines)); [|done].
  by apply attach_strip_loop.
Qed.

Lemma attach_strip_roundtrip_witness :
  attach_labels [Some "O"; None] ["5" +:+ String tab "8"; ""] =
    Return ["O" +:+ String tab ("5" +:+ String tab "8"); ""] ∧
  strip_labels ["O" +:+ String tab ("5" +:+ String tab "8"); ""] =
    ([Some "O"; None], ["5" +:+ String tab "8"; ""]).
Proof.
  assert (attach_labels [Some "O"; None] ["5" +:+ String tab "8"; ""] =
            Return ["O" +:+ String tab ("5" +:+ String tab "8"); ""]) as Hrun
    by reflexivity.
  split; [exact Hrun |].
  apply (attach_strip_roundtrip [Some "O"; None] ["5" +:+ String tab "8"; ""]);
    [| exact Hrun].
  repeat constructor.
Defined.

(** Property X13.  When [read_sentence] returns, the lines it read are the
    first lines of the file and the rest is left to read; every line read
    is in CoNLL format, but for an empty line, which can only be the last
    one. *)
Theorem read_sentence_lines (f lines rest : list string) :
  read_sentence f = Return (lines, rest) →
  f = lines ++ rest ∧
  ∀ i l, lines !! i = Some l →
    (EMPTY_LINE l = true ∧ S i = length lines) ∨
    (EMPTY_LINE l = false ∧ CONLL_LINE l = true).
Proof. apply read_sentence_spec. Qed.

Lemma read_sentence_lines_witness :
  read_sentence conll_file = Return (take 3 conll_file, drop 3 conll_file) ∧
  conll_file = take 3 conll_file ++ drop 3 conll_file ∧
  ∀ i l, take 3 conll_file !! i = Some l →
    (EMPTY_LINE l = true ∧ S i = length (take 3 conll_file)) ∨
    (EMPTY_LINE l = false ∧ CONLL_LINE l = true).
Proof.
  assert (read_sentence conll_file = Return (take 3 conll_file, drop 3 conll_file))
    as Hrun by reflexivity.
  split; [exact Hrun |].
  exact (read_sentence_lines conll_file _ _ Hrun).
Defined.

(** Property X14.  The lines of a sentence that [read_sentence] accepted
    go through [strip_labels] and [attach_labels] unchanged. *)
Theorem read_sentence_roundtrip (f lines rest : list string) :
  read_sentence f = Return (lines, rest) →
  attach_labels (strip_labels lines).1 (strip_labels lines).2 = Return lines.
Proof.
  intros Hread. unfold attach_labels.
  rewrite decide_True by (simpl; by rewrite !length_fmap).
  apply strip_attach_loop. intros l. by apply (read_sentence_remainders f lines rest).
Qed.

Lemma read_sentence_roundtrip_witness :
  read_sentence conll_file = Return (take 3 conll_file, drop 3 conll_file) ∧
  attach_labels (strip_labels (take 3 conll_file)).1
                (strip_labels (take 3 conll_file)).2 = Return (take 3 conll_file).
Proof.
  assert (read_sentence conll_file = Return (take 3 conll_file, drop 3 conll_file))
    as Hrun by reflexivity.
  split; [exact Hrun |].
  exact (read_sentence_roundtrip conll_file _ _ Hrun).
Defined.

(** * Further properties of [parse_textbounds] *)

Section MoreParseFacts.

Lemma parse_lines_app (st : parse_state) (f1 f2 : list string) :
  parse_lines st (f1 ++ f2) =
    match parse_lines st f1 with
    | Return st' => parse_lines st' f2
    | Raise e => Raise e
    end.
Proof.
  revert st. induction f1 as [|l f1 IH]; intros st; simpl; [done |].
  destruct (parse_line st l); simpl; [apply IH | done].
Qed.

Lemma parse_line_other (st : parse_state) (l : string) :
  TEXTBOUND_LINE (rstrip_newline l) = false →
  ATTRIBUTE_LINE (rstrip_newline l) = false →
  parse_line st l = Return st.
Proof. unfold parse_line. cbv zeta. by intros -> ->. Qed.

Lemma append_attributes_raise (m : list (string * entity))
    (l : list (string * string)) (e : exn) :
  append_attributes m l = Raise e →
  e = KeyError ∧ ∃ a, a ∈ l ∧ dict_get a.1 m = None.
Proof.
  revert m. induction l as [|a l IH]; intros m; simpl; [done |].
  destruct (append_attribute m a) as [m'|e'] eqn:Ha; simpl.
  - intros (-> & a' & Hin & Hkey)%IH. split; [done |].
    exists a'. split; [by right |].
    unfold append_attribute in Ha.
    destruct (dict_get a.1 m) as [[[[s0 e0] types] text]|] eqn:Hget; [|done].
    injection Ha as <-. rewrite dict_get_set in Hkey.
    by destruct (decide (a'.1 = a.1)).
  - unfold append_attribute in Ha.
    destruct (dict_get a.1 m) as [[[[s0 e0] types] text]|] eqn:Hget; [done |].
    injection Ha as <-. intros [= <-]. split; [done |].
    exists a. split; [left | done].
Qed.

(** The mapping that the loop builds does not depend on the attributes
    collected so far. *)
Lemma parse_line_mapping (m : list (string * entity))
    (attrs1 attrs2 : list (string * string)) (l : string) :
  match parse_line (m, attrs1) l, parse_line (m, attrs2) l with
  | Return st1, Return st2 => st1.1 = st2.1
  | Raise e1, Raise e2 => e1 = e2
  | _, _ => False
  end.
Proof.
  unfold parse_line. cbv zeta. simpl.
  destruct (TEXTBOUND_LINE (rstrip_newline l)); simpl.
  - destruct (split_on tab (rstrip_newline l)) as [|? [|? [|? [|? ?]]]]; try done.
    destruct (split_ws _) as [|? [|? [|? [|? ?]]]]; try done.
    destruct (py_int _); [|done]. by destruct (py_int _).
  - destruct (ATTRIBUTE_LINE (rstrip_newline l)); [|done].
    destruct (split_on tab (rstrip_newline l)) as [|? [|? [|? ?]]]; try done.
    by destruct (split_on space _) as [|? [|? [|? ?]]].
Qed.

Lemma parse_lines_mapping (m : list (string * entity))
    (attrs1 attrs2 : list (string * string)) (f : list string) :
  match parse_lines (m, attrs1) f, parse_lines (m, attrs2) f with
  | Return st1, Return st2 => st1.1 = st2.1
  | Raise e1, Raise e2 => e1 = e2
  | _, _ => False
  end.
Proof.
  revert m attrs1 attrs2. induction f as [|l f IH]; intros m attrs1 attrs2; simpl;
    [done |].
  pose proof (parse_line_mapping m attrs1 attrs2 l) as Hl.
  destruct (parse_line (m, attrs1) l) as [[m1 a1]|], (parse_line (m, attrs2) l)
    as [[m2 a2]|]; simpl in *; try done.
  subst m2. apply IH.
Qed.

Lemma parse_line_attribute_mapping (st : parse_state) (l : string)
    (a : string * string) :
  TEXTBOUND_LINE (rstrip_newline l) = false →
  ATTRIBUTE_LINE (rstrip_newline l) = true →
  attribute_of (rstrip_newline l) = Some a →
  parse_line st l = Return (st.1, st.2 ++ [a]).
Proof.
  unfold parse_line, attribute_of. cbv zeta. intros -> -> Ha. simpl.
  repeat (case_match; try done); by simplify_eq.
Qed.

End MoreParseFacts.

(** Property X15.  [parse_textbounds] raises nothing but [ValueError], from
    a line of the first loop, and [KeyError], which needs attribute-appending
    to be enabled, every line to have parsed, and an attribute whose entity
    id is not a key of the mapping. *)
Theorem parse_textbounds_errors (opts : options) (f : list string) (e : exn) :
  parse_textbounds opts f = Raise e →
  (e = ValueError ∧ parse_lines ([], []) f = Raise ValueError) ∨
  (e = KeyError ∧ attributes opts = true ∧
   ∃ st a, parse_lines ([], []) f = Return st ∧ a ∈ st.2 ∧
           dict_get a.1 st.1 = None).
Proof.
  unfold parse_textbounds, fold_attributes.
  destruct (parse_lines ([], []) f) as [st|e'] eqn:Hparse.
  - destruct (attributes opts); [|done].
    destruct (append_attributes _ _) as [m|e'] eqn:Hfold; [done |].
    intros [= <-]. apply append_attributes_raise in Hfold as (-> & a & Hin & Hkey).
    right. split_and!; [done.. |]. exists st, a. split_and!; [done | | done].
    by rewrite merge_sort_Permutation in Hin.
  - intros [= <-]. apply parse_lines_raise in Hparse as Heq. subst e'. by left.
Qed.

Lemma parse_textbounds_errors_witness :
  parse_textbounds with_attributes [john_ann; stray_attribute] = Raise KeyError ∧
  ((KeyError = ValueError ∧
    parse_lines ([], []) [john_ann; stray_attribute] = Raise ValueError) ∨
   (KeyError = KeyError ∧ attributes with_attributes = true ∧
    ∃ st a, parse_lines ([], []) [john_ann; stray_attribute] = Return st ∧
            a ∈ st.2 ∧ dict_get a.1 st.1 = None)).
Proof.
  assert (parse_textbounds with_attributes [john_ann; stray_attribute]
            = Raise KeyError) as Hrun by reflexivity.
  split; [exact Hrun |].
  exact (parse_textbounds_errors with_attributes _ KeyError Hrun).
Defined.

(** Property X16.  A line that is neither a textbound line nor an attribute
    line (a relation, an event, a note, an empty line) is ignored:
    [parse_textbounds] returns what it returns without it. *)
Theorem parse_textbounds_ignores (opts : options) (f1 f2 : list string) (l : string) :
  TEXTBOUND_LINE (rstrip_newline l) = false →
  ATTRIBUTE_LINE (rstrip_newline l) = false →
  parse_textbounds opts (f1 ++ l :: f2) = parse_textbounds opts (f1 ++ f2).
Proof.
  intros Htb Hat. unfold parse_textbounds. rewrite !parse_lines_app.
  destruct (parse_lines ([], []) f1) as [st|]; [|done].
  simpl. by rewrite parse_line_other.
Qed.

Lemma parse_textbounds_ignores_witness :
  parse_textbounds with_attributes negated_file =
    parse_textbounds with_attributes (take 2 negated_file ++ drop 3 negated_file).
Proof.
  apply (parse_textbounds_ignores with_attributes (take 2 negated_file)
           (drop 3 negated_file)
           ("R1" +:+ String tab ("Knows Arg1:T1 Arg2:T1" +:+ String newline "")));
    reflexivity.
Defined.

(** Property X17.  With attribute-appending disabled, a well-formed
    attribute line changes nothing to what [parse_textbounds] returns or
    raises. *)
Theorem parse_textbounds_attribute_off (opts : options) (f1 f2 : list string)
    (l : string) (a : string * string) :
  attributes opts = false →
  TEXTBOUND_LINE (rstrip_newline l) = false →
  ATTRIBUTE_LINE (rstrip_newline l) = true →
  attribute_of (rstrip_newline l) = Some a →
  parse_textbounds opts (f1 ++ l :: f2) = parse_textbounds opts (f1 ++ f2).
Proof.
  intros Hoff Htb Hat Ha. unfold parse_textbounds, fold_attributes.
  rewrite Hoff, !parse_lines_app.
  destruct (parse_lines ([], []) f1) as [[m attrs]|]; [|done].
  simpl. rewrite (parse_line_attribute_mapping _ l a) by done. simpl.
  pose proof (parse_lines_mapping m (attrs ++ [a]) attrs f2) as Hsame.
  destruct (parse_lines (m, attrs ++ [a]) f2) as [st1|],
           (parse_lines (m, attrs) f2) as [st2|]; try done.
  - by rewrite Hsame.
  - by rewrite Hsame.
Qed.

Lemma parse_textbounds_attribute_off_witness :
  parse_textbounds no_options [john_ann; stray_attribute] =
    parse_textbounds no_options [john_ann].
Proof.
  apply (parse_textbounds_attribute_off no_options [john_ann] [] stray_attribute
           ("T9", "Negation")); reflexivity.
Defined.

Section AttributeFacts.

Lemma dict_set_keys {V : Type} (k x : string) (v : V) (d : list (string * V)) :
  x ∈ (dict_set k v d).*1 ↔ x = k ∨ x ∈ d.*1.
Proof.
  induction d as [|[k' v'] d IH]; simpl.
  - rewrite list_elem_of_singleton. split; [by left | by intros [?|?%elem_of_nil]].
  - destruct (decide (k = k')) as [->|Hne]; simpl.
    + rewrite !elem_of_cons. tauto.
    + rewrite !elem_of_cons, IH. tauto.
Qed.

Lemma dict_set_NoDup {V : Type} (k : string) (v : V) (d : list (string * V)) :
  NoDup d.*1 → NoDup (dict_set k v d).*1.
Proof.
  induction d as [|[k' v'] d IH]; simpl; intros Hnd.
  - apply NoDup_singleton.
  - apply NoDup_cons in Hnd as [Hk Hnd].
    destruct (decide (k = k')) as [->|Hne]; simpl.
    + by apply NoDup_cons.
    + apply NoDup_cons. split; [|by apply IH].
      rewrite dict_set_keys. intros [?|?]; [congruence | done].
Qed.

Lemma parse_line_NoDup (st st' : parse_state) (l : string) :
  parse_line st l = Return st' → NoDup st.1.*1 → NoDup st'.1.*1.
Proof.
  unfold parse_line. cbv zeta. intros H Hnd.
  repeat (case_match; try done); simplify_eq; simpl; try done.
  by apply dict_set_NoDup.
Qed.

Lemma parse_lines_NoDup (st st' : parse_state) (f : list string) :
  parse_lines st f = Return st' → NoDup st.1.*1 → NoDup st'.1.*1.
Proof.
  revert st. induction f as [|l f IH]; intros st; simpl.
  - by intros [= ->].
  - destruct (parse_line st l) as [st1|] eqn:Hl; simpl; [|done].
    intros H Hnd. apply (IH st1 H). by apply (parse_line_NoDup st st1 l).
Qed.

Lemma attributes_of_cons (id : string) (a : string * string)
    (attrs : list (string * string)) :
  attributes_of id (a :: attrs) =
    (if decide (a.1 = id) then [a.2] else []) ++ attributes_of id attrs.
Proof.
  unfold attributes_of. rewrite filter_cons. by destruct (decide (a.1 = id)).
Qed.

Lemma with_attributes_of_nil (v : string * entity) : with_attributes_of [] v = v.
Proof.
  destruct v as [id [[[s e] types] text]]. simpl.
  unfold attributes_of. simpl. by rewrite app_nil_r.
Qed.

Lemma with_attributes_of_cons (a : string * string) (attrs : list (string * string))
    (v : string * entity) :
  with_attributes_of attrs (with_attributes_of [a] v) = with_attributes_of (a :: attrs) v.
Proof.
  destruct v as [id [[[s e] types] text]]. simpl.
  rewrite (attributes_of_cons id a attrs), (attributes_of_cons id a []).
  unfold attributes_of at 1. simpl. by rewrite app_nil_r, <- (assoc_L (++)).
Qed.

Lemma with_attributes_of_other (a : string * string) (d : list (string * entity)) :
  a.1 ∉ d.*1 → with_attributes_of [a] <$> d = d.
Proof.
  induction d as [|[id [[[s e] types] text]] d IH]; intros Hk; [done |].
  rewrite fmap_cons in Hk. apply not_elem_of_cons in Hk as [Hne Hk].
  rewrite fmap_cons, (IH Hk). f_equal. simpl in *.
  rewrite (attributes_of_cons id a []). rewrite decide_False by done.
  unfold attributes_of. simpl. by rewrite app_nil_r.
Qed.

Lemma dict_get_None {V : Type} (k : string) (d : list (string * V)) :
  dict_get k d = None ↔ k ∉ d.*1.
Proof.
  induction d as [|[k' v'] d IH]; simpl.
  - split; [by intros _ ?%elem_of_nil | done].
  - rewrite not_elem_of_cons. destruct (decide (k = k')) as [->|Hne].
    + split; [done | by intros [? _]].
    + rewrite IH. tauto.
Qed.

(** [mapping[tid][2].append(att)] on a known entity. *)
Lemma append_attribute_known (m : list (string * entity)) (a : string * string) :
  NoDup m.*1 → is_Some (dict_get a.1 m) →
  append_attribute m a = Return (with_attributes_of [a] <$> m).
Proof.
  unfold append_attribute.
  induction m as [|[id [[[s e] types] text]] m IH]; simpl; intros Hnd Hsome.
  - by destruct Hsome.
  - apply NoDup_cons in Hnd as [Hid Hnd].
    destruct (decide (a.1 = id)) as [Heq|Hne].
    + rewrite with_attributes_of_other by (by rewrite Heq).
      rewrite (attributes_of_cons id a []). rewrite decide_True by done.
      unfold attributes_of. simpl. by rewrite Heq.
    + specialize (IH Hnd Hsome).
      destruct (dict_get a.1 m) as [[[[s0 e0] types0] text0]|]; [|done].
      injection IH as ->.
      rewrite (attributes_of_cons id a []). rewrite decide_False by done.
      unfold attributes_of. simpl. by rewrite app_nil_r.
Qed.

Lemma with_attributes_of_keys (attrs : list (string * string))
    (m : list (string * entity)) :
  (with_attributes_of attrs <$> m).*1 = m.*1.
Proof.
  induction m as [|[id [[[s e] types] text]] m IH]; [done |].
  by rewrite !fmap_cons, IH.
Qed.

Lemma append_attributes_known (m : list (string * entity))
    (attrs : list (string * string)) :
  NoDup m.*1 → (∀ a, a ∈ attrs → is_Some (dict_get a.1 m)) →
  append_attributes m attrs = Return (with_attributes_of attrs <$> m).
Proof.
  revert m. induction attrs as [|a attrs IH]; intros m Hnd Hknown; simpl.
  - f_equal. clear Hnd Hknown. induction m as [|v m IHm]; [done |].
    rewrite fmap_cons, with_attributes_of_nil. f_equal. exact IHm.
  - rewrite append_attribute_known by (done || apply Hknown; left). simpl.
    rewrite IH.
    + f_equal. rewrite <- list_fmap_compose. apply list_fmap_ext.
      intros i v _. apply with_attributes_of_cons.
    + by rewrite with_attributes_of_keys.
    + intros a' Ha'. apply not_eq_None_Some. rewrite dict_get_None.
      rewrite with_attributes_of_keys, <- dict_get_None.
      apply not_eq_None_Some, Hknown. by right.
Qed.

Global Instance attribute_le_total : Total attribute_le.
Proof.
  intros [x1 x2] [y1 y2]. unfold attribute_le. simpl.
  destruct (String.compare x1 y1) eqn:Hc.
  - apply String.compare_eq_iff in Hc as ->. 
    assert (String.compare y1 y1 = Eq) as ->.
    { pose proof (String.compare_antisym y1 y1) as Hanti.
      by destruct (String.compare y1 y1). }
    apply String.leb_total.
  - by left.
  - right. rewrite String.compare_antisym, Hc. done.
Qed.

End AttributeFacts.

(** Property X18.  With attribute-appending enabled, when every line parses
    and every attribute names a known entity, the type of each span is the
    type of its textbound line followed by the attributes of its entity,
    joined by dashes, the attributes being taken in the order that sorts
    the pairs (entity id, attribute). *)
Theorem parse_textbounds_attributes (opts : options) (f : list string)
    (st : parse_state) :
  attributes opts = true →
  parse_lines ([], []) f = Return st →
  (∀ a, a ∈ st.2 → is_Some (dict_get a.1 st.1)) →
  parse_textbounds opts f =
    Return (to_textbound <$>
              (with_attributes_of (merge_sort attribute_le st.2) <$> st.1)) ∧
  Sorted attribute_le (merge_sort attribute_le st.2).
Proof.
  intros Hon Hparse Hknown. split; [|apply Sorted_merge_sort, _].
  unfold parse_textbounds, fold_attributes. rewrite Hparse, Hon.
  rewrite append_attributes_known; [done | |].
  - apply (parse_lines_NoDup ([], []) st f Hparse). constructor.
  - intros a Ha. apply Hknown. by rewrite merge_sort_Permutation in Ha.
Qed.

Lemma parse_textbounds_attributes_witness :
  parse_textbounds with_attributes negated_file =
    Return [mkTextbound 0 4 "PERSON-Negation-Speculation" "John"].
Proof.
  refine (proj1 (parse_textbounds_attributes with_attributes negated_file
            ([("T1", (0, 4, ["PERSON"], "John"))],
             [("T1", "Speculation"); ("T1", "Negation")]) _ _ _)).
  - reflexivity.
  - reflexivity.
  - intros a [->|[->|?%elem_of_nil]%elem_of_cons]%elem_of_cons; [| |done];
      exists (0, 4, ["PERSON"], "John"); reflexivity.
Defined.

(** * Further properties of the converter to standoff *)

Section SegmentFacts.

Lemma document_loop_segments (ann : list ann_record) (txt : list string)
    (idnum offset : Z) (conlldata : list (list conlltok))
    (tokenized : list (list string)) (segments : list segment) :
  length conlldata = length tokenized →
  idnum = 1 + Z.of_nat (length ann) →
  ann_id <$> ann = seqZ 1 (Z.of_nat (length ann)) →
  document_loop ann txt idnum offset conlldata tokenized = Return segments →
  segments ≠ [] ∧
  Forall well_numbered segments ∧
  (∀ i seg, segments !! i = Some seg → (S i < length segments)%nat →
            999 ≤ Z.of_nat (length seg.1)) ∧
  Z.of_nat (length (concat (fst <$> segments))) =
    Z.of_nat (length ann) + token_count conlldata ∧
  length (concat (snd <$> segments)) = (length txt + length conlldata)%nat.
Proof.
  revert ann txt idnum offset tokenized segments.
  induction conlldata as [|cs cd IH]; intros ann txt idnum offset tk segments Hlen Hid Hann.
  - destruct tk; [|done]. simpl. intros [= <-].
    split_and!; [done | by repeat constructor | | |].
    + intros [|i] seg Hi Hlt; simpl in Hlt; lia.
    + simpl. rewrite app_nil_r. unfold token_count. simpl. lia.
    + simpl. rewrite app_nil_r. lia.
  - destruct tk as [|ts tk]; [done |]. simpl.
    destruct (decide (length cs ≠ length (tail ts))) as [|Heq%dec_stable]; [done |].
    destruct (head ts) as [key|]; [|done].
    destruct (sentence_loop _ _ cs (tail ts)) as [[[rs i'] o']|] eqn:Hloop; [|done].
    apply (sentence_loop_ids _ _ _ _ _ _ _ Heq) in Hloop as [-> Hids].
    assert (length rs = length cs) as Hrs.
    { apply (f_equal length) in Hids. rewrite length_fmap, length_seqZ in Hids. lia. }
    assert (ann_id <$> (ann ++ rs) = seqZ 1 (Z.of_nat (length (ann ++ rs)))) as Hann'.
    { rewrite fmap_app, Hann, Hids, length_app, Hid, Nat2Z.inj_add, Hrs.
      apply seqZ_add; lia. }
    rewrite token_count_cons.
    destruct (1000 <=? idnum + Z.of_nat (length cs)) eqn:Hcut.
    + apply Z.leb_le in Hcut.
      destruct (document_loop [] [] 1 0 cd tk) as [rest|] eqn:Hrest; [|done].
      intros [= <-].
      apply IH in Hrest as (Hne & Hnum & Hbig & Hann_count & Htxt_count);
        [| by injection Hlen | done | done].
      split_and!; [done | | | |].
      * constructor; [exact Hann' | done].
      * intros [|i] seg Hi Hlt; simpl in Hi, Hlt.
        -- injection Hi as <-. simpl. rewrite length_app. lia.
        -- apply (Hbig i seg Hi). lia.
      * rewrite fmap_cons. cbn [concat fst]. rewrite !length_app.
        change (length (@nil ann_record)) with 0%nat in Hann_count. lia.
      * rewrite fmap_cons. cbn [concat snd]. rewrite !length_app.
        change (length (@nil string)) with 0%nat in Htxt_count.
        cbn [length] in *. lia.
    + intros Hrun.
      apply IH in Hrun as (Hne & Hnum & Hbig & Hann_count & Htxt_count);
        [| by injection Hlen | rewrite length_app; lia | done].
      split_and!; [done | done | done | |].
      * rewrite Hann_count, length_app. lia.
      * rewrite Htxt_count, length_app. simpl. lia.
Qed.

End SegmentFacts.

(** Property X19.  For every document that the converter writes without
    error: there is at least one pair of files; in each [.ann] file the
    identifiers are 1, 2, 3, ... in order; every [.ann] file but the last
    holds at least 999 records; the [.ann] files hold one record per token
    of the document and the [.txt] files one line per sentence. *)
Theorem convert_segments (conlldata : list (list conlltok))
    (tokenized : list (list string)) (segments : list segment) :
  convert conlldata tokenized = Return segments →
  segments ≠ [] ∧
  Forall well_numbered segments ∧
  (∀ i seg, segments !! i = Some seg → (S i < length segments)%nat →
            999 ≤ Z.of_nat (length seg.1)) ∧
  Z.of_nat (length (concat (fst <$> segments))) = token_count conlldata ∧
  length (concat (snd <$> segments)) = length conlldata.
Proof.
  unfold convert.
  destruct (decide (length conlldata ≠ length tokenized)) as [|Hlen%dec_stable];
    [done |].
  intros Hrun.
  apply document_loop_segments in Hrun as (? & ? & ? & ? & ?); done.
Qed.

Lemma convert_segments_witness :
  convert doc_singles.1 doc_singles.2 =
    Return (returned (convert doc_singles.1 doc_singles.2)) ∧
  Forall well_numbered (returned (convert doc_singles.1 doc_singles.2)) ∧
  length (concat (snd <$> returned (convert doc_singles.1 doc_singles.2))) =
    length doc_singles.1.
Proof.
  assert (convert doc_singles.1 doc_singles.2 =
            Return (returned (convert doc_singles.1 doc_singles.2))) as Hrun
    by (vm_compute; reflexivity).
  destruct (convert_segments doc_singles.1 doc_singles.2 _ Hrun)
    as (_ & Hnum & _ & _ & Htxt).
  split_and!; [exact Hrun | exact Hnum | exact Htxt].
Defined.

Section WordFacts.

Lemma split_ws_words (s w : string) :
  w ∈ split_ws s →
  w ≠ "" ∧ all_chars (fun c => negb (is_space c)) w = true.
Proof.
  revert w. induction s as [|c s IH]; intros w; simpl; [by intros ?%elem_of_nil |].
  destruct (is_space c) eqn:Hc; [apply IH |].
  destruct s as [|c' s'].
  - intros ->%list_elem_of_singleton. simpl. by rewrite Hc.
  - destruct (is_space c') eqn:Hc'.
    + intros [->|Hw]%elem_of_cons; [simpl; by rewrite Hc | by apply IH].
    + destruct (split_ws (String c' s')) as [|f fs] eqn:Hsplit.
      * intros ->%list_elem_of_singleton. simpl. by rewrite Hc.
      * intros [->|Hw]%elem_of_cons.
        -- destruct (IH f) as [_ Hf]; [left |]. simpl. by rewrite Hc, Hf.
        -- apply IH. by right.
Qed.

Lemma rstrip_by_none (p : ascii → bool) (w : string) :
  all_chars (fun c => negb (p c)) w = true → rstrip_by p w = w.
Proof.
  induction w as [|c w IH]; simpl; [done |].
  intros [Hc%negb_true_iff Hw]%andb_true_iff. rewrite (IH Hw).
  destruct w; [by rewrite Hc | done].
Qed.

Lemma lstrip_by_none (p : ascii → bool) (w : string) :
  all_chars (fun c => negb (p c)) w = true → lstrip_by p w = w.
Proof.
  destruct w as [|c w]; simpl; [done |].
  by intros [->%negb_true_iff _]%andb_true_iff.
Qed.

Lemma no_space_no_newline (w : string) :
  all_chars (fun c => negb (is_space c)) w = true → contains newline w = false.
Proof.
  induction w as [|c w IH]; simpl; [done |].
  intros [Hc%negb_true_iff Hw]%andb_true_iff. rewrite (IH Hw), orb_false_r.
  apply bool_decide_eq_false. by intros ->.
Qed.

Lemma tokstr_word (start end_ : Z) (ttype : string) (idnum : Z) (w : string) :
  all_chars (fun c => negb (is_space c)) w = true →
  tokstr start end_ ttype idnum w = Return (mkAnn idnum ttype start end_ w).
Proof.
  intros Hw. unfold tokstr, strip.
  rewrite (no_space_no_newline w Hw), (rstrip_by_none is_space w Hw),
    (lstrip_by_none is_space w Hw).
  by rewrite String.eqb_refl.
Qed.

End WordFacts.

(** Property X20.  The two sanity checks of [tokstr] never fire on a word
    obtained by splitting a line at white space, as [readconll] does with
    [line.strip().split()]: for such a word [tokstr] returns the record. *)
Theorem tokstr_accepts_words (line w : string) (start end_ : Z) (ttype : string)
    (idnum : Z) :
  w ∈ split_ws (strip line) →
  tokstr start end_ ttype idnum w = Return (mkAnn idnum ttype start end_ w).
Proof. intros [_ Hw]%split_ws_words. by apply tokstr_word. Qed.

Lemma tokstr_accepts_words_witness :
  tokstr 3 7 "NNP" 1 "John" = Return (mkAnn 1 "NNP" 3 7 "John").
Proof.
  apply (tokstr_accepts_words
           ("doc 0 0 John NNP[x" +:+ String newline "") "John" 3 7 "NNP" 1).
  vm_compute. do 3 apply list_elem_of_further. apply list_elem_of_here.
Defined.

Section SliceFacts.

Lemma located_sliced (content : string) (r : ann_record) :
  located content r → sliced content r.
Proof.
  intros (pre & post & -> & Hs & He). unfold sliced. rewrite Hs, He, Hs.
  split_and!; [lia | done |].
  replace (Z.to_nat (Z.of_nat (String.length pre))) with (String.length pre) by lia.
  replace (Z.to_nat _) with (String.length (ann_text r)) by lia.
  apply substring_middle.
Qed.

Lemma located_append (content more : string) (r : ann_record) :
  located content r → located (content +:+ more) r.
Proof.
  intros (pre & post & -> & Hs & He). exists pre, (post +:+ more).
  by rewrite !append_assoc.
Qed.

Lemma txt_content_snoc (lines : list string) (l : string) :
  txt_content (lines ++ [l]) = txt_content lines +:+ l +:+ String newline "".
Proof.
  unfold txt_content. by rewrite fmap_app, flat_app.
Qed.

Lemma replace_first_length (old new : ascii) (s : string) :
  String.length (replace_first old new s) = String.length s.
Proof.
  induction s as [|c s IH]; simpl; [done |].
  destruct (decide (c = old)); simpl; [done | by rewrite IH].
Qed.

(** Replacing the first [old] leaves what follows an [old] as it is. *)
Lemma replace_first_before (old new : ascii) (a b : string) :
  ∃ pre, replace_first old new (a +:+ String old b) = pre +:+ b ∧
         String.length pre = S (String.length a).
Proof.
  induction a as [|c a (pre & Heq & Hlen)].
  - exists (String new ""). simpl. by rewrite decide_True.
  - rewrite append_cons. simpl. destruct (decide (c = old)) as [->|Hne].
    + exists (String new (a +:+ String old "")). split.
      * rewrite append_cons. f_equal. by rewrite append_assoc.
      * simpl. rewrite length_append. simpl. lia.
    + exists (String c pre). rewrite Heq. split; [done | simpl; lia].
Qed.

Lemma token_record_word (idnum offset : Z) (tok : conlltok) (t : string)
    (r : ann_record) :
  columns tok !! 3%nat = Some t →
  token_record idnum offset tok = Return r →
  ann_text r = t ∧ ann_start r = offset ∧
  ann_end r = offset + Z.of_nat (String.length t).
Proof.
  unfold token_record, tokstr. intros -> H.
  repeat (case_match; try done). by simplify_eq.
Qed.

Lemma sentence_loop_nil (idnum offset : Z) (conllsent : list conlltok)
    (records : list ann_record) (idnum' offset' : Z) :
  sentence_loop idnum offset conllsent [] = Return (records, idnum', offset') →
  records = [] ∧ offset' = offset.
Proof. destruct conllsent; simpl; by intros [= <- <- <-]. Qed.

(** Where the records of a sentence lie in the tokens of its line, joined
    by spaces. *)
Lemma sentence_loop_located (idnum offset : Z) (conllsent : list conlltok)
    (toks : list string) (records : list ann_record) (idnum' offset' : Z) :
  Forall2 (fun tok t => columns tok !! 3%nat = Some t) conllsent toks →
  sentence_loop idnum offset conllsent toks = Return (records, idnum', offset') →
  offset' = offset + Z.of_nat (String.length (join space toks))
            + (if toks is [] then 0 else 1) ∧
  ∀ r, r ∈ records →
    ∃ pre post,
      join space toks = pre +:+ ann_text r +:+ post ∧
      ann_start r = offset + Z.of_nat (String.length pre) ∧
      ann_end r = ann_start r + Z.of_nat (String.length (ann_text r)).
Proof.
  intros Hwords. revert idnum offset records.
  induction Hwords as [|tok t cs toks Htok Hwords IH]; intros idnum offset records.
  - simpl. intros [= <- <- <-]. split; [lia | by intros r ?%elem_of_nil].
  - simpl. destruct (token_record idnum offset tok) as [r0|] eqn:Hrec; [|done].
    destruct (sentence_loop _ _ cs toks) as [[[rs i'] o']|] eqn:Hloop; [|done].
    intros [= <- <- <-].
    destruct (token_record_word _ _ _ _ _ Htok Hrec) as (Htext & Hstart & Hend).
    rewrite Htext in *.
    destruct toks as [|t' toks].
    + apply sentence_loop_nil in Hloop as [-> ->].
      change (join space [t]) with t.
      split; [lia |].
      intros r ->%list_elem_of_singleton.
      exists "", "". rewrite Htext, append_empty_r.
      split_and!; [done | simpl; lia | lia].
    + apply IH in Hloop as [-> Hrs]. rewrite join_cons_cons. split.
      * rewrite length_append. simpl. lia.
      * intros r [->|Hr]%elem_of_cons.
        -- exists "", (String space (join space (t' :: toks))). simpl.
           rewrite Htext. split_and!; [done | lia | lia].
        -- destruct (Hrs r Hr) as (pre & post & Hjoin & Hs & He).
           exists (t +:+ String space pre), post. rewrite Hjoin. split_and!.
           ++ by rewrite append_assoc.
           ++ rewrite Hs, length_append. simpl. lia.
           ++ done.
Qed.

(** The line of the [.txt] file for a sentence: as long as its key and a
    separator, and then the tokens joined by spaces. *)
Lemma txt_line_tokens (key t : string) (toks : list string) :
  ∃ pre, txt_line (key :: t :: toks) = pre +:+ join space (t :: toks) ∧
         String.length pre = S (String.length key).
Proof. unfold txt_line. rewrite join_cons_cons. apply replace_first_before. Qed.

Lemma document_loop_located (ann : list ann_record) (txt : list string)
    (idnum offset : Z) (conlldata : list (list conlltok))
    (tokenized : list (list string)) (segments : list segment) :
  Forall2 words_match conlldata tokenized →
  offset = Z.of_nat (String.length (txt_content txt)) →
  (∀ r, r ∈ ann → located (txt_content txt) r) →
  document_loop ann txt idnum offset conlldata tokenized = Return segments →
  ∀ seg r, seg ∈ segments → r ∈ seg.1 → located (txt_content seg.2) r.
Proof.
  intros Hwords. revert ann txt idnum offset segments.
  induction Hwords as [|cs ts cd tk Hmatch Hwords IH];
    intros ann txt idnum offset segments Hoff Hann.
  - simpl. intros [= <-] seg r ->%list_elem_of_singleton. apply Hann.
  - simpl.
    destruct (decide (length cs ≠ length (tail ts))) as [|Heq%dec_stable]; [done |].
    destruct ts as [|key toks]; [done |]. simpl in Heq. simpl.
    unfold words_match in Hmatch. simpl in Hmatch.
    destruct (sentence_loop _ _ cs toks) as [[[rs i'] o']|] eqn:Hloop; [|done].
    pose proof Hloop as Hnil.
    apply (sentence_loop_located _ _ _ _ _ _ _ Hmatch) in Hloop as [Ho' Hrs].
    set (line := txt_line (key :: toks)).
    assert (∀ r, r ∈ ann ++ rs → located (txt_content (txt ++ [line])) r) as Hann'.
    { intros r [Hr|Hr]%elem_of_app; rewrite txt_content_snoc.
      - rewrite <- append_assoc. by apply located_append, located_append, Hann.
      - destruct (Hrs r Hr) as (pre & post & Hjoin & Hs & He).
        destruct toks as [|t toks].
        { apply sentence_loop_nil in Hnil as [-> _]. by apply elem_of_nil in Hr. }
        destruct (txt_line_tokens key t toks) as (sep & Hline & Hsep).
        exists (txt_content txt +:+ sep +:+ pre), (post +:+ String newline "").
        split_and!.
        + unfold line. rewrite Hline, Hjoin. by rewrite !append_assoc.
        + rewrite Hs, Hoff, !length_append, Hsep. lia.
        + done. }
    assert (o' = Z.of_nat (String.length (txt_content (txt ++ [line])))) as Hoff'.
    { rewrite txt_content_snoc, !length_append, Ho', Hoff. simpl.
      destruct toks as [|t toks].
      - unfold line, txt_line. rewrite replace_first_length.
        change (join space [key]) with key. simpl. lia.
      - destruct (txt_line_tokens key t toks) as (sep & Hline & Hsep).
        unfold line. rewrite Hline, length_append, Hsep. lia. }
    destruct (1000 <=? i') eqn:Hcut.
    + destruct (document_loop [] [] 1 0 cd tk) as [rest|] eqn:Hrest; [|done].
      intros [= <-] seg r [->|Hseg]%elem_of_cons Hr.
      * by apply Hann'.
      * apply (IH [] [] 1 0 rest); [done | by intros ? ?%elem_of_nil | done..].
    + intros Hrun. by apply (IH _ _ _ _ _ Hoff' Hann' Hrun).
Qed.

End SliceFacts.

(** Property X21.  When the words of the CoNLL file are the tokens of the
    tokenized file, the offsets of every record written to a [.ann] file are
    those of its word in the [.txt] file of the same segment:
    [text[start:end]] is the word, where [text] is the content of that
    file. *)
Theorem convert_offsets (conlldata : list (list conlltok))
    (tokenized : list (list string)) (segments : list segment) :
  Forall2 words_match conlldata tokenized →
  convert conlldata tokenized = Return segments →
  ∀ seg r, seg ∈ segments → r ∈ seg.1 → sliced (txt_content seg.2) r.
Proof.
  intros Hwords. unfold convert.
  destruct (decide (length conlldata ≠ length tokenized)); [done |].
  intros Hrun seg r Hseg Hr. apply located_sliced.
  apply (document_loop_located [] [] 1 0 conlldata tokenized segments);
    [done | done | by intros ? ?%elem_of_nil | done..].
Qed.

Lemma convert_offsets_witness :
  convert two_sentences.1 two_sentences.2 =
    Return [([mkAnn 1 "NNP" 3 7 "John"; mkAnn 2 "VBD" 8 11 "ran";
              mkAnn 3 "VB" 15 19 "Stop"],
             ["s1|John ran"; "s2|Stop"])] ∧
  sliced (txt_content ["s1|John ran"; "s2|Stop"]) (mkAnn 3 "VB" 15 19 "Stop").
Proof.
  assert (convert two_sentences.1 two_sentences.2 =
    Return [([mkAnn 1 "NNP" 3 7 "John"; mkAnn 2 "VBD" 8 11 "ran";
              mkAnn 3 "VB" 15 19 "Stop"],
             ["s1|John ran"; "s2|Stop"])]) as Hrun by (vm_compute; reflexivity).
  split; [exact Hrun |].
  apply (convert_offsets two_sentences.1 two_sentences.2 _
           ltac:(repeat constructor) Hrun
           ([mkAnn 1 "NNP" 3 7 "John"; mkAnn 2 "VBD" 8 11 "ran";
             mkAnn 3 "VB" 15 19 "Stop"], ["s1|John ran"; "s2|Stop"])
           (mkAnn 3 "VB" 15 19 "Stop")).
  - apply list_elem_of_here.
  - simpl. do 2 apply list_elem_of_further. apply list_elem_of_here.
Defined.

Section ReadFacts.

Lemma dict_set_elem {V : Type} (k : string) (v : V) (d : list (string * V))
    (k' : string) (v' : V) :
  (k', v') ∈ dict_set k v d → (k', v') = (k, v) ∨ (k', v') ∈ d.
Proof.
  induction d as [|[k0 v0] d IH]; simpl.
  - intros ->%list_elem_of_singleton. by left.
  - destruct (decide (k = k0)).
    + intros [->|?]%elem_of_cons; [by left | right; by apply list_elem_of_further].
    + intros [->|Hin]%elem_of_cons; [right; apply list_elem_of_here |].
      destruct (IH Hin); [by left | right; by apply list_elem_of_further].
Qed.

Lemma lstrip_by_first (p : ascii → bool) (s : string) :
  lstrip_by p s = "" ∨ ∃ c r, lstrip_by p s = String c r ∧ p c = false.
Proof.
  induction s as [|c s IH]; simpl; [by left |].
  destruct (p c) eqn:Hc; [done | right; by exists c, s].
Qed.

(** A stripped line that is not empty has a word. *)
Lemma strip_words (l : string) : strip l ≠ "" → split_ws (strip l) ≠ [].
Proof.
  unfold strip. destruct (lstrip_by_first is_space (rstrip_by is_space l))
    as [->|(c & r & -> & Hc)]; [done |].
  intros _. simpl. rewrite Hc. destruct r as [|c' r']; [done |].
  destruct (is_space c'); [done |]. by destruct (split_ws (String c' r')).
Qed.

Lemma in_order_nil (lines : list string) (n : nat) : in_order lines n [].
Proof. split_and!; constructor. Qed.

Lemma in_order_le (lines : list string) (n m : nat) (rows : list conlltok) :
  (n ≤ m)%nat → in_order lines n rows → in_order lines m rows.
Proof.
  intros Hle (Hread & Hbound & Hsorted). split_and!; [done | | done].
  eapply Forall_impl; [exact Hbound |]. simpl. lia.
Qed.

Lemma in_order_snoc (lines : list string) (n : nat) (rows : list conlltok)
    (tok : conlltok) :
  in_order lines n rows → read_from lines tok → lineno tok = S n →
  in_order lines (S n) (rows ++ [tok]).
Proof.
  intros (Hread & Hbound & Hsorted) Htok Hno. split_and!.
  - apply Forall_app. split; [done | by constructor].
  - apply Forall_app. split.
    + eapply Forall_impl; [exact Hbound |]. simpl. lia.
    + constructor; [lia | constructor].
  - rewrite fmap_app. apply StronglySorted_app_2; [| done | repeat constructor].
    intros k1 k2 Hk1 ->%list_elem_of_singleton.
    apply list_elem_of_fmap in Hk1 as (tok1 & -> & Hin).
    rewrite Forall_forall in Hbound. specialize (Hbound tok1 Hin). simpl in Hbound. lia.
Qed.

Lemma end_document_in_order (lines : list string) (n : nat) (docname : string)
    (closed : list (list conlltok)) (cur : list conlltok) (docs out : conlldocs) :
  (∀ name sents, (name, sents) ∈ docs → in_order lines n (concat sents)) →
  in_order lines n (concat (closed ++ [cur])) →
  end_document docname closed cur docs = Return out →
  ∀ name sents, (name, sents) ∈ out → in_order lines n (concat sents).
Proof.
  intros Hdocs Hpos. unfold end_document.
  set (sentences := if cur is [] then closed else closed ++ [cur]).
  assert (concat sentences = concat (closed ++ [cur])) as Hsame.
  { unfold sentences. destruct cur; [|done].
    rewrite concat_app. simpl. by rewrite app_nil_r. }
  destruct sentences as [|s ss] eqn:Hs; [done |]. intros [= <-] name sents.
  intros [[= -> ->]|Hin]%dict_set_elem; [by rewrite Hsame | by eapply Hdocs].
Qed.

Lemma read_lines_in_order (all before lines : list string) (pos : position)
    (docs out : conlldocs) :
  all = before ++ lines →
  (∀ name sents, (name, sents) ∈ docs →
     in_order all (length before) (concat sents)) →
  (if pos is Inside _ closed cur
   then in_order all (length before) (concat (closed ++ [cur])) else True) →
  read_lines (length before) pos docs lines = Return out →
  ∀ name sents, (name, sents) ∈ out → in_order all (length all) (concat sents).
Proof.
  revert before pos docs.
  induction lines as [|line rest IH]; intros before pos docs Hall Hdocs Hpos.
  - rewrite app_nil_r in Hall. subst all. destruct pos as [|d closed cur]; simpl.
    + by intros [= <-].
    + intros Hend. by eapply end_document_in_order.
  - assert (all = (before ++ [line]) ++ rest) as Hall' by (by rewrite <- app_assoc).
    assert (S (length before) = length (before ++ [line])) as Hn
      by (rewrite length_app; simpl; lia).
    assert (∀ name sents, (name, sents) ∈ docs →
              in_order all (length (before ++ [line])) (concat sents)) as Hdocs'.
    { intros name sents Hin. rewrite <- Hn.
      apply (in_order_le _ (length before)); [lia | by eapply Hdocs]. }
    assert (length before ≤ length all)%nat as Hlen
      by (rewrite Hall, length_app; lia).
    simpl. rewrite Hn. destruct pos as [|d closed cur].
    + destruct (String.prefix "#begin document " line).
      * destruct (docname_of line) as [d|]; [|done].
        apply (IH (before ++ [line]) (Inside d [] [])); [done | | apply in_order_nil].
        intros name sents [[= -> ->]|Hin]%dict_set_elem;
          [apply in_order_nil | by eapply Hdocs'].
      * case_bool_decide.
        -- intros [= <-] name sents Hin.
           apply (in_order_le _ (length before)); [done | by eapply Hdocs].
        -- by apply (IH (before ++ [line]) Outside).
    + destruct (String.prefix "#end document" line || bool_decide (line = "")).
      * destruct (end_document d closed cur docs) as [docs'|] eqn:Hend; [|done].
        apply (IH (before ++ [line]) Outside); [done | | done].
        intros name sents Hin. rewrite <- Hn.
        apply (in_order_le _ (length before)); [lia |].
        by eapply end_document_in_order.
      * destruct (String.prefix "#" line) eqn:Hhash.
        -- apply (IH (before ++ [line]) (Inside d closed cur)); [done | done |].
           rewrite <- Hn. by apply (in_order_le _ (length before)); [lia |].
        -- case_bool_decide as Hstrip.
           ++ apply (IH (before ++ [line]) (Inside d closed _)); [done | done |].
              rewrite concat_app. simpl. rewrite app_nil_r, app_assoc.
              rewrite <- Hn. apply in_order_snoc; [| | done].
              ** revert Hpos. rewrite concat_app. simpl. by rewrite app_nil_r.
              ** exists line. simpl. split_and!; [lia | | done | done |].
                 --- rewrite Hall. by apply list_lookup_middle.
                 --- by apply strip_words.
           ++ apply (IH (before ++ [line]) (Inside d (closed ++ [cur]) []));
                [done | done |].
              rewrite concat_app. simpl. rewrite app_nil_r.
              rewrite <- Hn. by apply (in_order_le _ (length before)); [lia |].
Qed.

Lemma end_document_sentences (docname : string) (closed : list (list conlltok))
    (cur : list conlltok) (docs out : conlldocs) :
  (∀ name sents, (name, sents) ∈ docs → sents ≠ []) →
  end_document docname closed cur docs = Return out →
  ∀ name sents, (name, sents) ∈ out → sents ≠ [].
Proof.
  intros Hdocs. unfold end_document.
  destruct (if cur is [] then closed else closed ++ [cur]) as [|s ss]; [done |].
  intros [= <-] name sents [[= -> ->]|Hin]%dict_set_elem; [done | by eapply Hdocs].
Qed.

Lemma read_lines_sentences (n : nat) (pos : position) (docs out : conlldocs)
    (lines : list string) :
  (∀ name sents, (name, sents) ∈ docs → sents ≠ []) →
  read_lines n pos docs lines = Return out →
  ∀ name sents, (name, sents) ∈ out → sents ≠ [].
Proof.
  revert n pos docs. induction lines as [|line rest IH]; intros n pos docs Hdocs.
  - destruct pos as [|d closed cur]; simpl.
    + by intros [= <-].
    + by apply end_document_sentences.
  - simpl. destruct pos as [|d closed cur].
    + destruct (String.prefix "#begin document " line).
      * destruct (docname_of line) as [d|]; [|done]. apply IH.
        intros name sents [[= -> ->]|Hin]%dict_set_elem; [done | by eapply Hdocs].
      * case_bool_decide; [by intros [= <-] | by apply IH].
    + destruct (String.prefix "#end document" line || bool_decide (line = "")).
      * destruct (end_document d closed cur docs) as [docs'|] eqn:Hend; [|done].
        apply IH. by eapply end_document_sentences.
      * destruct (String.prefix "#" line); [by apply IH |].
        case_bool_decide; by apply IH.
Qed.

End ReadFacts.

(** Property X22.  What [readconll] returns without error: at least one
    document, and in each document at least one sentence; every row of a
    document was read from the line of the file whose number (counted from 1)
    is the first column of the row, a line that is no comment and has at
    least one word, and the other columns are the words of that line; the
    rows of a document, sentence after sentence, are in the order of their
    lines. *)
Theorem readconll_rows (lines : list string) (docs : conlldocs) :
  readconll lines = Return docs →
  docs ≠ [] ∧
  ∀ name sentences, (name, sentences) ∈ docs →
    sentences ≠ [] ∧
    Forall (read_from lines) (concat sentences) ∧
    StronglySorted lt (lineno <$> concat sentences).
Proof.
  unfold readconll.
  destruct (read_lines 0 Outside [] lines) as [out|] eqn:Hrun; [|done].
  destruct out as [|doc out]; [done |]. intros [= <-]. split; [done |].
  intros name sentences Hin. split.
  - by eapply (read_lines_sentences 0 Outside [] _ lines);
      [intros ? ? ?%elem_of_nil | exact Hrun | exact Hin].
  - destruct (read_lines_in_order lines [] lines Outside [] _ eq_refl
                ltac:(by intros ? ? ?%elem_of_nil) I Hrun name sentences Hin)
      as (Hread & _ & Hsorted).
    done.
Qed.

Lemma readconll_rows_witness :
  readconll sample_conll =
    Return [("(doc); part 000",
             [[mkConlltok 2 ["doc"; "0"; "0"; "John"; "NNP[x"];
               mkConlltok 3 ["doc"; "0"; "1"; "ran"; "VBD[x"]];
              [mkConlltok 6 ["doc"; "0"; "0"; "Stop"; "VB[x"]]])] ∧
  Forall (read_from sample_conll)
    [mkConlltok 2 ["doc"; "0"; "0"; "John"; "NNP[x"];
     mkConlltok 3 ["doc"; "0"; "1"; "ran"; "VBD[x"];
     mkConlltok 6 ["doc"; "0"; "0"; "Stop"; "VB[x"]].
Proof.
  assert (readconll sample_conll =
    Return [("(doc); part 000",
             [[mkConlltok 2 ["doc"; "0"; "0"; "John"; "NNP[x"];
               mkConlltok 3 ["doc"; "0"; "1"; "ran"; "VBD[x"]];
              [mkConlltok 6 ["doc"; "0"; "0"; "Stop"; "VB[x"]]])]) as Hrun
    by (vm_compute; reflexivity).
  split; [exact Hrun |].
  destruct (readconll_rows sample_conll _ Hrun) as [_ Hrows].
  destruct (Hrows _ _ (list_elem_of_here _ _)) as (_ & Hread & _).
  exact Hread.
Defined.

Section TokenizedFacts.

Lemma replace_first_undo (line : string) :
  key_delimited line = true →
  replace_first space "|" (replace_first "|" space line) = line.
Proof.
  induction line as [|c line IH]; simpl; [done |].
  destruct (decide (c = "|"%char)) as [->|Hbar].
  - done.
  - destruct (decide (c = space)) as [->|Hspace]; [done |].
    intros Hkey. simpl. case_decide; [done |]. by rewrite IH.
Qed.

(** The line printed for the tokens read from a line is that line. *)
Lemma txt_line_tokenized_line (line : string) :
  key_delimited line = true → txt_line (tokenized_line line) = line.
Proof.
  intros Hkey. unfold txt_line, tokenized_line.
  rewrite join_split_on. by apply replace_first_undo.
Qed.

Lemma txt_lines_tokenized_lines (lines : list string) :
  Forall (fun line => key_delimited line = true) lines →
  txt_line <$> (tokenized_line <$> lines) = lines.
Proof.
  induction 1 as [|line rest Hline _ IH]; [done |].
  rewrite !fmap_cons, IH. by rewrite (txt_line_tokenized_line line Hline).
Qed.

Lemma document_loop_txt (ann : list ann_record) (txt : list string)
    (idnum offset : Z) (conlldata : list (list conlltok))
    (tokenized : list (list string)) (segments : list segment) :
  length conlldata = length tokenized →
  document_loop ann txt idnum offset conlldata tokenized = Return segments →
  concat (snd <$> segments) = txt ++ (txt_line <$> tokenized).
Proof.
  revert ann txt idnum offset tokenized segments.
  induction conlldata as [|cs cd IH]; intros ann txt idnum offset tk segments Hlen.
  - destruct tk; [|done]. simpl. intros [= <-]. simpl. by rewrite !app_nil_r.
  - destruct tk as [|ts tk]; [done |]. simpl.
    destruct (decide (length cs ≠ length (tail ts))); [done |].
    destruct (head ts) as [key|]; [|done].
    destruct (sentence_loop _ _ cs (tail ts)) as [[[rs i'] o']|]; [|done].
    injection Hlen as Hlen.
    destruct (1000 <=? i').
    + destruct (document_loop [] [] 1 0 cd tk) as [rest|] eqn:Hrest; [|done].
      intros [= <-]. rewrite fmap_cons. cbn [concat snd].
      rewrite (IH _ _ _ _ _ _ Hlen Hrest). by rewrite <- app_assoc.
    + intros Hrun. rewrite (IH _ _ _ _ _ _ Hlen Hrun). by rewrite <- app_assoc.
Qed.

End TokenizedFacts.

(** Property X23.  When [main] converts a document without error, and in
    every line of the tokenized file the bar after the key comes before any
    space, the lines of the [.txt] files it writes, taken in the order of the
    segments, are the lines of the tokenized file. *)
Theorem main_document_txt (conll_lines txt_lines : list string)
    (segments : list segment) :
  Forall (fun line => key_delimited line = true) txt_lines →
  main_document conll_lines txt_lines = Return segments →
  concat (snd <$> segments) = txt_lines.
Proof.
  intros Hkeys. unfold main_document.
  destruct (readconll conll_lines) as [docs|]; [|done].
  destruct (decide (length docs ≠ 1%nat)); [done |].
  destruct docs as [|[name conlldata] docs]; [done |].
  unfold convert.
  destruct (decide (length conlldata ≠ length (tokenized_line <$> txt_lines)))
    as [|Hlen%dec_stable]; [done |].
  intros Hrun. rewrite (document_loop_txt _ _ _ _ _ _ _ Hlen Hrun). simpl.
  by apply txt_lines_tokenized_lines.
Qed.

Lemma main_document_txt_witness :
  main_document sample_conll sample_txt =
    Return [([mkAnn 1 "NNP" 3 7 "John"; mkAnn 2 "VBD" 8 11 "ran";
              mkAnn 3 "VB" 15 19 "Stop"], sample_txt)] ∧
  concat (snd <$> [([mkAnn 1 "NNP" 3 7 "John"; mkAnn 2 "VBD" 8 11 "ran";
                     mkAnn 3 "VB" 15 19 "Stop"], sample_txt)]) = sample_txt.
Proof.
  assert (main_document sample_conll sample_txt =
    Return [([mkAnn 1 "NNP" 3 7 "John"; mkAnn 2 "VBD" 8 11 "ran";
              mkAnn 3 "VB" 15 19 "Stop"], sample_txt)]) as Hrun
    by (vm_compute; reflexivity).
  split; [exact Hrun |].
  apply (main_document_txt sample_conll sample_txt _
           ltac:(repeat constructor) Hrun).
Defined.

Section BoundaryFacts.

Variable fname : string.

Lemma claim_loop_log_only (tb : Textbound) (os : list Z)
    (st : gmap Z Textbound * list warning) (w : warning) :
  w ∈ (foldl (claim fname tb) st os).2 →
  w ∈ st.2 ∨ w = OverlappingAnnotations fname.
Proof.
  revert st. induction os as [|a os IH]; intros st; simpl; [by left |].
  intros [Hw|Hw]%IH; [|by right]. unfold claim in Hw. simpl in Hw.
  destruct (decide (is_Some (st.1 !! a))); [|by left].
  apply elem_of_app in Hw as [?| ->%list_elem_of_singleton]; [by left | by right].
Qed.

Lemma claim_spans_log_only (annotations : list Textbound)
    (st : gmap Z Textbound * list warning) (w : warning) :
  w ∈ (foldl (claim_span fname) st annotations).2 →
  w ∈ st.2 ∨ w = OverlappingAnnotations fname.
Proof.
  revert st. induction annotations as [|tb anns IH]; intros st; simpl; [by left |].
  intros [Hw|Hw]%IH; [|by right]. by apply claim_loop_log_only in Hw.
Qed.

(** The warning of the inner loop of [relabel] over [range(a, a + k)]. *)
Lemma find_label_seqZ (ol : gmap Z Textbound) (s : Z) (token : string)
    (k : nat) (a : Z) (w : warning) :
  w ∈ (find_label fname ol s token (seqZ a (Z.of_nat k))).2 →
  ∃ o tb,
    a ≤ o < a + Z.of_nat k ∧
    (∀ o', a ≤ o' < o → ol !! o' = None) ∧
    ol !! o = Some tb ∧ o ≠ s ∧
    w = BoundaryMismatch fname token (tb_text tb).
Proof.
  revert a. induction k as [|k IH]; intros a.
  - simpl. by intros ?%elem_of_nil.
  - rewrite seqZ_cons by lia.
    replace (Z.pred (Z.of_nat (S k))) with (Z.of_nat k) by lia.
    simpl. destruct (ol !! a) as [tb|] eqn:Ha.
    + simpl. destruct (decide (a = s)); [by intros ?%elem_of_nil |].
      intros ->%list_elem_of_singleton. exists a, tb.
      split_and!; [lia | lia | intros; lia | done..].
    + intros (o & tb & Ho & Hbefore & Hown & Hne & ->)%IH. exists o, tb.
      split_and!; [lia | lia | | done..].
      intros o' Ho'. destruct (decide (o' = a)) as [->|]; [done |].
      apply Hbefore. lia.
Qed.

Lemma find_label_range (ol : gmap Z Textbound) (s e : Z) (token : string)
    (w : warning) :
  w ∈ (find_label fname ol s token (range s e)).2 →
  ∃ o tb,
    s < o < e ∧
    (∀ o', s ≤ o' < o → ol !! o' = None) ∧
    ol !! o = Some tb ∧
    w = BoundaryMismatch fname token (tb_text tb).
Proof.
  unfold range.
  replace (seqZ s (e - s)) with (seqZ s (Z.of_nat (Z.to_nat (e - s))))
    by (unfold seqZ; by rewrite Nat2Z.id).
  intros (o & tb & Ho & Hbefore & Hown & Hne & ->)%find_label_seqZ.
  exists o, tb. split_and!; [lia | lia | done..].
Qed.

Lemma relabel_lines_warned (ol : gmap Z Textbound) (prev : option string)
    (lines : list line) (w : warning) :
  w ∈ (relabel_lines fname ol prev lines).2 →
  ∃ tag s e token,
    Tok tag s e token ∈ lines ∧
    w ∈ (find_label fname ol s token (range s e)).2.
Proof.
  revert prev. induction lines as [|[|tag s e token] lines IH]; intros prev; simpl.
  - by intros ?%elem_of_nil.
  - intros (tag & s & e & token & Hin & Hw)%IH.
    exists tag, s, e, token. split; [by apply list_elem_of_further | done].
  - intros [Hw|(tag' & s' & e' & token' & Hin & Hw)%IH]%elem_of_app.
    + exists tag, s, e, token. split; [apply list_elem_of_here | done].
    + exists tag', s', e', token'. split; [by apply list_elem_of_further | done].
Qed.

End BoundaryFacts.

(** Property X24.  [relabel] prints the boundary-mismatch warning for a
    token and the text of a span exactly when the list has a record with
    that token whose start no span claims, and the first claimed offset of
    its range belongs to a span with that text. *)
Theorem relabel_boundary_warning (fname : string) (opts : options)
    (lines : list line) (annotations : list Textbound) (token text : string) :
  BoundaryMismatch fname token text ∈ (relabel fname opts lines annotations).2 ↔
  ∃ tag s e o tb,
    Tok tag s e token ∈ lines ∧
    first_claimed annotations s e o tb ∧ s < o ∧ tb_text tb = text.
Proof.
  unfold relabel. simpl. set (ol := (build_offset_label fname annotations).1).
  split.
  - intros [Hw|Hw]%elem_of_app.
    + apply claim_spans_log_only in Hw as [Hw|Hw]; [by apply elem_of_nil in Hw | done].
    + apply relabel_lines_warned in Hw as (tag & s & e & token' & Hin & Hw).
      apply find_label_range in Hw as (o & tb & Ho & Hbefore & Hown & [= <- ->]).
      exists tag, s, e, o, tb. split; [done |]. split; [| split; [lia | done]].
      unfold first_claimed. split_and!; [lia | lia | |].
      * intros o' Ho'. rewrite <- build_offset_label_lookup with (fname := fname).
        by apply Hbefore.
      * by rewrite <- build_offset_label_lookup with (fname := fname).
  - intros (tag & s & e & o & tb & Hin & (Ho & Hbefore & Hown) & Hlt & <-).
    apply list_elem_of_lookup in Hin as [i Hi].
    destruct (relabel_lines_lookup fname ol None lines i tag s e token Hi)
      as (prev & _ & Hlog).
    apply elem_of_app. right. apply Hlog.
    rewrite (range_split s e o Ho).
    rewrite (find_label_first fname ol s token (range s o) (range (o + 1) e) o tb).
    + simpl. rewrite decide_False by lia. apply list_elem_of_here.
    + intros o' Ho'%elem_of_range. unfold ol.
      rewrite build_offset_label_lookup. by apply Hbefore.
    + unfold ol. by rewrite build_offset_label_lookup.
Qed.

Section FormatFacts.

Lemma all_chars_append (p : ascii → bool) (a b : string) :
  all_chars p (a +:+ b) = all_chars p a && all_chars p b.
Proof.
  induction a as [|c a IH]; [done |].
  rewrite append_cons. simpl. by rewrite IH, andb_assoc.
Qed.

Lemma contains_append (c : ascii) (a b : string) :
  contains c (a +:+ b) = contains c a || contains c b.
Proof.
  induction a as [|c' a IH]; [done |].
  rewrite append_cons. simpl. by rewrite IH, orb_assoc.
Qed.

Lemma all_chars_contains (p : ascii → bool) (c : ascii) (s : string) :
  p c = false → all_chars p s = true → contains c s = false.
Proof.
  intros Hc. induction s as [|c' s IH]; simpl; [done |].
  intros [Hc' Hs]%andb_true_iff. rewrite (IH Hs), orb_false_r.
  apply bool_decide_eq_false. intros ->. congruence.
Qed.

Lemma word_contains (c : ascii) (w : string) :
  is_space c = true → word w → contains c w = false.
Proof.
  intros Hc Hw. apply (all_chars_contains (fun c => negb (is_space c))); [|done].
  by rewrite Hc.
Qed.

Lemma digit_no_space (c : ascii) : is_digit c = true → is_space c = false.
Proof.
  destruct c as [[] [] [] [] [] [] [] []]; vm_compute; intros; congruence.
Qed.

Lemma digits_word (ds : string) : all_chars is_digit ds = true → word ds.
Proof.
  unfold word. induction ds as [|c ds IH]; simpl; [done |].
  intros [Hc Hds]%andb_true_iff. by rewrite (digit_no_space c Hc), IH.
Qed.

Lemma digit_char_digit (d : Z) :
  0 ≤ d < 10 → is_digit (digit_char d) = true ∧ digit_value (digit_char d) = d.
Proof.
  intros Hd.
  assert (d = 0 ∨ d = 1 ∨ d = 2 ∨ d = 3 ∨ d = 4 ∨ d = 5 ∨ d = 6 ∨ d = 7 ∨
          d = 8 ∨ d = 9) as Hcases by lia.
  repeat destruct Hcases as [->|Hcases]; try subst d; done.
Qed.

Lemma decimal_S (fuel : nat) (n : Z) (acc : string) :
  decimal (S fuel) n acc =
    if n <? 10 then String (digit_char (n mod 10)) acc
    else decimal fuel (n / 10) (String (digit_char (n mod 10)) acc).
Proof. reflexivity. Qed.

Lemma decimal_append (fuel : nat) (n : Z) (acc : string) :
  decimal fuel n acc = decimal fuel n "" +:+ acc.
Proof.
  revert n acc. induction fuel as [|fuel IH]; intros n acc; [done |].
  rewrite !decimal_S. destruct (n <? 10); [done |].
  rewrite IH, (IH _ (String _ "")), append_assoc. done.
Qed.

Lemma decimal_digits (fuel : nat) (n : Z) :
  0 ≤ n → all_chars is_digit (decimal fuel n "") = true.
Proof.
  revert n. induction fuel as [|fuel IH]; intros n Hn; [done |].
  destruct (digit_char_digit (n mod 10)) as [Hd _];
    [apply Z.mod_pos_bound; lia |].
  rewrite decimal_S. destruct (n <? 10).
  - cbn [all_chars]. by rewrite Hd.
  - rewrite decimal_append, all_chars_append. cbn [all_chars].
    rewrite Hd, IH; [done | by apply Z.div_pos].
Qed.

Lemma decimal_nonempty (fuel : nat) (n : Z) : decimal (S fuel) n "" ≠ "".
Proof.
  rewrite decimal_S. destruct (n <? 10); [done |].
  rewrite decimal_append. by destruct (decimal fuel (n / 10) "").
Qed.

(** [int] reads the digits that ['%d'] writes. *)
Lemma decimal_value (fuel : nat) (n : Z) (seen : bool) (rest : string) :
  0 ≤ n → (Z.to_nat n < fuel)%nat →
  int_digits 0 seen (decimal fuel n rest) = int_digits n true rest.
Proof.
  revert n seen rest. induction fuel as [|fuel IH]; intros n seen rest Hn Hfuel;
    [lia |].
  pose proof (Z.div_mod n 10 ltac:(lia)) as Hdiv.
  pose proof (Z.mod_pos_bound n 10 ltac:(lia)) as Hmod.
  destruct (digit_char_digit (n mod 10) Hmod) as [Hd Hv].
  rewrite decimal_S. destruct (n <? 10) eqn:Hlt.
  - apply Z.ltb_lt in Hlt. cbn [int_digits]. rewrite Hd, Hv.
    f_equal. rewrite Z.mod_small by lia. lia.
  - apply Z.ltb_ge in Hlt. rewrite IH.
    + cbn [int_digits]. rewrite Hd, Hv. f_equal. lia.
    + apply Z.div_pos; lia.
    + assert (n / 10 < n) by (apply Z.div_lt; lia). lia.
Qed.

Lemma format_d_digits (z : Z) :
  0 ≤ z → format_d z ≠ "" ∧ all_chars is_digit (format_d z) = true.
Proof.
  intros Hz. unfold format_d. rewrite (proj2 (Z.ltb_ge z 0)) by done.
  split; [apply decimal_nonempty | by apply decimal_digits].
Qed.

Lemma py_int_digits (ds : string) :
  ds ≠ "" → all_chars is_digit ds = true → py_int ds = int_digits 0 false ds.
Proof.
  intros Hne Hds. unfold py_int, strip.
  rewrite (rstrip_by_none is_space ds (digits_word ds Hds)),
    (lstrip_by_none is_space ds (digits_word ds Hds)).
  destruct ds as [|c ds]; [done |]. simpl in Hds.
  apply andb_true_iff in Hds as [Hc _].
  destruct c as [[] [] [] [] [] [] [] []]; try done; vm_compute in Hc; congruence.
Qed.

Lemma py_int_format_d (z : Z) : 0 ≤ z → py_int (format_d z) = Some z.
Proof.
  intros Hz. destruct (format_d_digits z Hz) as [Hne Hds].
  rewrite (py_int_digits _ Hne Hds). unfold format_d.
  rewrite (proj2 (Z.ltb_ge z 0)) by done.
  rewrite decimal_value by lia. done.
Qed.

Lemma format_d_inj (a b : Z) : 0 ≤ a → 0 ≤ b → format_d a = format_d b → a = b.
Proof.
  intros Ha Hb Heq. pose proof (py_int_format_d a Ha) as Hpa.
  rewrite Heq, (py_int_format_d b Hb) in Hpa. congruence.
Qed.

Lemma skip_digits_tab (ds rest : string) :
  all_chars is_digit ds = true →
  skip_digits (ds +:+ String tab rest) = String tab rest.
Proof.
  induction ds as [|c ds IH]; [done |].
  rewrite append_cons. simpl. intros [-> Hds]%andb_true_iff. by apply IH.
Qed.

Lemma id_prefix_digits (letter : ascii) (ds rest : string) :
  ds ≠ "" → all_chars is_digit ds = true →
  id_prefix letter (String letter (ds +:+ String tab rest)) = true.
Proof.
  intros Hne Hds. destruct ds as [|d ds]; [done |].
  rewrite append_cons. simpl in *.
  apply andb_true_iff in Hds as [-> Hds].
  rewrite (skip_digits_tab ds rest Hds), !bool_decide_eq_true_2 by done. done.
Qed.

Lemma split_on_none (sep : ascii) (s : string) :
  contains sep s = false → split_on sep s = [s].
Proof.
  induction s as [|c s IH]; simpl; [done |].
  intros [Hc%bool_decide_eq_false Hs]%orb_false_iff.
  rewrite decide_False by done. by rewrite (IH Hs).
Qed.

Lemma split_ws_word (w : string) : w ≠ "" → word w → split_ws w = [w].
Proof.
  unfold word. induction w as [|c w IH]; [done |]. intros _. simpl.
  intros [Hc%negb_true_iff Hw]%andb_true_iff. rewrite Hc.
  destruct w as [|c' w]; [done |].
  pose proof Hw as Hw'. simpl in Hw'.
  apply andb_true_iff in Hw' as [Hc'%negb_true_iff _]. rewrite Hc'.
  by rewrite (IH ltac:(done) Hw).
Qed.

Lemma split_ws_word_space (w rest : string) :
  w ≠ "" → word w →
  split_ws (w +:+ String space rest) = w :: split_ws rest.
Proof.
  unfold word. induction w as [|c w IH]; [done |]. intros _.
  rewrite append_cons. simpl.
  intros [Hc%negb_true_iff Hw]%andb_true_iff. rewrite Hc.
  destruct w as [|c' w]; [done |].
  pose proof Hw as Hw'. simpl in Hw'.
  apply andb_true_iff in Hw' as [Hc'%negb_true_iff _].
  rewrite append_cons, Hc'. rewrite <- append_cons.
  by rewrite (IH ltac:(done) Hw).
Qed.

Lemma rstrip_by_snoc (p : ascii → bool) (s : string) (c : ascii) :
  p c = true → rstrip_by p (s +:+ String c "") = rstrip_by p s.
Proof.
  intros Hc. induction s as [|c' s IH]; [simpl; by rewrite Hc |].
  rewrite append_cons. simpl. by rewrite IH.
Qed.

Lemma contains_none (c : ascii) (s : string) :
  contains c s = false →
  all_chars (fun x => negb (bool_decide (x = c))) s = true.
Proof.
  induction s as [|c' s IH]; simpl; [done |].
  intros [-> Hs]%orb_false_iff. by rewrite IH.
Qed.

Lemma dict_set_fresh {V : Type} (k : string) (v : V) (d : list (string * V)) :
  k ∉ d.*1 → dict_set k v d = d ++ [(k, v)].
Proof.
  induction d as [|[k' v'] d IH]; simpl; [done |].
  intros [Hne Hd]%not_elem_of_cons. rewrite decide_False by done. by rewrite IH.
Qed.

End FormatFacts.

Section StandoffFacts.

Lemma format_d_contains (c : ascii) (z : Z) :
  0 ≤ z → is_digit c = false → contains c (format_d z) = false.
Proof.
  intros Hz Hc. destruct (format_d_digits z Hz) as [_ Hds].
  by apply (all_chars_contains is_digit).
Qed.

Lemma ann_key_contains (c : ascii) (r : ann_record) :
  0 ≤ ann_id r → is_digit c = false → c ≠ "T"%char →
  contains c (ann_key r) = false.
Proof.
  intros Hid Hc HT. unfold ann_key.
  change ("T" +:+ format_d (ann_id r)) with (String "T" (format_d (ann_id r))).
  cbn [contains]. rewrite bool_decide_eq_false_2 by done.
  by rewrite format_d_contains.
Qed.

(** The second field of the line: the type and the two offsets. *)
Lemma type_offsets_contains (c : ascii) (r : ann_record) :
  standoff_record r → is_space c = true → c ≠ space →
  contains c
    (ann_type r +:+
     String space (format_d (ann_start r) +:+ String space (format_d (ann_end r))))
  = false.
Proof.
  intros (_ & Hs & He & _ & Hty & _) Hc Hsp.
  assert (is_digit c = false) as Hd.
  { destruct (is_digit c) eqn:Hdc; [|done].
    apply digit_no_space in Hdc. congruence. }
  rewrite contains_append. cbn [contains]. rewrite contains_append. cbn [contains].
  rewrite (word_contains c _ Hc Hty), !format_d_contains by done.
  by rewrite !bool_decide_eq_false_2 by done.
Qed.

Lemma tokstr_line_newline (r : ann_record) :
  standoff_record r → contains newline (tokstr_line r) = false.
Proof.
  intros Hr. pose proof Hr as (Hid & _ & _ & _ & _ & Htext).
  unfold tokstr_line. rewrite contains_append. cbn [contains].
  rewrite contains_append. cbn [contains].
  rewrite ann_key_contains, type_offsets_contains by done.
  rewrite (word_contains newline _ eq_refl Htext).
  by rewrite !bool_decide_eq_false_2 by done.
Qed.

Lemma rstrip_newline_ann_line (r : ann_record) :
  standoff_record r → rstrip_newline (ann_line r) = tokstr_line r.
Proof.
  intros Hr. unfold rstrip_newline, ann_line.
  rewrite rstrip_by_snoc by (by apply bool_decide_eq_true_2).
  apply rstrip_by_none, contains_none, tokstr_line_newline, Hr.
Qed.

Lemma TEXTBOUND_LINE_tokstr_line (r : ann_record) :
  0 ≤ ann_id r → TEXTBOUND_LINE (tokstr_line r) = true.
Proof.
  intros Hid. destruct (format_d_digits _ Hid) as [Hne Hds].
  unfold TEXTBOUND_LINE, tokstr_line, ann_key.
  change ("T" +:+ format_d (ann_id r)) with (String "T" (format_d (ann_id r))).
  rewrite append_cons. by apply id_prefix_digits.
Qed.

Lemma split_on_tab_tokstr_line (r : ann_record) :
  standoff_record r →
  split_on tab (tokstr_line r) =
    [ann_key r;
     ann_type r +:+
       String space (format_d (ann_start r) +:+ String space (format_d (ann_end r)));
     ann_text r].
Proof.
  intros Hr. pose proof Hr as (Hid & _ & _ & _ & _ & Htext). unfold tokstr_line.
  rewrite split_on_append by (by apply ann_key_contains).
  rewrite split_on_append by (by apply type_offsets_contains).
  by rewrite split_on_none by (by apply word_contains).
Qed.

Lemma split_ws_type_offsets (r : ann_record) :
  standoff_record r →
  split_ws
    (ann_type r +:+
     String space (format_d (ann_start r) +:+ String space (format_d (ann_end r))))
  = [ann_type r; format_d (ann_start r); format_d (ann_end r)].
Proof.
  intros (_ & Hs & He & Hne & Hty & _).
  destruct (format_d_digits _ Hs) as [Hsne Hsd].
  destruct (format_d_digits _ He) as [Hene Hed].
  rewrite split_ws_word_space by done.
  rewrite split_ws_word_space by (done || by apply digits_word).
  by rewrite split_ws_word by (done || by apply digits_word).
Qed.

(** What [parse_textbounds] stores for a line of the [.ann] file. *)
Lemma parse_line_ann_line (st : parse_state) (r : ann_record) :
  standoff_record r →
  parse_line st (ann_line r) =
    Return (dict_set (ann_key r) (ann_entity r).2 st.1, st.2).
Proof.
  intros Hr. pose proof Hr as (Hid & Hs & He & _).
  unfold parse_line. cbv zeta.
  rewrite (rstrip_newline_ann_line r Hr), (TEXTBOUND_LINE_tokstr_line r Hid).
  cbn [negb]. rewrite (split_on_tab_tokstr_line r Hr), (split_ws_type_offsets r Hr).
  by rewrite (py_int_format_d _ Hs), (py_int_format_d _ He).
Qed.

Lemma ann_key_inj (r1 r2 : ann_record) :
  0 ≤ ann_id r1 → 0 ≤ ann_id r2 → ann_key r1 = ann_key r2 → ann_id r1 = ann_id r2.
Proof.
  unfold ann_key. intros H1 H2 Heq. apply format_d_inj; [done | done |].
  change (String "T" (format_d (ann_id r1)) = String "T" (format_d (ann_id r2))) in Heq.
  congruence.
Qed.

Lemma parse_lines_ann_lines (m : list (string * entity))
    (attrs : list (string * string)) (records : list ann_record) :
  Forall standoff_record records →
  NoDup (ann_id <$> records) →
  (∀ r, r ∈ records → ann_key r ∉ m.*1) →
  parse_lines (m, attrs) (ann_line <$> records) =
    Return (m ++ (ann_entity <$> records), attrs).
Proof.
  intros Hrecords. revert m.
  induction Hrecords as [|r rest Hr Hrest IH]; intros m Hnd Hfresh.
  - simpl. by rewrite app_nil_r.
  - rewrite fmap_cons in Hnd. apply NoDup_cons in Hnd as [Hid Hnd].
    rewrite !fmap_cons. cbn [parse_lines]. rewrite (parse_line_ann_line _ r Hr).
    simpl. rewrite dict_set_fresh by (apply Hfresh; left).
    rewrite IH; [by rewrite <- app_assoc | done |].
    intros r' Hr'. rewrite fmap_app. simpl. rewrite elem_of_app.
    intros [Hin|Hin%list_elem_of_singleton].
    + by apply (Hfresh r'); [right |].
    + apply Hid. apply ann_key_inj in Hin.
      * rewrite <- Hin. by apply list_elem_of_fmap_2.
      * rewrite Forall_forall in Hrest. by destruct (Hrest r' Hr').
      * by destruct Hr.
Qed.

End StandoffFacts.

(** Property X25.  [parse_textbounds] reads back what the converter prints:
    for records with different numbers that are not negative, with offsets
    that are not negative, none of these numbers with more digits than the
    interpreter converts, and with a type and a text without white space
    (the type not empty), the lines written to an [.ann] file parse without
    error, to one [Textbound] per record, in the order of the file, each
    with the offsets, the type and the text of its record. *)
Theorem ann_lines_parse (opts : options) (records : list ann_record) :
  Forall standoff_record records →
  Forall within_digit_limit records →
  NoDup (ann_id <$> records) →
  parse_textbounds opts (ann_line <$> records) = Return (textbound_of <$> records).
Proof.
  intros Hrecords _ Hnd. unfold parse_textbounds.
  rewrite (parse_lines_ann_lines [] [] records Hrecords Hnd)
    by (intros; apply not_elem_of_nil).
  unfold fold_attributes. simpl.
  assert (to_textbound <$> (ann_entity <$> records) = textbound_of <$> records)
    as Hsame.
  { rewrite <- list_fmap_compose. apply list_fmap_ext. intros i r _. done. }
  destruct (attributes opts); simpl; by rewrite Hsame.
Qed.

Lemma ann_lines_parse_witness :
  parse_textbounds no_options
    (ann_line <$> [mkAnn 1 "NNP" 3 7 "John"; mkAnn 2 "VBD" 8 11 "ran"]) =
  Return [mkTextbound 3 7 "NNP" "John"; mkTextbound 8 11 "VBD" "ran"].
Proof.
  apply (ann_lines_parse no_options
           [mkAnn 1 "NNP" 3 7 "John"; mkAnn 2 "VBD" 8 11 "ran"]).
  - repeat constructor; simpl; lia || done.
  - repeat constructor; vm_compute; discriminate.
  - apply (bool_decide_unpack _). by vm_compute.
Defined.

Section ConverterStandoffFacts.

Lemma before_bracket_word (pos ty : string) :
  before_bracket pos = Some ty → word pos → word ty.
Proof.
  unfold word. revert ty. induction pos as [|c pos IH]; intros ty; simpl; [done |].
  destruct (decide (c = "["%char)); [by intros [= <-] |].
  destruct (before_bracket pos) as [ty'|]; [|done]. simpl.
  intros [= <-] [Hc Hpos]%andb_true_iff. simpl. by rewrite Hc, (IH ty').
Qed.

Lemma token_record_plain (idnum offset : Z) (tok : conlltok) (r : ann_record) :
  0 ≤ offset → Forall word (columns tok) →
  token_record idnum offset tok = Return r →
  plain_record r ∧ ann_start r ≤ ann_end r ∧
  ann_end r = offset + Z.of_nat (String.length (ann_text r)).
Proof.
  intros Hoff Hwords. unfold token_record, tokstr.
  destruct (columns tok !! 4%nat) as [pos5|] eqn:H5; [|done].
  destruct (before_bracket pos5) as [pos|] eqn:Hpos; [|done].
  destruct (columns tok !! 3%nat) as [text|] eqn:H3; [|done].
  rewrite Forall_forall in Hwords.
  pose proof (Hwords _ (list_elem_of_lookup_2 _ _ _ H5)) as Hw5.
  pose proof (Hwords _ (list_elem_of_lookup_2 _ _ _ H3)) as Hw3.
  repeat (case_match; try done). intros [= <-]. simpl.
  split; [| split; [lia | done]].
  unfold plain_record. simpl.
  split_and!; [lia | lia | by eapply before_bracket_word | done].
Qed.

Lemma sentence_loop_plain (idnum offset : Z) (conllsent : list conlltok)
    (toks : list string) (records : list ann_record) (idnum' offset' : Z) :
  0 ≤ offset → Forall (fun tok => Forall word (columns tok)) conllsent →
  sentence_loop idnum offset conllsent toks = Return (records, idnum', offset') →
  0 ≤ offset' ∧ Forall plain_record records.
Proof.
  intros Hoff Hrows. revert idnum offset toks records Hoff.
  induction Hrows as [|tok cs Htok Hrows IH]; intros idnum offset toks records Hoff.
  - simpl. by intros [= <- <- <-].
  - destruct toks as [|t toks]; [simpl; by intros [= <- <- <-] |]. simpl.
    destruct (token_record idnum offset tok) as [r0|] eqn:Hrec; [|done].
    destruct (sentence_loop _ _ cs toks) as [[[rs i'] o']|] eqn:Hloop; [|done].
    intros [= <- <- <-].
    destruct (token_record_plain _ _ _ _ Hoff Htok Hrec) as (Hplain & Hle & Hend).
    apply IH in Hloop as [Ho' Hrs]; [by split; [| constructor] | lia].
Qed.

Lemma document_loop_plain (ann : list ann_record) (txt : list string)
    (idnum offset : Z) (conlldata : list (list conlltok))
    (tokenized : list (list string)) (segments : list segment) :
  0 ≤ offset →
  Forall (Forall (fun tok => Forall word (columns tok))) conlldata →
  Forall plain_record ann →
  document_loop ann txt idnum offset conlldata tokenized = Return segments →
  ∀ seg, seg ∈ segments → Forall plain_record seg.1.
Proof.
  intros Hoff Hrows. revert ann txt idnum offset tokenized segments Hoff.
  induction Hrows as [|cs cd Hcs Hrows IH];
    intros ann txt idnum offset tk segments Hoff Hann.
  - simpl. by intros [= <-] seg ->%list_elem_of_singleton.
  - destruct tk as [|ts tk];
      [simpl; by intros [= <-] seg ->%list_elem_of_singleton |].
    simpl. destruct (decide (length cs ≠ length (tail ts))); [done |].
    destruct (head ts) as [key|]; [|done].
    destruct (sentence_loop _ _ cs (tail ts)) as [[[rs i'] o']|] eqn:Hloop; [|done].
    apply sentence_loop_plain in Hloop as [Ho' Hrs]; [| lia | done].
    assert (Forall plain_record (ann ++ rs)) as Hann' by (by apply Forall_app).
    destruct (1000 <=? i').
    + destruct (document_loop [] [] 1 0 cd tk) as [rest|] eqn:Hrest; [|done].
      intros [= <-] seg [->|Hseg]%elem_of_cons; [done |].
      by apply (IH [] [] 1 0 tk rest).
    + intros Hrun. by apply (IH _ _ _ _ _ _ Ho' Hann' Hrun).
Qed.

Lemma Forall_concat_inv {A : Type} (P : A → Prop) (ls : list (list A)) :
  Forall P (concat ls) → Forall (Forall P) ls.
Proof.
  induction ls as [|l ls IH]; simpl; [constructor |].
  intros [Hl Hls]%Forall_app. constructor; [done | by apply IH].
Qed.

(** The columns of the rows that [readconll] returns are without white
    space. *)
Lemma readconll_words (lines : list string) (docs : conlldocs) :
  readconll lines = Return docs →
  ∀ name sentences, (name, sentences) ∈ docs →
    Forall (Forall (fun tok => Forall word (columns tok))) sentences.
Proof.
  unfold readconll.
  destruct (read_lines 0 Outside [] lines) as [out|] eqn:Hrun; [|done].
  destruct out as [|doc out]; [done |]. intros [= <-] name sentences Hin.
  destruct (read_lines_in_order lines [] lines Outside [] _ eq_refl
              ltac:(by intros ? ? ?%elem_of_nil) I Hrun name sentences Hin)
    as (Hread & _ & _).
  apply Forall_concat_inv. eapply Forall_impl; [exact Hread |].
  intros tok (line & _ & _ & _ & -> & _).
  rewrite Forall_forall. intros w Hw. by apply split_ws_words in Hw as [_ Hw].
Qed.

Lemma well_numbered_ids (seg : segment) :
  well_numbered seg →
  NoDup (ann_id <$> seg.1) ∧ Forall (fun r => 0 ≤ ann_id r) seg.1.
Proof.
  unfold well_numbered, segment_ids. intros Hids. split.
  - rewrite Hids. apply NoDup_seqZ.
  - rewrite Forall_forall. intros r Hr.
    assert (ann_id r ∈ seqZ 1 (Z.of_nat (length seg.1))) as Hin
      by (rewrite <- Hids; by apply list_elem_of_fmap_2).
    apply elem_of_seqZ in Hin. lia.
Qed.

End ConverterStandoffFacts.

(** Property X26.  Every [.ann] file that [main] writes for a document
    whose records all have a type (the part of the tag before the bracket
    is not empty) is read by [parse_textbounds] without error, as one
    [Textbound] per record, in the order of the file, with the offsets, the
    type and the text of the record. *)
Theorem main_document_standoff (opts : options) (conll_lines txt_lines : list string)
    (segments : list segment) (seg : segment) :
  main_document conll_lines txt_lines = Return segments →
  seg ∈ segments →
  (∀ r, r ∈ seg.1 → ann_type r ≠ "") →
  parse_textbounds opts (ann_line <$> seg.1) = Return (textbound_of <$> seg.1).
Proof.
  unfold main_document.
  destruct (readconll conll_lines) as [docs|] eqn:Hread; [|done].
  destruct (decide (length docs ≠ 1%nat)); [done |].
  destruct docs as [|[name conlldata] docs]; [done |].
  pose proof (readconll_words _ _ Hread name conlldata (list_elem_of_here _ _))
    as Hwords.
  unfold convert.
  destruct (decide (length conlldata ≠ length (tokenized_line <$> txt_lines)))
    as [|Hlen%dec_stable]; [done |].
  intros Hrun Hseg Htypes.
  pose proof (document_loop_plain [] [] 1 0 _ _ _ ltac:(done) Hwords
                ltac:(constructor) Hrun seg Hseg) as Hplain.
  destruct (document_loop_segments [] [] 1 0 _ _ _ Hlen eq_refl eq_refl Hrun)
    as (_ & Hnumbered & _).
  rewrite Forall_forall in Hnumbered.
  destruct (well_numbered_ids seg (Hnumbered seg Hseg)) as [Hnd Hids].
  assert (Forall standoff_record seg.1) as Hrecords.
  { rewrite Forall_forall in Hplain, Hids. rewrite Forall_forall. intros r Hr.
    destruct (Hplain r Hr) as (? & ? & ? & ?).
    split_and!; [by apply Hids | done | done | by apply Htypes | done | done]. }
  unfold parse_textbounds.
  rewrite (parse_lines_ann_lines [] [] seg.1 Hrecords Hnd)
    by (intros; apply not_elem_of_nil).
  unfold fold_attributes. simpl.
  assert (to_textbound <$> (ann_entity <$> seg.1) = textbound_of <$> seg.1)
    as Hsame.
  { rewrite <- list_fmap_compose. apply list_fmap_ext. intros i r _. done. }
  destruct (attributes opts); simpl; by rewrite Hsame.
Qed.

Lemma main_document_standoff_witness :
  parse_textbounds no_options
    (ann_line <$> [mkAnn 1 "NNP" 3 7 "John"; mkAnn 2 "VBD" 8 11 "ran";
                   mkAnn 3 "VB" 15 19 "Stop"]) =
  Return [mkTextbound 3 7 "NNP" "John"; mkTextbound 8 11 "VBD" "ran";
          mkTextbound 15 19 "VB" "Stop"].
Proof.
  apply (main_document_standoff no_options sample_conll sample_txt
           [([mkAnn 1 "NNP" 3 7 "John"; mkAnn 2 "VBD" 8 11 "ran";
              mkAnn 3 "VB" 15 19 "Stop"], sample_txt)]
           ([mkAnn 1 "NNP" 3 7 "John"; mkAnn 2 "VBD" 8 11 "ran";
             mkAnn 3 "VB" 15 19 "Stop"], sample_txt)).
  - vm_compute. reflexivity.
  - apply list_elem_of_here.
  - intros r Hr. simpl in Hr.
    repeat (apply elem_of_cons in Hr as [->|Hr]; [done |]).
    by apply elem_of_nil in Hr.
Defined.
